(** * The D-Bus bindings of libnih ([nih/dbus.c]): model and properties

    The file follows the order of [nih/dbus.c] bottom-up: path encoding
    ([nih_dbus_path]), the timeout and watch bridges, connection setup and
    the disconnect filter, object teardown, message dispatch and
    introspection.  Each module embeds the C functions it is about as
    Rocq functions over an explicit state.  Part I holds the models,
    Part II the properties proved of them.  The last modules of Part I
    model the rest of the file: the watcher, opening connections and
    servers, accepting connections, the main-loop callback and object
    creation; the last modules of Part II hold their properties and
    further properties of the functions modelled first. *)

From Stdlib Require Import ZArith Lia String Ascii.
From stdpp Require Import base numbers option list gmap strings.

Local Open Scope Z_scope.

(** * Part I: the model *)

(** ** Shared helpers *)

(** A fold whose step may fail: the loops of the C code stop at the first
    step that fails. *)
Fixpoint fold_opt {A S : Type} (f : S -> A -> option S) (l : list A) (s : S)
  : option S :=
  match l with
  | [] => Some s
  | a :: r => match f s a with Some s' => fold_opt f r s' | None => None end
  end.

(** Bytes of a Rocq string, as unsigned values. *)
Fixpoint bytes (s : string) : list Z :=
  match s with
  | EmptyString => []
  | String c r => Z.of_N (N_of_ascii c) :: bytes r
  end.

(** * Path encoding: [nih_dbus_path] *)
Module Path.

(** The result of a call: [NULL] when [nih_alloc] fails, the returned C
    string otherwise.  [PathOverrun] records a write outside the block
    that was allocated (undefined behaviour in C). *)
Inductive path_result :=
| PathNull
| PathOverrun
| PathOk (path : list Z).

(** The C string stored at the start of a block: the bytes before the
    first NUL. *)
Fixpoint c_string (buf : list Z) : list Z :=
  match buf with
  | [] => []
  | b :: r => if b =? 0 then [] else b :: c_string r
  end.

(** [path[i] = v], inside the allocated block only. *)
Definition store (buf : list Z) (i : nat) (v : Z) : option (list Z) :=
  if decide (i < length buf)%nat then Some (<[i:=v]> buf) else None.

Fixpoint store_bytes (buf : list Z) (i : nat) (bs : list Z) : option (list Z) :=
  match bs with
  | [] => Some buf
  | b :: r =>
      match store buf i b with
      | Some buf' => store_bytes buf' (S i) r
      | None => None
      end
  end.

(** The digit characters of [printf]'s [x] conversion. *)
Definition hex_digit (d : Z) : Z := if d <? 10 then 48 + d else 87 + d.

Fixpoint hex_digits (fuel : nat) (n : Z) : list Z :=
  match fuel with
  | O => []
  | S f => (if n <? 16 then [] else hex_digits f (n / 16)) ++ [hex_digit (n mod 16)]
  end.

(** [sprintf (dst, "%02x", v)]: [v] is an [int] (the promoted [char]) and
    is read as an [unsigned int] of 32 bits; at least two digits, padded
    with ['0']; the terminating NUL is written too. *)
Definition sprintf_02x (v : Z) : list Z :=
  let ds := hex_digits 8 (v mod 2 ^ 32) in
  replicate (2 - length ds) 48 ++ ds ++ [0].

(** The test of both passes on [*ptr], already promoted to [int]. *)
Definition is_alnum (c : Z) : bool :=
  ((97 <=? c) && (c <=? 122)) || ((65 <=? c) && (c <=? 90))
  || ((48 <=? c) && (c <=? 57)).

Section nih_dbus_path.

(** Whether plain [char] is signed is left to the C implementation (it is
    on x86, it is not on ARM). *)
Variable char_signed : bool.

(** [nih_alloc (parent, size)]: a block of [size] bytes of unspecified
    contents, or [NULL]. *)
Variable nih_alloc : nat -> option (list Z).
Hypothesis nih_alloc_size : forall n b, nih_alloc n = Some b -> length b = n.

(** The value of [*ptr] for the byte [b] (0..255) of a [const char *]. *)
Definition char_value (b : Z) : Z :=
  if char_signed && (128 <=? b) then b - 256 else b.

(** First pass: "work out how much space we'll need".  Lengths are
    [size_t]; the strings are in memory, so on an LP64 target the sum
    cannot wrap and is kept as a natural number. *)
Definition arg_len (len : nat) (arg : list Z) : nat :=
  fold_left (fun len b => if is_alnum (char_value b) then len + 1 else len + 3)%nat
            arg len.

Definition path_len (root : list Z) (args : list (list Z)) : nat :=
  fold_left (fun len arg => arg_len (len + 1) arg) args (length root).

(** Second pass: "copy the elements in".  The state is the block and the
    index [len]. *)
Definition copy_char (st : list Z * nat) (b : Z) : option (list Z * nat) :=
  let '(path, len) := st in
  if is_alnum (char_value b) then
    match store path len b with
    | Some path => Some (path, S len)
    | None => None
    end
  else
    match store path len 95 with
    | Some path =>
        match store_bytes path (S len) (sprintf_02x (char_value b)) with
        | Some path => Some (path, (S len + 2)%nat)
        | None => None
        end
    | None => None
    end.

Definition copy_arg (st : list Z * nat) (arg : list Z) : option (list Z * nat) :=
  let '(path, len) := st in
  match store path len 47 with
  | Some path => fold_opt copy_char arg (path, S len)
  | None => None
  end.

Definition nih_dbus_path (root : list Z) (args : list (list Z)) : path_result :=
  let len := path_len root args in
  match nih_alloc (len + 1) with
  | None => PathNull
  | Some path =>
      match store_bytes path 0 (root ++ [0]) with
      | Some path =>
          match fold_opt copy_arg args (path, length root) with
          | Some (path, len) =>
              match store path len 0 with
              | Some path => PathOk (c_string path)
              | None => PathOverrun
              end
          | None => PathOverrun
          end
      | None => PathOverrun
      end
  end.

End nih_dbus_path.

(** The encoding as the specification words it: alphanumerics pass, every
    other byte becomes ['_'] and its two lowercase hexadecimal digits. *)
Definition escape_byte (b : Z) : list Z :=
  if is_alnum b then [b] else [95; hex_digit (b / 16); hex_digit (b mod 16)].

Definition escape (arg : list Z) : list Z := flat_map escape_byte arg.

Definition joined (args : list (list Z)) : list Z :=
  flat_map (fun arg => 47 :: escape arg) args.

(** [^/[A-Za-z0-9_]+$] *)
Definition is_word (b : Z) : bool := is_alnum b || (b =? 95).

Definition matches_component_re (s : list Z) : bool :=
  match s with
  | 47 :: ((_ :: _) as t) => forallb is_word t
  | _ => false
  end.

(** A byte of a C string (never NUL) whose [char] value is not negative. *)
Definition plain (char_signed : bool) (b : Z) : Prop :=
  0 < b < (if char_signed then 128 else 256).

Definition c_byte (b : Z) : Prop := 0 < b < 256.

(** An allocator that never fails and hands out blocks filled with 0xaa,
    for the concrete runs below. *)
Definition alloc_filled (n : nat) : option (list Z) := Some (replicate n 170).

(** Invariant of the second pass: the block has [size] bytes and its
    first [len] bytes are [out]. *)
Definition written (st : list Z * nat) (out : list Z) (size : nat) : Prop :=
  length st.1 = size /\ st.2 = length out /\ take st.2 st.1 = out.

End Path.

(** ** The host loop's lists ([nih/list.c]) *)

(** Modelled from the spec: [nih_list_add] and [nih_list_remove] of
    [nih/list.c] are not among the sources.  The host loop contract has a
    handle "live in an active container, from which it may be removed and
    re-added without re-registration"; an entry is one intrusive node, so
    adding it (before the list head, that is at the tail) first takes it
    out of the place it was in, and removing an entry that is in no list
    does nothing. *)
Definition nih_list_remove (entry : nat) (l : list nat) : list nat :=
  filter (fun e => e <> entry) l.

Definition nih_list_add (entry : nat) (l : list nat) : list nat :=
  nih_list_remove entry l ++ [entry].

(** Number of times [entry] stands in a list. *)
Definition occurrences (entry : nat) (l : list nat) : nat :=
  length (filter (fun e => e = entry) l).

(** * Timeouts: [nih_dbus_add_timeout], [nih_dbus_timeout_toggled] *)
Module Timeout.

Definition INT_MAX : Z := 2147483647.

(** [NihTimer], the fields the bridge touches. *)
Record NihTimer := {
  period : Z;
  due : Z;
  timer_data : nat
}.

(** [DBusTimeout], as the accessors of the D-Bus library show it. *)
Record DBusTimeout := {
  interval : Z;
  timeout_enabled : bool;
  timeout_data : option nat
}.

Record loop := {
  timeouts : gmap nat DBusTimeout;
  timers : gmap nat NihTimer;
  nih_timers : list nat
}.

Definition empty_loop : loop :=
  {| timeouts := ∅; timers := ∅; nih_timers := [] |}.

(** [(interval - 1) / 1000 + 1] on [int]: the division truncates towards
    zero.  No step overflows unless [interval] is [INT_MIN]: above
    [INT_MIN] the value is the one of the C expression, at [INT_MIN] the
    subtraction overflows in C and the definition says nothing of the
    code.  An interval of the library is not negative, and the properties
    are stated for intervals from 0 to [INT_MAX]. *)
Definition timer_period (interval : Z) : Z := (interval - 1) `quot` 1000 + 1.

(** The ceiling of [a / b] over the rationals, for [b > 0]. *)
Definition ceil_div (a b : Z) : Z := - ((- a) `div` b).

(** Modelled from the spec: [nih_timer_add_periodic] of [nih/timer.c] is
    not among the sources.  The host loop contract: "register a periodic
    timer with a period in seconds and a due time; likewise
    removable/re-insertable"; the new timer is due one period from now and
    stands in the timer list; [NULL] on insufficient memory. *)
Definition nih_timer_add_periodic (mem_ok : bool) (now : Z) (p : Z) (data : nat)
  (lp : loop) : option nat * loop :=
  if mem_ok then
    let timer := fresh (dom (timers lp)) in
    (Some timer,
     {| timeouts := timeouts lp;
        timers := <[timer := {| period := p; due := now + p; timer_data := data |}]> (timers lp);
        nih_timers := nih_list_add timer (nih_timers lp) |})
  else (None, lp).

Definition set_timeout_data (timeout : nat) (data : option nat) (lp : loop) : loop :=
  {| timeouts := alter (fun dt => {| interval := interval dt;
                                     timeout_enabled := timeout_enabled dt;
                                     timeout_data := data |}) timeout (timeouts lp);
     timers := timers lp;
     nih_timers := nih_timers lp |}.

Definition set_nih_timers (l : list nat) (lp : loop) : loop :=
  {| timeouts := timeouts lp; timers := timers lp; nih_timers := l |}.

(** [nih_dbus_add_timeout]: [None] stands for a failed [nih_assert]. *)
Definition nih_dbus_add_timeout (mem_ok : bool) (now : Z) (timeout : nat) (lp : loop)
  : option (bool * loop) :=
  match timeouts lp !! timeout with
  | None => None
  | Some dt =>
      match timeout_data dt with
      | Some _ => None
      | None =>
          match nih_timer_add_periodic mem_ok now (timer_period (interval dt)) timeout lp with
          | (None, lp) => Some (false, lp)
          | (Some timer, lp) =>
              let lp := set_timeout_data timeout (Some timer) lp in
              let lp := if timeout_enabled dt then lp
                        else set_nih_timers (nih_list_remove timer (nih_timers lp)) lp in
              Some (true, lp)
          end
      end
  end.

(** [nih_dbus_remove_timeout]; setting the data to [NULL] has the D-Bus
    library call the free function, [nih_free], on the timer. *)
Definition nih_dbus_remove_timeout (timeout : nat) (lp : loop) : option loop :=
  match timeouts lp !! timeout with
  | None => None
  | Some dt =>
      match timeout_data dt with
      | None => None
      | Some timer =>
          let lp := set_nih_timers (nih_list_remove timer (nih_timers lp)) lp in
          let lp := set_timeout_data timeout None lp in
          Some {| timeouts := timeouts lp;
                  timers := delete timer (timers lp);
                  nih_timers := nih_timers lp |}
      end
  end.

(** [nih_dbus_timeout_toggled]; [now] is what [time (NULL)] returns. *)
Definition nih_dbus_timeout_toggled (now : Z) (timeout : nat) (lp : loop) : option loop :=
  match timeouts lp !! timeout with
  | None => None
  | Some dt =>
      match timeout_data dt with
      | None => None
      | Some timer =>
          match timers lp !! timer with
          | None => None
          | Some tm =>
              let l := if timeout_enabled dt then nih_list_add timer (nih_timers lp)
                       else nih_list_remove timer (nih_timers lp) in
              let p := timer_period (interval dt) in
              Some {| timeouts := timeouts lp;
                      timers := <[timer := {| period := p; due := now + p;
                                              timer_data := timer_data tm |}]> (timers lp);
                      nih_timers := l |}
          end
      end
  end.

(** What the D-Bus library does around the callbacks: it creates a timeout
    and calls "add"; it changes the interval or the enabled flag of a
    timeout and calls "toggled"; it calls "remove" and drops the timeout. *)
Inductive event :=
| LibAdd (timeout : nat) (ms : Z) (enabled mem_ok : bool)
| LibToggle (timeout : nat) (ms : Z) (enabled : bool)
| LibRemove (timeout : nat).

Definition step (now : Z) (lp : loop) (ev : event) : option loop :=
  match ev with
  | LibAdd timeout ms enabled mem_ok =>
      match timeouts lp !! timeout with
      | Some _ => None
      | None =>
          let dt := {| interval := ms; timeout_enabled := enabled; timeout_data := None |} in
          let lp := {| timeouts := <[timeout := dt]> (timeouts lp);
                       timers := timers lp; nih_timers := nih_timers lp |} in
          match nih_dbus_add_timeout mem_ok now timeout lp with
          | Some (true, lp) => Some lp
          | Some (false, lp) =>
              Some {| timeouts := delete timeout (timeouts lp);
                      timers := timers lp; nih_timers := nih_timers lp |}
          | None => None
          end
      end
  | LibToggle timeout ms enabled =>
      match timeouts lp !! timeout with
      | None => None
      | Some dt =>
          let dt := {| interval := ms; timeout_enabled := enabled;
                       timeout_data := timeout_data dt |} in
          nih_dbus_timeout_toggled now timeout
            {| timeouts := <[timeout := dt]> (timeouts lp);
               timers := timers lp; nih_timers := nih_timers lp |}
      end
  | LibRemove timeout =>
      match nih_dbus_remove_timeout timeout lp with
      | Some lp => Some {| timeouts := delete timeout (timeouts lp);
                           timers := timers lp; nih_timers := nih_timers lp |}
      | None => None
      end
  end.

(** The host timer paired with a timeout. *)
Definition timer_of (lp : loop) (timeout : nat) : option NihTimer :=
  match timeouts lp !! timeout with
  | Some dt =>
      match timeout_data dt with
      | Some timer => timers lp !! timer
      | None => None
      end
  | None => None
  end.

End Timeout.

(** * Watches: [nih_dbus_add_watch], [nih_dbus_watch_toggled] *)
Module Watch.

(** [DBusWatchFlags] of [dbus/dbus-connection.h] and [NihIoEvents] of
    [nih/io.h]. *)
Definition DBUS_WATCH_READABLE : Z := 1.
Definition DBUS_WATCH_WRITABLE : Z := 2.
Definition DBUS_WATCH_ERROR : Z := 4.
Definition NIH_IO_READ : Z := 1.
Definition NIH_IO_WRITE : Z := 2.
Definition NIH_IO_EXCEPT : Z := 4.

(** [NihIoWatch], the fields the bridge sets. *)
Record NihIoWatch := {
  io_fd : Z;
  io_events : Z;
  io_data : nat
}.

(** [DBusWatch], as the accessors of the D-Bus library show it. *)
Record DBusWatch := {
  watch_fd : Z;
  watch_flags : Z;
  watch_enabled : bool;
  watch_data : option nat
}.

(** The D-Bus watches, the [NihIoWatch] structures that are allocated,
    and [nih_io_watches], the active list of the host loop. *)
Record loop := {
  watches : gmap nat DBusWatch;
  io_watches : gmap nat NihIoWatch;
  nih_io_watches : list nat
}.

Definition empty_loop : loop :=
  {| watches := ∅; io_watches := ∅; nih_io_watches := [] |}.

(** The events the add callback asks for. *)
Definition events_of_flags (flags : Z) : Z :=
  let events := NIH_IO_EXCEPT in
  let events := if Z.land flags DBUS_WATCH_READABLE =? 0 then events
                else Z.lor events NIH_IO_READ in
  let events := if Z.land flags DBUS_WATCH_WRITABLE =? 0 then events
                else Z.lor events NIH_IO_WRITE in
  events.

(** The flags [nih_dbus_watcher] hands to [dbus_watch_handle]. *)
Definition flags_of_events (events : Z) : Z :=
  let flags := 0 in
  let flags := if Z.land events NIH_IO_READ =? 0 then flags
               else Z.lor flags DBUS_WATCH_READABLE in
  let flags := if Z.land events NIH_IO_WRITE =? 0 then flags
               else Z.lor flags DBUS_WATCH_WRITABLE in
  let flags := if Z.land events NIH_IO_EXCEPT =? 0 then flags
               else Z.lor flags DBUS_WATCH_ERROR in
  flags.

(** Modelled from the spec: [nih_io_add_watch] of [nih/io.c] is not among
    the sources.  The host loop contract: "register an I/O watch on (fd,
    events); yields a handle that lives in an active watches container,
    from which it may be removed and re-added without re-registration";
    [NULL] on insufficient memory. *)
Definition nih_io_add_watch (mem_ok : bool) (fd events : Z) (data : nat) (lp : loop)
  : option nat * loop :=
  if mem_ok then
    let io_watch := fresh (dom (io_watches lp)) in
    (Some io_watch,
     {| watches := watches lp;
        io_watches := <[io_watch := {| io_fd := fd; io_events := events;
                                       io_data := data |}]> (io_watches lp);
        nih_io_watches := nih_list_add io_watch (nih_io_watches lp) |})
  else (None, lp).

Definition set_watch_data (watch : nat) (data : option nat) (lp : loop) : loop :=
  {| watches := alter (fun dw => {| watch_fd := watch_fd dw;
                                    watch_flags := watch_flags dw;
                                    watch_enabled := watch_enabled dw;
                                    watch_data := data |}) watch (watches lp);
     io_watches := io_watches lp;
     nih_io_watches := nih_io_watches lp |}.

Definition set_nih_io_watches (l : list nat) (lp : loop) : loop :=
  {| watches := watches lp; io_watches := io_watches lp; nih_io_watches := l |}.

(** [nih_dbus_add_watch]: [None] stands for a failed [nih_assert]. *)
Definition nih_dbus_add_watch (mem_ok : bool) (watch : nat) (lp : loop)
  : option (bool * loop) :=
  match watches lp !! watch with
  | None => None
  | Some dw =>
      match watch_data dw with
      | Some _ => None
      | None =>
          if watch_fd dw <? 0 then None
          else
            match nih_io_add_watch mem_ok (watch_fd dw)
                    (events_of_flags (watch_flags dw)) watch lp with
            | (None, lp) => Some (false, lp)
            | (Some io_watch, lp) =>
                let lp := set_watch_data watch (Some io_watch) lp in
                let lp := if watch_enabled dw then lp
                          else set_nih_io_watches
                                 (nih_list_remove io_watch (nih_io_watches lp)) lp in
                Some (true, lp)
            end
      end
  end.

(** [nih_dbus_remove_watch]; setting the data to [NULL] has the D-Bus
    library call the free function, [nih_free], on the I/O watch. *)
Definition nih_dbus_remove_watch (watch : nat) (lp : loop) : option loop :=
  match watches lp !! watch with
  | None => None
  | Some dw =>
      match watch_data dw with
      | None => None
      | Some io_watch =>
          let lp := set_nih_io_watches (nih_list_remove io_watch (nih_io_watches lp)) lp in
          let lp := set_watch_data watch None lp in
          Some {| watches := watches lp;
                  io_watches := delete io_watch (io_watches lp);
                  nih_io_watches := nih_io_watches lp |}
      end
  end.

(** [nih_dbus_watch_toggled] *)
Definition nih_dbus_watch_toggled (watch : nat) (lp : loop) : option loop :=
  match watches lp !! watch with
  | None => None
  | Some dw =>
      match watch_data dw with
      | None => None
      | Some io_watch =>
          if watch_enabled dw then
            Some (set_nih_io_watches (nih_list_add io_watch (nih_io_watches lp)) lp)
          else
            Some (set_nih_io_watches (nih_list_remove io_watch (nih_io_watches lp)) lp)
      end
  end.

(** What the D-Bus library does around the callbacks: it creates a watch
    and calls "add" (a watch whose "add" fails is dropped); it sets the
    enabled flag of a watch and calls "toggled"; it calls "remove" and
    drops the watch. *)
Inductive event :=
| LibAdd (watch : nat) (fd flags : Z) (enabled mem_ok : bool)
| LibToggle (watch : nat) (enabled : bool)
| LibRemove (watch : nat).

Definition set_enabled (watch : nat) (enabled : bool) (lp : loop) : loop :=
  {| watches := alter (fun dw => {| watch_fd := watch_fd dw;
                                    watch_flags := watch_flags dw;
                                    watch_enabled := enabled;
                                    watch_data := watch_data dw |}) watch (watches lp);
     io_watches := io_watches lp;
     nih_io_watches := nih_io_watches lp |}.

Definition drop_watch (watch : nat) (lp : loop) : loop :=
  {| watches := delete watch (watches lp);
     io_watches := io_watches lp;
     nih_io_watches := nih_io_watches lp |}.

Definition step (lp : loop) (ev : event) : option loop :=
  match ev with
  | LibAdd watch fd flags enabled mem_ok =>
      match watches lp !! watch with
      | Some _ => None
      | None =>
          let dw := {| watch_fd := fd; watch_flags := flags;
                       watch_enabled := enabled; watch_data := None |} in
          let lp := {| watches := <[watch := dw]> (watches lp);
                       io_watches := io_watches lp;
                       nih_io_watches := nih_io_watches lp |} in
          match nih_dbus_add_watch mem_ok watch lp with
          | Some (true, lp) => Some lp
          | Some (false, lp) => Some (drop_watch watch lp)
          | None => None
          end
      end
  | LibToggle watch enabled => nih_dbus_watch_toggled watch (set_enabled watch enabled lp)
  | LibRemove watch =>
      match nih_dbus_remove_watch watch lp with
      | Some lp => Some (drop_watch watch lp)
      | None => None
      end
  end.

Definition run (evs : list event) (lp : loop) : option loop := fold_opt step evs lp.

(** The state the bridge keeps: the active list names each allocated I/O
    watch at most once; a D-Bus watch that has been added owns an
    allocated I/O watch, which no other watch owns, and which stands in
    the active list exactly when the watch is enabled. *)
Record consistent (lp : loop) : Prop := {
  active_nodup : NoDup (nih_io_watches lp);
  active_allocated : forall io, io ∈ nih_io_watches lp -> is_Some (io_watches lp !! io);
  data_allocated : forall w dw io,
      watches lp !! w = Some dw -> watch_data dw = Some io ->
      is_Some (io_watches lp !! io);
  data_active : forall w dw io,
      watches lp !! w = Some dw -> watch_data dw = Some io ->
      (io ∈ nih_io_watches lp <-> watch_enabled dw = true);
  data_owner : forall w1 w2 dw1 dw2 io,
      watches lp !! w1 = Some dw1 -> watch_data dw1 = Some io ->
      watches lp !! w2 = Some dw2 -> watch_data dw2 = Some io -> w1 = w2
}.

(** The host watches in the active list whose callback data is the
    D-Bus watch [w]. *)
Definition host_watches_of (lp : loop) (w : nat) : list nat :=
  filter (fun io => io_data <$> io_watches lp !! io = Some w) (nih_io_watches lp).

(** The pairing the bridge keeps, beyond [consistent]: every D-Bus watch
    the loop knows has been through "add" and owns a host watch made for
    it, on its file descriptor, for the events of its flags and with the
    watch as callback data; and the loop holds no host watch besides
    these, its host watches being the ones this file makes. *)
Record paired (lp : loop) : Prop := {
  paired_consistent : consistent lp;
  paired_watch : forall w dw,
      watches lp !! w = Some dw ->
      exists io iw, watch_data dw = Some io /\ io_watches lp !! io = Some iw
        /\ io_data iw = w /\ io_fd iw = watch_fd dw
        /\ io_events iw = events_of_flags (watch_flags dw);
  paired_owned : forall io iw,
      io_watches lp !! io = Some iw ->
      exists dw, watches lp !! io_data iw = Some dw /\ watch_data dw = Some io
}.

End Watch.

(** * The D-Bus library, as far as the bindings use it *)
Module DBus.

(** [DBusHandlerResult] *)
Inductive DBusHandlerResult :=
| DBUS_HANDLER_RESULT_HANDLED
| DBUS_HANDLER_RESULT_NOT_YET_HANDLED
| DBUS_HANDLER_RESULT_NEED_MEMORY.

(** The message types of the protocol. *)
Inductive message_type :=
| DBUS_MESSAGE_TYPE_METHOD_CALL
| DBUS_MESSAGE_TYPE_METHOD_RETURN
| DBUS_MESSAGE_TYPE_ERROR
| DBUS_MESSAGE_TYPE_SIGNAL.

(** The header fields of a [DBusMessage] the bindings look at; a field
    may be absent. *)
Record DBusMessage := {
  msg_type : message_type;
  msg_path : option string;
  msg_interface : option string;
  msg_member : option string
}.

(** Names of [dbus/dbus-shared.h]. *)
Definition DBUS_INTERFACE_LOCAL : string := "org.freedesktop.DBus.Local".
Definition DBUS_PATH_LOCAL : string := "/org/freedesktop/DBus/Local".
Definition DBUS_INTERFACE_INTROSPECTABLE : string := "org.freedesktop.DBus.Introspectable".
Definition DBUS_INTERFACE_PROPERTIES : string := "org.freedesktop.DBus.Properties".

Definition message_type_eqb (a b : message_type) : bool :=
  match a, b with
  | DBUS_MESSAGE_TYPE_METHOD_CALL, DBUS_MESSAGE_TYPE_METHOD_CALL
  | DBUS_MESSAGE_TYPE_METHOD_RETURN, DBUS_MESSAGE_TYPE_METHOD_RETURN
  | DBUS_MESSAGE_TYPE_ERROR, DBUS_MESSAGE_TYPE_ERROR
  | DBUS_MESSAGE_TYPE_SIGNAL, DBUS_MESSAGE_TYPE_SIGNAL => true
  | _, _ => false
  end.

(** The test behind [dbus_message_is_method_call] and
    [dbus_message_is_signal], as the library documents it: the type and
    the member must match, and the interface must match unless the message
    has none ("if the interface field is missing, then it will be assumed
    equal to the provided interface"). *)
Definition has_type_interface_member
  (message : DBusMessage) (ty : message_type) (iface member : string) : bool :=
  message_type_eqb (msg_type message) ty
  && match msg_member message with
     | Some n => String.eqb n member
     | None => false
     end
  && match msg_interface message with
     | Some n => String.eqb n iface
     | None => true
     end.

Definition dbus_message_is_method_call (message : DBusMessage) (iface method : string) : bool :=
  has_type_interface_member message DBUS_MESSAGE_TYPE_METHOD_CALL iface method.

Definition dbus_message_is_signal (message : DBusMessage) (iface name : string) : bool :=
  has_type_interface_member message DBUS_MESSAGE_TYPE_SIGNAL iface name.

Definition dbus_message_has_path (message : DBusMessage) (path : string) : bool :=
  match msg_path message with
  | Some p => String.eqb p path
  | None => false
  end.

End DBus.

(** * Connection setup and the disconnect filter *)
Module Conn.
Import DBus.

(** A [DBusConnection]: its reference count, the data stored in
    [main_loop_slot], how many times each set of functions was installed,
    and the disconnect handler (a function pointer, possibly [NULL]) of
    each filter, in the order the filters were added. *)
Record DBusConnection := {
  refcount : Z;
  main_loop_data : option nat;
  watch_functions : nat;
  timeout_functions : nat;
  wakeup_main_function : nat;
  filters : list (option nat)
}.

(** What a call leaves behind, in order. *)
Inductive effect :=
| Handler (handler : nat)
| Unref.

#[global] Instance effect_eq_dec : EqDecision effect.
Proof. solve_decision. Defined.

Record world := {
  conn : DBusConnection;
  main_loop_funcs : list nat;
  slot_refs : nat;
  trace : list effect
}.

(** The outcome of each call of [nih_dbus_setup] that can run out of
    memory. *)
Record setup_mem := {
  slot_ok : bool;
  loop_ok : bool;
  data_ok : bool;
  watch_ok : bool;
  timeout_ok : bool;
  filter_ok : bool
}.

Definition all_ok : setup_mem :=
  {| slot_ok := true; loop_ok := true; data_ok := true;
     watch_ok := true; timeout_ok := true; filter_ok := true |}.

Definition with_conn (c : DBusConnection) (w : world) : world :=
  {| conn := c; main_loop_funcs := main_loop_funcs w;
     slot_refs := slot_refs w; trace := trace w |}.

(** [dbus_connection_allocate_data_slot (&main_loop_slot)] *)
Definition allocate_data_slot (w : world) : world :=
  {| conn := conn w; main_loop_funcs := main_loop_funcs w;
     slot_refs := S (slot_refs w); trace := trace w |}.

(** [nih_main_loop_add_func]: the new function joins the loop's list. *)
Definition nih_main_loop_add_func (w : world) : nat * world :=
  let loop := fresh (main_loop_funcs w) in
  (loop, {| conn := conn w; main_loop_funcs := main_loop_funcs w ++ [loop];
            slot_refs := slot_refs w; trace := trace w |}).

(** [nih_free (loop)] *)
Definition free_main_loop_func (loop : nat) (w : world) : world :=
  {| conn := conn w; main_loop_funcs := filter (fun f => f <> loop) (main_loop_funcs w);
     slot_refs := slot_refs w; trace := trace w |}.

Definition set_data (loop : nat) (c : DBusConnection) : DBusConnection :=
  {| refcount := refcount c; main_loop_data := Some loop;
     watch_functions := watch_functions c; timeout_functions := timeout_functions c;
     wakeup_main_function := wakeup_main_function c; filters := filters c |}.

Definition set_watch_functions (c : DBusConnection) : DBusConnection :=
  {| refcount := refcount c; main_loop_data := main_loop_data c;
     watch_functions := S (watch_functions c); timeout_functions := timeout_functions c;
     wakeup_main_function := wakeup_main_function c; filters := filters c |}.

Definition set_timeout_functions (c : DBusConnection) : DBusConnection :=
  {| refcount := refcount c; main_loop_data := main_loop_data c;
     watch_functions := watch_functions c; timeout_functions := S (timeout_functions c);
     wakeup_main_function := wakeup_main_function c; filters := filters c |}.

Definition set_wakeup_main_function (c : DBusConnection) : DBusConnection :=
  {| refcount := refcount c; main_loop_data := main_loop_data c;
     watch_functions := watch_functions c; timeout_functions := timeout_functions c;
     wakeup_main_function := S (wakeup_main_function c); filters := filters c |}.

(** [dbus_connection_add_filter]: filters are kept in the order added. *)
Definition add_filter (handler : option nat) (c : DBusConnection) : DBusConnection :=
  {| refcount := refcount c; main_loop_data := main_loop_data c;
     watch_functions := watch_functions c; timeout_functions := timeout_functions c;
     wakeup_main_function := wakeup_main_function c; filters := filters c ++ [handler] |}.

(** [dbus_connection_unref] *)
Definition dbus_connection_unref (w : world) : world :=
  let c := conn w in
  {| conn := {| refcount := refcount c - 1; main_loop_data := main_loop_data c;
                watch_functions := watch_functions c;
                timeout_functions := timeout_functions c;
                wakeup_main_function := wakeup_main_function c; filters := filters c |};
     main_loop_funcs := main_loop_funcs w; slot_refs := slot_refs w;
     trace := trace w ++ [Unref] |}.

(** A call of the user's disconnect handler; what the handler does is the
    user's, the call is recorded. *)
Definition call_handler (handler : nat) (w : world) : world :=
  {| conn := conn w; main_loop_funcs := main_loop_funcs w; slot_refs := slot_refs w;
     trace := trace w ++ [Handler handler] |}.

(** The part of [nih_dbus_setup] that runs when the slot holds no data:
    whether it got to the end, and the state it leaves. *)
Definition setup_first (mem : setup_mem) (w : world) : bool * world :=
  if negb (loop_ok mem) then (false, w)
  else
    let '(loop, w) := nih_main_loop_add_func w in
    if negb (data_ok mem) then (false, free_main_loop_func loop w)
    else
      let w := with_conn (set_data loop (conn w)) w in
      if negb (watch_ok mem) then (false, w)
      else
        let w := with_conn (set_watch_functions (conn w)) w in
        if negb (timeout_ok mem) then (false, w)
        else
          let w := with_conn (set_timeout_functions (conn w)) w in
          (true, with_conn (set_wakeup_main_function (conn w)) w).

(** The part after the label [shared]. *)
Definition setup_shared (mem : setup_mem) (handler : option nat) (w : world)
  : Z * world :=
  if negb (filter_ok mem) then (-1, w)
  else (0, with_conn (add_filter handler (conn w)) w).

(** [nih_dbus_setup]: zero on success, a negative value on insufficient
    memory. *)
Definition nih_dbus_setup (mem : setup_mem) (handler : option nat) (w : world)
  : Z * world :=
  if negb (slot_ok mem) then (-1, w)
  else
    let w := allocate_data_slot w in
    match main_loop_data (conn w) with
    | Some _ => setup_shared mem handler w
    | None =>
        match setup_first mem w with
        | (true, w) => setup_shared mem handler w
        | (false, w) => (-1, w)
        end
    end.

(** Whether a message is the signal the filter waits for. *)
Definition is_disconnected (message : DBusMessage) : bool :=
  dbus_message_is_signal message DBUS_INTERFACE_LOCAL "Disconnected"
  && dbus_message_has_path message DBUS_PATH_LOCAL.

(** [nih_dbus_connection_disconnected] *)
Definition nih_dbus_connection_disconnected
  (message : DBusMessage) (handler : option nat) (w : world)
  : DBusHandlerResult * world :=
  if negb (dbus_message_is_signal message DBUS_INTERFACE_LOCAL "Disconnected") then
    (DBUS_HANDLER_RESULT_NOT_YET_HANDLED, w)
  else if negb (dbus_message_has_path message DBUS_PATH_LOCAL) then
    (DBUS_HANDLER_RESULT_NOT_YET_HANDLED, w)
  else
    let w := match handler with
             | Some h => call_handler h w
             | None => w
             end in
    let w := dbus_connection_unref w in
    (DBUS_HANDLER_RESULT_NOT_YET_HANDLED, w).

(** The D-Bus library hands a message to the filters of the connection in
    the order they were added, until one of them returns something other
    than "not yet handled". *)
Fixpoint run_filters (message : DBusMessage) (fs : list (option nat)) (w : world)
  : DBusHandlerResult * world :=
  match fs with
  | [] => (DBUS_HANDLER_RESULT_NOT_YET_HANDLED, w)
  | handler :: fs =>
      match nih_dbus_connection_disconnected message handler w with
      | (DBUS_HANDLER_RESULT_NOT_YET_HANDLED, w) => run_filters message fs w
      | r => r
      end
  end.

Definition dispatch (message : DBusMessage) (w : world) : DBusHandlerResult * world :=
  run_filters message (filters (conn w)) w.

(** The signal the library sends itself when the connection drops. *)
Definition disconnected_signal : DBusMessage :=
  {| msg_type := DBUS_MESSAGE_TYPE_SIGNAL;
     msg_path := Some DBUS_PATH_LOCAL;
     msg_interface := Some DBUS_INTERFACE_LOCAL;
     msg_member := Some "Disconnected" |}.

(** [nih_dbus_setup] called once per handler of [hs], every call
    returning zero; [None] as soon as a call fails. *)
Definition setup_each (hs : list (setup_mem * option nat)) (w : world) : option world :=
  fold_opt (fun w '(mem, handler) =>
              match nih_dbus_setup mem handler w with
              | (0, w) => Some w
              | _ => None
              end) hs w.

(** A connection nobody has set up, with [refs] references. *)
Definition fresh_world (refs : Z) : world :=
  {| conn := {| refcount := refs; main_loop_data := None; watch_functions := 0;
                timeout_functions := 0; wakeup_main_function := 0; filters := [] |};
     main_loop_funcs := []; slot_refs := 0; trace := [] |}.

End Conn.

(** * Object teardown: [nih_dbus_object_destroy], [nih_dbus_object_unregister] *)
Module Object.

(** [NihDBusObject], the fields teardown reads. *)
Record NihDBusObject := {
  obj_conn : nat;
  obj_path : string;
  registered : bool
}.

(** Calls that leave the bindings, in order. *)
Inductive effect :=
| UnregisterPath (conn : nat) (path : string)
| Free (object : nat).

(** The objects that are allocated, the object paths the D-Bus library
    has in its tree (each with the user data given at registration, the
    object), and the calls made so far. *)
Record world := {
  objects : gmap nat NihDBusObject;
  paths : gmap (nat * string) nat;
  trace : list effect
}.

Definition log (e : effect) (w : world) : world :=
  {| objects := objects w; paths := paths w; trace := trace w ++ [e] |}.

(** [object->registered = FALSE] *)
Definition clear_registered (object : nat) (w : world) : world :=
  {| objects := alter (fun obj => {| obj_conn := obj_conn obj; obj_path := obj_path obj;
                                     registered := false |}) object (objects w);
     paths := paths w;
     trace := trace w |}.

(** [dbus_connection_unregister_object_path]: the library takes the path
    out of its tree and calls the unregister function of the vtable with
    the user data; it does nothing when it runs out of memory (the result
    is not looked at by the caller) or when the path is not registered. *)
Definition dbus_connection_unregister_object_path
  (unregister_function : nat -> nat -> world -> option world)
  (mem_ok : bool) (conn : nat) (path : string) (w : world) : option world :=
  let w := log (UnregisterPath conn path) w in
  if mem_ok then
    match paths w !! (conn, path) with
    | Some object =>
        unregister_function conn object
          {| objects := objects w; paths := delete (conn, path) (paths w);
             trace := trace w |}
    | None => Some w
    end
  else Some w.

(** [nih_free]: the destructor runs, then the block is released.  [None]
    stands for the release of a block that is not allocated. *)
Definition nih_free (destructor : nat -> world -> option world) (object : nat) (w : world)
  : option world :=
  match objects w !! object with
  | None => None
  | Some _ =>
      match destructor object w with
      | Some w =>
          match objects w !! object with
          | None => None
          | Some _ =>
              Some (log (Free object)
                      {| objects := delete object (objects w); paths := paths w;
                         trace := trace w |})
          end
      | None => None
      end
  end.

(** The destructor and the unregister function call each other through
    the library and through [nih_free]; [fuel] bounds the depth of the
    calls, and [None] also stands for a failed [nih_assert].  The
    destructor always returns zero, which is left out. *)
Fixpoint nih_dbus_object_destroy (fuel : nat) (mem_ok : bool) (object : nat) (w : world)
  : option world :=
  match fuel with
  | O => None
  | S fuel =>
      match objects w !! object with
      | None => None
      | Some obj =>
          if registered obj then
            let w := clear_registered object w in
            dbus_connection_unregister_object_path
              (nih_dbus_object_unregister fuel mem_ok) mem_ok
              (obj_conn obj) (obj_path obj) w
          else Some w
      end
  end
with nih_dbus_object_unregister (fuel : nat) (mem_ok : bool) (conn object : nat) (w : world)
  : option world :=
  match fuel with
  | O => None
  | S fuel =>
      match objects w !! object with
      | None => None
      | Some obj =>
          if negb (obj_conn obj =? conn)%nat then None
          else if registered obj then
            let w := clear_registered object w in
            nih_free (nih_dbus_object_destroy fuel mem_ok) object w
          else Some w
      end
  end.

(** The owner releases the object. *)
Definition release (fuel : nat) (mem_ok : bool) (object : nat) (w : world) : option world :=
  nih_free (nih_dbus_object_destroy fuel mem_ok) object w.

(** The library drops a path of its own accord (the connection goes
    away): it takes the path out of the tree and calls the unregister
    function. *)
Definition library_drops (fuel : nat) (conn : nat) (path : string) (w : world)
  : option world :=
  match paths w !! (conn, path) with
  | Some object =>
      nih_dbus_object_unregister fuel true conn object
        {| objects := objects w; paths := delete (conn, path) (paths w);
           trace := trace w |}
  | None => Some w
  end.

End Object.

(** * Dispatch and introspection: [nih_dbus_object_message],
      [nih_dbus_object_introspect] *)
Module Dispatch.
Import DBus.

(** The interface tables of [nih/dbus.h].  A NULL-terminated array is a
    list; the loops of the code treat a [NULL] array as an empty one. *)
Inductive NihDBusArgDir := NIH_DBUS_ARG_IN | NIH_DBUS_ARG_OUT.

Inductive NihDBusAccess := NIH_DBUS_READ | NIH_DBUS_WRITE | NIH_DBUS_READWRITE.

Record NihDBusArg := {
  arg_name : string;
  arg_type : string;
  arg_dir : NihDBusArgDir
}.

(** [marshaller] names the marshaller function of the method. *)
Record NihDBusMethod := {
  method_name : string;
  method_args : list NihDBusArg;
  marshaller : nat
}.

Record NihDBusSignal := {
  signal_name : string;
  signal_args : list NihDBusArg
}.

Record NihDBusProperty := {
  property_name : string;
  property_type : string;
  property_access : NihDBusAccess
}.

Record NihDBusInterface := {
  interface_name : string;
  methods : list NihDBusMethod;
  signals : list NihDBusSignal;
  properties : list NihDBusProperty
}.

Record NihDBusObject := {
  object_path : string;
  interfaces : list NihDBusInterface
}.

(** What the handlers act on: [mem n] tells whether the [n]-th allocation
    succeeds and [allocs] counts the allocations asked for so far;
    [nih_blocks] and [dbus_blocks] count the blocks of [nih_alloc] and the
    D-Bus allocations (string arrays, message references) the handlers
    hold; [message_refs] is the reference count of the message being
    handled; [outgoing] holds the XML of the replies queued for the peer;
    [calls] the marshallers called. *)
Record world := {
  mem : nat -> bool;
  allocs : nat;
  nih_blocks : nat;
  dbus_blocks : nat;
  message_refs : Z;
  outgoing : list string;
  calls : list nat
}.

Definition alloc (w : world) : bool * world :=
  (mem w (allocs w),
   {| mem := mem w; allocs := S (allocs w); nih_blocks := nih_blocks w;
      dbus_blocks := dbus_blocks w; message_refs := message_refs w;
      outgoing := outgoing w; calls := calls w |}).

(** The world after [k] more allocations were asked for. *)
Definition bump (k : nat) (w : world) : world :=
  {| mem := mem w; allocs := allocs w + k; nih_blocks := nih_blocks w;
     dbus_blocks := dbus_blocks w; message_refs := message_refs w;
     outgoing := outgoing w; calls := calls w |}.

Definition set_nih_blocks (n : nat) (w : world) : world :=
  {| mem := mem w; allocs := allocs w; nih_blocks := n;
     dbus_blocks := dbus_blocks w; message_refs := message_refs w;
     outgoing := outgoing w; calls := calls w |}.

Definition set_dbus_blocks (n : nat) (w : world) : world :=
  {| mem := mem w; allocs := allocs w; nih_blocks := nih_blocks w;
     dbus_blocks := n; message_refs := message_refs w;
     outgoing := outgoing w; calls := calls w |}.

Definition set_message_refs (n : Z) (w : world) : world :=
  {| mem := mem w; allocs := allocs w; nih_blocks := nih_blocks w;
     dbus_blocks := dbus_blocks w; message_refs := n;
     outgoing := outgoing w; calls := calls w |}.

Definition queue (xml : string) (w : world) : world :=
  {| mem := mem w; allocs := allocs w; nih_blocks := nih_blocks w;
     dbus_blocks := dbus_blocks w; message_refs := message_refs w;
     outgoing := outgoing w ++ [xml]; calls := calls w |}.

(** ** The text of the introspection document *)

Definition dq : string := String (ascii_of_nat 34) EmptyString.
Definition nl : string := String (ascii_of_nat 10) EmptyString.

(** [DBUS_INTROSPECT_1_0_XML_DOCTYPE_DECL_NODE] of [dbus/dbus-protocol.h] *)
Definition DBUS_INTROSPECT_1_0_XML_DOCTYPE_DECL_NODE : string :=
  "<!DOCTYPE node PUBLIC " +:+ dq
  +:+ "-//freedesktop//DTD D-BUS Object Introspection 1.0//EN" +:+ dq +:+ nl
  +:+ dq +:+ "http://www.freedesktop.org/standards/dbus/1.0/introspect.dtd" +:+ dq
  +:+ ">" +:+ nl.

(** The strings the calls of [nih_strcat_sprintf] and [nih_strcat] append,
    in the order of the code. *)
Definition node_open (path : string) : string :=
  "<node name=" +:+ dq +:+ path +:+ dq +:+ ">" +:+ nl.

Definition introspectable_xml : string :=
  "  <interface name=" +:+ dq +:+ DBUS_INTERFACE_INTROSPECTABLE +:+ dq +:+ ">" +:+ nl
  +:+ "    <method name=" +:+ dq +:+ "Introspect" +:+ dq +:+ ">" +:+ nl
  +:+ "      <arg name=" +:+ dq +:+ "data" +:+ dq +:+ " type=" +:+ dq +:+ "s" +:+ dq
  +:+ " direction=" +:+ dq +:+ "out" +:+ dq +:+ "/>" +:+ nl
  +:+ "    </method>" +:+ nl
  +:+ "  </interface>" +:+ nl.

Definition interface_open (name : string) : string :=
  "  <interface name=" +:+ dq +:+ name +:+ dq +:+ ">" +:+ nl.

Definition interface_close : string := "  </interface>" +:+ nl.

Definition method_open (name : string) : string :=
  "    <method name=" +:+ dq +:+ name +:+ dq +:+ ">" +:+ nl.

Definition method_close : string := "    </method>" +:+ nl.

Definition method_arg_xml (arg : NihDBusArg) : string :=
  "      <arg name=" +:+ dq +:+ arg_name arg +:+ dq
  +:+ " type=" +:+ dq +:+ arg_type arg +:+ dq
  +:+ " direction=" +:+ dq
  +:+ match arg_dir arg with NIH_DBUS_ARG_IN => "in" | NIH_DBUS_ARG_OUT => "out" end
  +:+ dq +:+ "/>" +:+ nl.

Definition signal_open (name : string) : string :=
  "    <signal name=" +:+ dq +:+ name +:+ dq +:+ ">" +:+ nl.

Definition signal_close : string := "    </signal>" +:+ nl.

Definition signal_arg_xml (arg : NihDBusArg) : string :=
  "      <arg name=" +:+ dq +:+ arg_name arg +:+ dq
  +:+ " type=" +:+ dq +:+ arg_type arg +:+ dq +:+ "/>" +:+ nl.

Definition property_xml (property : NihDBusProperty) : string :=
  "    <property name=" +:+ dq +:+ property_name property +:+ dq
  +:+ " type=" +:+ dq +:+ property_type property +:+ dq
  +:+ " access=" +:+ dq
  +:+ match property_access property with
      | NIH_DBUS_READ => "read"
      | NIH_DBUS_WRITE => "write"
      | NIH_DBUS_READWRITE => "readwrite"
      end
  +:+ dq +:+ "/>" +:+ nl.

Definition in_arg (name type : string) : NihDBusArg :=
  {| arg_name := name; arg_type := type; arg_dir := NIH_DBUS_ARG_IN |}.

Definition out_arg (name type : string) : NihDBusArg :=
  {| arg_name := name; arg_type := type; arg_dir := NIH_DBUS_ARG_OUT |}.

Definition properties_xml : string :=
  interface_open DBUS_INTERFACE_PROPERTIES
  +:+ method_open "Get"
  +:+ method_arg_xml (in_arg "interface_name" "s")
  +:+ method_arg_xml (in_arg "property_name" "s")
  +:+ method_arg_xml (out_arg "value" "v")
  +:+ method_close
  +:+ method_open "Set"
  +:+ method_arg_xml (in_arg "interface_name" "s")
  +:+ method_arg_xml (in_arg "property_name" "s")
  +:+ method_arg_xml (in_arg "value" "v")
  +:+ method_close
  +:+ method_open "GetAll"
  +:+ method_arg_xml (in_arg "interface_name" "s")
  +:+ method_arg_xml (out_arg "props" "a{sv}")
  +:+ method_close
  +:+ interface_close.

Definition child_xml (child : string) : string :=
  "  <node name=" +:+ dq +:+ child +:+ dq +:+ "/>" +:+ nl.

Definition node_close : string := "</node>" +:+ nl.

(** ** [nih_dbus_object_introspect] *)

(** The local variables of the handler. *)
Record locals := {
  xml : option string;
  children : option (list string);
  reply : option string;
  have_props : bool
}.

(** A piece of the handler: it runs on the locals and the world, and
    either goes on with a value or jumps to the label [error]. *)
Definition M (A : Type) : Type := locals * world -> option A * (locals * world).

Definition ret {A : Type} (a : A) : M A := fun s => (Some a, s).

Definition bind {A B : Type} (m : M A) (k : A -> M B) : M B :=
  fun s => match m s with
           | (Some a, s) => k a s
           | (None, s) => (None, s)
           end.

Definition seq {B : Type} (m : M unit) (k : M B) : M B := bind m (fun _ => k).

Fixpoint for_each {A : Type} (l : list A) (body : A -> M unit) : M unit :=
  match l with
  | [] => ret tt
  | a :: r => seq (body a) (for_each r body)
  end.

Definition set_xml (x : option string) (l : locals) : locals :=
  {| xml := x; children := children l; reply := reply l; have_props := have_props l |}.

Definition set_children (c : option (list string)) (l : locals) : locals :=
  {| xml := xml l; children := c; reply := reply l; have_props := have_props l |}.

Definition set_reply (r : option string) (l : locals) : locals :=
  {| xml := xml l; children := children l; reply := r; have_props := have_props l |}.

Definition set_have_props (b : bool) (l : locals) : locals :=
  {| xml := xml l; children := children l; reply := reply l; have_props := b |}.

(** [xml = nih_strdup (NULL, s); if (! xml) goto error;] *)
Definition nih_strdup (s : string) : M unit :=
  fun '(l, w) =>
    let '(ok, w) := alloc w in
    if ok then (Some tt, (set_xml (Some s) l, set_nih_blocks (S (nih_blocks w)) w))
    else (None, (l, w)).

(** [if (! nih_strcat (&xml, NULL, s)) goto error;], and the same for
    [nih_strcat_sprintf] with [s] the formatted text: the string is
    reallocated, and left as it was when that fails. *)
Definition nih_strcat (s : string) : M unit :=
  fun '(l, w) =>
    let '(ok, w) := alloc w in
    if ok then
      match xml l with
      | Some x => (Some tt, (set_xml (Some (x +:+ s)) l, w))
      | None => (Some tt, (set_xml (Some s) l, set_nih_blocks (S (nih_blocks w)) w))
      end
    else (None, (l, w)).

(** [have_props = TRUE;] *)
Definition mark_have_props : M unit :=
  fun '(l, w) => (Some tt, (set_have_props true l, w)).

(** [dbus_connection_list_registered (conn, object->path, &children)]:
    [registered] is what the library has below the path. *)
Definition list_registered (registered : list string) : M (list string) :=
  fun '(l, w) =>
    let '(ok, w) := alloc w in
    if ok then
      (Some registered,
       (set_children (Some registered) l, set_dbus_blocks (S (dbus_blocks w)) w))
    else (None, (l, w)).

(** [dbus_free_string_array (children); children = NULL;] *)
Definition free_children : M unit :=
  fun '(l, w) =>
    (Some tt, (set_children None l, set_dbus_blocks (pred (dbus_blocks w)) w)).

(** [reply = dbus_message_new_method_return (message)] *)
Definition new_method_return : M unit :=
  fun '(l, w) =>
    let '(ok, w) := alloc w in
    if ok then
      (Some tt, (set_reply (Some EmptyString) l, set_dbus_blocks (S (dbus_blocks w)) w))
    else (None, (l, w)).

(** [dbus_message_append_args (reply, DBUS_TYPE_STRING, &xml, ...)] *)
Definition append_xml : M unit :=
  fun '(l, w) =>
    let '(ok, w) := alloc w in
    if ok then
      (Some tt, (set_reply (Some (default EmptyString (xml l))) l, w))
    else (None, (l, w)).

(** [dbus_connection_send (conn, reply, NULL)]: the connection queues the
    reply and holds a reference of its own. *)
Definition send_reply : M unit :=
  fun '(l, w) =>
    let '(ok, w) := alloc w in
    if ok then (Some tt, (l, queue (default EmptyString (reply l)) w))
    else (None, (l, w)).

(** [dbus_message_unref (reply)] on the way out. *)
Definition unref_reply : M unit :=
  fun '(l, w) => (Some tt, (l, set_dbus_blocks (pred (dbus_blocks w)) w)).

(** [nih_free (xml)] on the way out. *)
Definition free_xml : M unit :=
  fun '(l, w) => (Some tt, (l, set_nih_blocks (pred (nih_blocks w)) w)).

Definition add_method (method : NihDBusMethod) : M unit :=
  seq (nih_strcat (method_open (method_name method)))
 (seq (for_each (method_args method) (fun arg => nih_strcat (method_arg_xml arg)))
      (nih_strcat method_close)).

Definition add_signal (signal : NihDBusSignal) : M unit :=
  seq (nih_strcat (signal_open (signal_name signal)))
 (seq (for_each (signal_args signal) (fun arg => nih_strcat (signal_arg_xml arg)))
      (nih_strcat signal_close)).

Definition add_property (property : NihDBusProperty) : M unit :=
  seq mark_have_props (nih_strcat (property_xml property)).

Definition add_interface (interface : NihDBusInterface) : M unit :=
  seq (nih_strcat (interface_open (interface_name interface)))
 (seq (for_each (methods interface) add_method)
 (seq (for_each (signals interface) add_signal)
 (seq (for_each (properties interface) add_property)
      (nih_strcat interface_close)))).

(** "We may also support properties, but don't want to announce that
    unless we really do have some." *)
Definition add_properties_interface : M unit :=
  fun s => if have_props s.1 then nih_strcat properties_xml s else ret tt s.

(** The root node, the Introspectable interface, each interface of the
    table, and the Properties interface. *)
Definition add_head (object : NihDBusObject) : M unit :=
  seq (nih_strcat (node_open (object_path object)))
 (seq (nih_strcat introspectable_xml)
 (seq (for_each (interfaces object) add_interface)
      add_properties_interface)).

(** The node items for the children, and the end of the root node. *)
Definition add_children (kids : list string) : M unit :=
  seq (for_each kids (fun child => nih_strcat (child_xml child)))
      (nih_strcat node_close).

(** "Generate and send the reply", down to [nih_free (xml)]. *)
Definition send_document : M unit :=
  seq new_method_return
 (seq append_xml
 (seq send_reply
 (seq unref_reply
      free_xml))).

(** The body of the handler down to [return DBUS_HANDLER_RESULT_HANDLED]. *)
Definition introspect_body (object : NihDBusObject) (registered : list string) : M unit :=
  seq (nih_strdup DBUS_INTROSPECT_1_0_XML_DOCTYPE_DECL_NODE)
 (seq (add_head object)
 (bind (list_registered registered) (fun kids =>
  seq (add_children kids)
 (seq free_children
      send_document)))).

(** The code after the label [error]. *)
Definition introspect_error (s : locals * world) : world :=
  let '(l, w) := s in
  let w := match reply l with
           | Some _ => set_dbus_blocks (pred (dbus_blocks w)) w
           | None => w
           end in
  let w := match children l with
           | Some _ => set_dbus_blocks (pred (dbus_blocks w)) w
           | None => w
           end in
  match xml l with
  | Some _ => set_nih_blocks (pred (nih_blocks w)) w
  | None => w
  end.

Definition no_locals : locals :=
  {| xml := None; children := None; reply := None; have_props := false |}.

Definition nih_dbus_object_introspect
  (object : NihDBusObject) (registered : list string) (w : world)
  : DBusHandlerResult * world :=
  match introspect_body object registered (no_locals, w) with
  | (Some _, (_, w)) => (DBUS_HANDLER_RESULT_HANDLED, w)
  | (None, s) => (DBUS_HANDLER_RESULT_NEED_MEMORY, introspect_error s)
  end.

(** ** [nih_dbus_object_message] *)

Section message.

(** The marshaller functions of the tables: what the one named [m] does
    with the object and the message, and what it returns. *)
Variable run_marshaller :
  nat -> NihDBusObject -> DBusMessage -> world -> DBusHandlerResult * world.

Definition call_marshaller (m : nat) (object : NihDBusObject) (message : DBusMessage)
  (w : world) : DBusHandlerResult * world :=
  run_marshaller m object message
    {| mem := mem w; allocs := allocs w; nih_blocks := nih_blocks w;
       dbus_blocks := dbus_blocks w; message_refs := message_refs w;
       outgoing := outgoing w; calls := calls w ++ [m] |}.

(** The body of the inner loop when the names match. *)
Definition handle_method (method : NihDBusMethod) (object : NihDBusObject)
  (message : DBusMessage) (w : world) : DBusHandlerResult * world :=
  let '(ok, w) := alloc w in
  if ok then
    let w := set_nih_blocks (S (nih_blocks w)) w in
    let w := set_message_refs (message_refs w + 1) w in
    let '(result, w) := call_marshaller (marshaller method) object message w in
    let w := set_message_refs (message_refs w - 1) w in
    let w := set_nih_blocks (pred (nih_blocks w)) w in
    (result, w)
  else (DBUS_HANDLER_RESULT_NEED_MEMORY, w).

(** The two loops: the first method, in table order, whose interface and
    name the message matches. *)
Fixpoint find_method (iface : string) (ms : list NihDBusMethod) (message : DBusMessage)
  : option NihDBusMethod :=
  match ms with
  | [] => None
  | method :: ms =>
      if dbus_message_is_method_call message iface (method_name method)
      then Some method
      else find_method iface ms message
  end.

Fixpoint find_handler (ifaces : list NihDBusInterface) (message : DBusMessage)
  : option NihDBusMethod :=
  match ifaces with
  | [] => None
  | interface :: ifaces =>
      match find_method (interface_name interface) (methods interface) message with
      | Some method => Some method
      | None => find_handler ifaces message
      end
  end.

Definition nih_dbus_object_message
  (message : DBusMessage) (object : NihDBusObject) (registered : list string) (w : world)
  : DBusHandlerResult * world :=
  if dbus_message_is_method_call message DBUS_INTERFACE_INTROSPECTABLE "Introspect" then
    nih_dbus_object_introspect object registered w
  else if dbus_message_is_method_call message DBUS_INTERFACE_PROPERTIES "Get" then
    (DBUS_HANDLER_RESULT_NOT_YET_HANDLED, w)
  else if dbus_message_is_method_call message DBUS_INTERFACE_PROPERTIES "Set" then
    (DBUS_HANDLER_RESULT_NOT_YET_HANDLED, w)
  else if dbus_message_is_method_call message DBUS_INTERFACE_PROPERTIES "GetAll" then
    (DBUS_HANDLER_RESULT_NOT_YET_HANDLED, w)
  else
    match find_handler (interfaces object) message with
    | Some method => handle_method method object message w
    | None => (DBUS_HANDLER_RESULT_NOT_YET_HANDLED, w)
    end.

End message.

(** ** The document, as the specification describes it *)

Fixpoint cat (l : list string) : string :=
  match l with
  | [] => EmptyString
  | a :: r => a +:+ cat r
  end.

Definition method_xml (method : NihDBusMethod) : string :=
  method_open (method_name method)
  +:+ cat (map method_arg_xml (method_args method))
  +:+ method_close.

Definition signal_xml (signal : NihDBusSignal) : string :=
  signal_open (signal_name signal)
  +:+ cat (map signal_arg_xml (signal_args signal))
  +:+ signal_close.

Definition interface_xml (interface : NihDBusInterface) : string :=
  interface_open (interface_name interface)
  +:+ cat (map method_xml (methods interface))
  +:+ cat (map signal_xml (signals interface))
  +:+ cat (map property_xml (properties interface))
  +:+ interface_close.

(** "Any property was declared in the table." *)
Definition has_property (ifaces : list NihDBusInterface) : bool :=
  existsb (fun interface => match properties interface with
                            | [] => false
                            | _ :: _ => true
                            end) ifaces.

(** Everything before the place of the Properties interface, and
    everything after it. *)
Definition document_head (object : NihDBusObject) : string :=
  DBUS_INTROSPECT_1_0_XML_DOCTYPE_DECL_NODE
  +:+ node_open (object_path object)
  +:+ introspectable_xml
  +:+ cat (map interface_xml (interfaces object)).

Definition document_tail (registered : list string) : string :=
  cat (map child_xml registered) +:+ node_close.

Definition document (object : NihDBusObject) (registered : list string) : string :=
  document_head object
  +:+ (if has_property (interfaces object) then properties_xml else "")
  +:+ document_tail registered.

(** ** What a matched method call goes through *)

(** Whether the message is a call of [method] on [interface]. *)
Definition matches (message : DBusMessage) (interface : NihDBusInterface)
  (method : NihDBusMethod) : bool :=
  dbus_message_is_method_call message (interface_name interface) (method_name method).

(** Whether the message is one of the three calls of the Properties
    interface that the handler leaves alone. *)
Definition is_properties_call (message : DBusMessage) : bool :=
  dbus_message_is_method_call message DBUS_INTERFACE_PROPERTIES "Get"
  || dbus_message_is_method_call message DBUS_INTERFACE_PROPERTIES "Set"
  || dbus_message_is_method_call message DBUS_INTERFACE_PROPERTIES "GetAll".

(** The world the marshaller named [m] runs in: the wrapper is allocated
    and the message has one reference more. *)
Definition during (m : nat) (w : world) : world :=
  {| mem := mem w; allocs := S (allocs w); nih_blocks := S (nih_blocks w);
     dbus_blocks := dbus_blocks w; message_refs := message_refs w + 1;
     outgoing := outgoing w; calls := calls w ++ [m] |}.

(** What is undone once the marshaller is back: the reference on the
    message is dropped and the wrapper released. *)
Definition after (w : world) : world :=
  {| mem := mem w; allocs := allocs w; nih_blocks := pred (nih_blocks w);
     dbus_blocks := dbus_blocks w; message_refs := message_refs w - 1;
     outgoing := outgoing w; calls := calls w |}.

(** ** An object for the examples *)

Definition start_method : NihDBusMethod :=
  {| method_name := "Start"; method_args := []; marshaller := 0%nat |}.

Definition stop_method : NihDBusMethod :=
  {| method_name := "Stop"; method_args := []; marshaller := 1%nat |}.

Definition job_interface : NihDBusInterface :=
  {| interface_name := "com.example.Job"; methods := [start_method; stop_method];
     signals := []; properties := [] |}.

Definition state_property : NihDBusProperty :=
  {| property_name := "state"; property_type := "s"; property_access := NIH_DBUS_READ |}.

Definition state_interface : NihDBusInterface :=
  {| interface_name := "com.example.State"; methods := [];
     signals := []; properties := [state_property] |}.

(** An object with methods and no property, one with a property, one with
    an empty table. *)
Definition job_object : NihDBusObject :=
  {| object_path := "/com/example/job"; interfaces := [job_interface] |}.

Definition state_object : NihDBusObject :=
  {| object_path := "/com/example/job"; interfaces := [job_interface; state_interface] |}.

Definition bare_object : NihDBusObject :=
  {| object_path := "/com/example/job"; interfaces := [] |}.

Definition method_call (iface member : string) : DBusMessage :=
  {| msg_type := DBUS_MESSAGE_TYPE_METHOD_CALL; msg_path := Some "/com/example/job";
     msg_interface := Some iface; msg_member := Some member |}.

(** Marshallers that do nothing and report the call handled. *)
Definition handled_marshaller
  (m : nat) (object : NihDBusObject) (message : DBusMessage) (w : world)
  : DBusHandlerResult * world :=
  (DBUS_HANDLER_RESULT_HANDLED, w).

(** A world where every allocation but the [n]-th succeeds, the message
    held by the library alone. *)
Definition failing_at (n : nat) : world :=
  {| mem := fun i => negb (i =? n)%nat; allocs := 0; nih_blocks := 0; dbus_blocks := 0;
     message_refs := 1; outgoing := []; calls := [] |}.

(** A world where every allocation succeeds, and one where none does. *)
Definition plenty : world :=
  {| mem := fun _ => true; allocs := 0; nih_blocks := 0; dbus_blocks := 0;
     message_refs := 1; outgoing := []; calls := [] |}.

Definition exhausted : world :=
  {| mem := fun _ => false; allocs := 0; nih_blocks := 0; dbus_blocks := 0;
     message_refs := 1; outgoing := []; calls := [] |}.

End Dispatch.

(** * Path encoding: helpers for the further properties *)
Module PathAux.

(** Where a component ends: at the end of the path or at the next ['/']. *)
Definition at_boundary (r : list Z) : Prop :=
  match r with
  | [] => True
  | c :: _ => c = 47
  end.

(** An allocator that fails whenever more than [limit] bytes are asked
    for. *)
Definition alloc_up_to (limit n : nat) : option (list Z) :=
  if decide (n <= limit)%nat then Some (replicate n 170) else None.

End PathAux.

(** * What the host loop calls back: [nih_dbus_watcher] *)
Module Watcher.
Import Watch.

(** The fourth flag of [DBusWatchFlags]. *)
Definition DBUS_WATCH_HANGUP : Z := 8.

(** [dbus_watch_handle (watch, flags)], as a call that is recorded. *)
Inductive call :=
| WatchHandle (watch : nat) (flags : Z).

(** [nih_dbus_watcher]: the events of the host loop become flags of the
    D-Bus library and are handed to the watch. *)
Definition nih_dbus_watcher (watch io_watch : nat) (events : Z) (calls : list call)
  : list call :=
  calls ++ [WatchHandle watch (flags_of_events events)].

(** Whether an event of the library keeps to its protocol: a watch is
    added once, with a file descriptor, and toggled or removed only
    while it is added. *)
Definition protocol_ok (lp : loop) (ev : event) : bool :=
  match ev with
  | LibAdd watch fd _ _ _ => bool_decide (watches lp !! watch = None) && (0 <=? fd)
  | LibToggle watch _ => bool_decide (is_Some (watches lp !! watch))
  | LibRemove watch => bool_decide (is_Some (watches lp !! watch))
  end.

(** Every watch the loop knows has been through "add". *)
Definition all_added (lp : loop) : Prop :=
  forall w dw, watches lp !! w = Some dw -> is_Some (watch_data dw).

End Watcher.

(** * Timeouts: the state the bridge keeps *)
Module TimeoutState.
Import Timeout.

(** The events of the library, each with the time at which it happens. *)
Definition run (evs : list (Z * event)) (lp : loop) : option loop :=
  fold_opt (fun lp '(now, ev) => step now lp ev) evs lp.

(** The timer list names each allocated timer at most once; a timeout
    that has been added owns an allocated timer, which no other timeout
    owns, which stands in the timer list exactly when the timeout is
    enabled, whose period is the one computed from the interval of the
    timeout, and whose callback data is the timeout. *)
Record consistent (lp : loop) : Prop := {
  active_nodup : NoDup (nih_timers lp);
  active_allocated : forall timer, timer ∈ nih_timers lp -> is_Some (timers lp !! timer);
  data_allocated : forall t dt timer,
      timeouts lp !! t = Some dt -> timeout_data dt = Some timer ->
      exists tm, timers lp !! timer = Some tm
        /\ period tm = timer_period (interval dt) /\ timer_data tm = t;
  data_active : forall t dt timer,
      timeouts lp !! t = Some dt -> timeout_data dt = Some timer ->
      (timer ∈ nih_timers lp <-> timeout_enabled dt = true);
  data_owner : forall t1 t2 dt1 dt2 timer,
      timeouts lp !! t1 = Some dt1 -> timeout_data dt1 = Some timer ->
      timeouts lp !! t2 = Some dt2 -> timeout_data dt2 = Some timer -> t1 = t2
}.

(** The intervals the D-Bus library gives: milliseconds from 0 up, in an
    [int].  On these [timer_period] is the value of the C expression. *)
Definition in_range (ms : Z) : Prop := 0 <= ms <= INT_MAX.

Definition event_in_range (ev : event) : Prop :=
  match ev with
  | LibAdd _ ms _ _ => in_range ms
  | LibToggle _ ms _ => in_range ms
  | LibRemove _ => True
  end.

Definition intervals_in_range (lp : loop) : Prop :=
  forall t dt, timeouts lp !! t = Some dt -> in_range (interval dt).

End TimeoutState.

(** * Opening connections and servers: [nih_dbus_connect], [nih_dbus_bus],
      [nih_dbus_server], [nih_dbus_new_connection], [nih_dbus_callback] *)
Module Server.
Import DBus Conn.

(** Modelled from the spec: the error stack of [nih/error.c] is not among
    the sources.  The errors the functions raise are "a D-Bus-named
    error", the variant of [NihError] with number [NIH_DBUS_ERROR] that
    carries a D-Bus name beside the message, and "a generic system error
    with errno=ENOMEM", which [nih_error_raise_system] raises from the
    value of [errno]. *)
Inductive NihError :=
| NihDBusError (name message : string)
| NihSystemError (errnum : Z).

Definition ENOMEM : Z := 12.

(** [DBusError], as a library call that failed has set it. *)
Record DBusError := {
  error_name : string;
  error_message : string
}.

(** Modelled from the spec: [NIH_MUST] of [nih/macros.h] and
    [nih_error_raise_again] of [nih/error.c] are not among the sources.
    [nih_dbus_error_raise] allocates the error object and duplicates the
    name and the message under [NIH_MUST], which evaluates an allocation
    again until it succeeds; "a single raise operation takes a D-Bus
    error name and a message and produces an error object of the fixed
    D-Bus-error variant": when the call returns the error raised carries
    both strings. *)
Definition nih_dbus_error_raise (name message : string) : NihError :=
  NihDBusError name message.

(** A connection as the library hands it out, with the setting
    [dbus_connection_set_exit_on_disconnect] changes. *)
Record link := {
  link_world : world;
  exit_on_disconnect : bool
}.

(** What a call returns: the connection, or [NULL] with an error raised;
    [left] is the state of the connection the call had obtained, if it
    had obtained one. *)
Inductive connect_result :=
| Connected (l : link)
| ConnectFailed (raised : NihError) (left : option link).

(** [nih_dbus_connect]; [opened] is what [dbus_connection_open] gives:
    the connection, with the reference that is the caller's, or the error
    it sets. *)
Definition nih_dbus_connect (opened : DBusError + link) (mem : setup_mem)
  (disconnect_handler : option nat) : connect_result :=
  match opened with
  | inl error =>
      ConnectFailed (nih_dbus_error_raise (error_name error) (error_message error)) None
  | inr l =>
      let '(r, w) := nih_dbus_setup mem disconnect_handler (link_world l) in
      if r <? 0 then
        ConnectFailed (NihSystemError ENOMEM)
          (Some {| link_world := dbus_connection_unref w;
                   exit_on_disconnect := exit_on_disconnect l |})
      else Connected {| link_world := w; exit_on_disconnect := exit_on_disconnect l |}
  end.

(** [nih_dbus_bus]; [got] is what [dbus_bus_get] gives. *)
Definition nih_dbus_bus (got : DBusError + link) (mem : setup_mem)
  (disconnect_handler : option nat) : connect_result :=
  match got with
  | inl error =>
      ConnectFailed (nih_dbus_error_raise (error_name error) (error_message error)) None
  | inr l =>
      let l := {| link_world := link_world l; exit_on_disconnect := false |} in
      let '(r, w) := nih_dbus_setup mem disconnect_handler (link_world l) in
      if r <? 0 then
        ConnectFailed (NihSystemError ENOMEM)
          (Some {| link_world := dbus_connection_unref w;
                   exit_on_disconnect := exit_on_disconnect l |})
      else Connected {| link_world := w; exit_on_disconnect := exit_on_disconnect l |}
  end.

(** A [DBusServer]: its reference count, the data stored in
    [connect_handler_slot] and in [disconnect_handler_slot] (function
    pointers, [NULL] when there is no handler), and how many times each
    set of functions was installed. *)
Record DBusServer := {
  server_refs : Z;
  connect_handler_data : option nat;
  disconnect_handler_data : option nat;
  server_watch_functions : nat;
  server_timeout_functions : nat;
  new_connection_function : nat
}.

(** The server and the reference counts of the two data slots. *)
Record server_world := {
  server : DBusServer;
  connect_slot_refs : nat;
  disconnect_slot_refs : nat
}.

(** The outcome of each call of [nih_dbus_server] that can run out of
    memory. *)
Record server_mem := {
  connect_slot_ok : bool;
  connect_data_ok : bool;
  disconnect_slot_ok : bool;
  disconnect_data_ok : bool;
  server_watch_ok : bool;
  server_timeout_ok : bool
}.

Definition server_all_ok : server_mem :=
  {| connect_slot_ok := true; connect_data_ok := true; disconnect_slot_ok := true;
     disconnect_data_ok := true; server_watch_ok := true; server_timeout_ok := true |}.

Inductive server_result :=
| Listening (sw : server_world)
| ServerFailed (raised : NihError) (left : option server_world).

Definition with_server (s : DBusServer) (sw : server_world) : server_world :=
  {| server := s; connect_slot_refs := connect_slot_refs sw;
     disconnect_slot_refs := disconnect_slot_refs sw |}.

Definition set_connect_handler (h : option nat) (s : DBusServer) : DBusServer :=
  {| server_refs := server_refs s; connect_handler_data := h;
     disconnect_handler_data := disconnect_handler_data s;
     server_watch_functions := server_watch_functions s;
     server_timeout_functions := server_timeout_functions s;
     new_connection_function := new_connection_function s |}.

Definition set_disconnect_handler (h : option nat) (s : DBusServer) : DBusServer :=
  {| server_refs := server_refs s; connect_handler_data := connect_handler_data s;
     disconnect_handler_data := h;
     server_watch_functions := server_watch_functions s;
     server_timeout_functions := server_timeout_functions s;
     new_connection_function := new_connection_function s |}.

Definition set_server_watch_functions (s : DBusServer) : DBusServer :=
  {| server_refs := server_refs s; connect_handler_data := connect_handler_data s;
     disconnect_handler_data := disconnect_handler_data s;
     server_watch_functions := S (server_watch_functions s);
     server_timeout_functions := server_timeout_functions s;
     new_connection_function := new_connection_function s |}.

Definition set_server_timeout_functions (s : DBusServer) : DBusServer :=
  {| server_refs := server_refs s; connect_handler_data := connect_handler_data s;
     disconnect_handler_data := disconnect_handler_data s;
     server_watch_functions := server_watch_functions s;
     server_timeout_functions := S (server_timeout_functions s);
     new_connection_function := new_connection_function s |}.

Definition set_new_connection_function (s : DBusServer) : DBusServer :=
  {| server_refs := server_refs s; connect_handler_data := connect_handler_data s;
     disconnect_handler_data := disconnect_handler_data s;
     server_watch_functions := server_watch_functions s;
     server_timeout_functions := server_timeout_functions s;
     new_connection_function := S (new_connection_function s) |}.

Definition dbus_server_unref (s : DBusServer) : DBusServer :=
  {| server_refs := server_refs s - 1; connect_handler_data := connect_handler_data s;
     disconnect_handler_data := disconnect_handler_data s;
     server_watch_functions := server_watch_functions s;
     server_timeout_functions := server_timeout_functions s;
     new_connection_function := new_connection_function s |}.

(** The label [error] of [nih_dbus_server]. *)
Definition server_error (sw : server_world) : server_result :=
  ServerFailed (NihSystemError ENOMEM) (Some (with_server (dbus_server_unref (server sw)) sw)).

(** [nih_dbus_server]; [listened] is what [dbus_server_listen] gives. *)
Definition nih_dbus_server (listened : DBusError + server_world) (mem : server_mem)
  (connect_handler disconnect_handler : option nat) : server_result :=
  match listened with
  | inl error =>
      ServerFailed (nih_dbus_error_raise (error_name error) (error_message error)) None
  | inr sw =>
      if negb (connect_slot_ok mem) then server_error sw
      else
        let sw := {| server := server sw; connect_slot_refs := S (connect_slot_refs sw);
                     disconnect_slot_refs := disconnect_slot_refs sw |} in
        if negb (connect_data_ok mem) then server_error sw
        else
          let sw := with_server (set_connect_handler connect_handler (server sw)) sw in
          if negb (disconnect_slot_ok mem) then server_error sw
          else
            let sw := {| server := server sw; connect_slot_refs := connect_slot_refs sw;
                         disconnect_slot_refs := S (disconnect_slot_refs sw) |} in
            if negb (disconnect_data_ok mem) then server_error sw
            else
              let sw := with_server
                          (set_disconnect_handler disconnect_handler (server sw)) sw in
              if negb (server_watch_ok mem) then server_error sw
              else
                let sw := with_server (set_server_watch_functions (server sw)) sw in
                if negb (server_timeout_ok mem) then server_error sw
                else
                  let sw := with_server (set_server_timeout_functions (server sw)) sw in
                  Listening (with_server (set_new_connection_function (server sw)) sw)
  end.

(** [dbus_connection_ref] *)
Definition dbus_connection_ref (w : world) : world :=
  let c := conn w in
  {| conn := {| refcount := refcount c + 1; main_loop_data := main_loop_data c;
                watch_functions := watch_functions c;
                timeout_functions := timeout_functions c;
                wakeup_main_function := wakeup_main_function c; filters := filters c |};
     main_loop_funcs := main_loop_funcs w; slot_refs := slot_refs w;
     trace := trace w |}.

(** Modelled from the spec: [NIH_ZERO] of [nih/macros.h] is not among the
    sources, and the specification says only that the setup is run.
    [NIH_ZERO (nih_dbus_setup (conn, disconnect_handler))] evaluates the
    call again until it returns zero.  [mems] gives the memory each
    attempt finds; [None] stands for a loop that is still going when the
    list is used up. *)
Fixpoint setup_until_zero (mems : list setup_mem) (handler : option nat) (w : world)
  : option world :=
  match mems with
  | [] => None
  | mem :: mems =>
      let '(r, w) := nih_dbus_setup mem handler w in
      if r =? 0 then Some w else setup_until_zero mems handler w
  end.

(** [nih_dbus_new_connection]; [accepts h] is what the connect handler
    [h] returns for this connection, and the handlers called are
    recorded. *)
Definition nih_dbus_new_connection (s : DBusServer) (accepts : nat -> bool)
  (mems : list setup_mem) (w : world) : option (list nat * world) :=
  match connect_handler_data s with
  | Some h =>
      if negb (accepts h) then Some ([h], w)
      else
        match setup_until_zero mems (disconnect_handler_data s) (dbus_connection_ref w) with
        | Some w => Some ([h], w)
        | None => None
        end
  | None =>
      match setup_until_zero mems (disconnect_handler_data s) (dbus_connection_ref w) with
      | Some w => Some ([], w)
      | None => None
      end
  end.






(** Whether the server has a connect handler and it returns [FALSE]. *)
Definition turned_down (s : DBusServer) (accepts : nat -> bool) : bool :=
  match connect_handler_data s with
  | Some h => negb (accepts h)
  | None => false
  end.


Definition new_server : server_world :=
  {| server := {| server_refs := 1; connect_handler_data := None;
                  disconnect_handler_data := None; server_watch_functions := 0;
                  server_timeout_functions := 0; new_connection_function := 0 |};
     connect_slot_refs := 0; disconnect_slot_refs := 0 |}.

End Server.

(** * Object creation: [nih_dbus_object_new] *)
Module Registry.
Import Object.

(** The outcome of each step of [nih_dbus_object_new] that can run out of
    memory. *)
Record new_mem := {
  object_ok : bool;
  path_ok : bool;
  register_ok : bool
}.

Definition new_all_ok : new_mem :=
  {| object_ok := true; path_ok := true; register_ok := true |}.

(** [dbus_connection_register_object_path]: the path enters the tree of
    the connection with the object as user data; [FALSE] when memory is
    short and when the path already has a handler. *)
Definition dbus_connection_register_object_path
  (mem_ok : bool) (conn : nat) (path : string) (object : nat) (w : world) : bool * world :=
  if mem_ok then
    match paths w !! (conn, path) with
    | Some _ => (false, w)
    | None =>
        (true, {| objects := objects w; paths := <[(conn, path) := object]> (paths w);
                  trace := trace w |})
    end
  else (false, w).

(** [nih_free] of a block that has no destructor yet. *)
Definition nih_free_plain (object : nat) (w : world) : world :=
  log (Free object)
    {| objects := delete object (objects w); paths := paths w; trace := trace w |}.

(** [object->registered = TRUE] *)
Definition set_registered (object : nat) (w : world) : world :=
  {| objects := alter (fun obj => {| obj_conn := obj_conn obj; obj_path := obj_path obj;
                                     registered := true |}) object (objects w);
     paths := paths w;
     trace := trace w |}.

(** [nih_dbus_object_new]: the new object, or [NULL].  The block joins
    [objects] when its fields are set; [object->data] and
    [object->interfaces] are stored as given and are not among the fields
    registration and teardown read.  The destructor set at the end is the
    one [release] runs. *)
Definition nih_dbus_object_new (mem : new_mem) (conn : nat) (path : string) (w : world)
  : option nat * world :=
  if negb (object_ok mem) then (None, w)
  else
    let object := fresh (dom (objects w)) in
    if negb (path_ok mem) then (None, log (Free object) w)
    else
      let w := {| objects := <[object := {| obj_conn := conn; obj_path := path;
                                            registered := false |}]> (objects w);
                  paths := paths w; trace := trace w |} in
      match dbus_connection_register_object_path (register_ok mem) conn path object w with
      | (false, w) => (None, nih_free_plain object w)
      | (true, w) => (Some object, set_registered object w)
      end.

(** No object and no path. *)
Definition empty_world : world := {| objects := ∅; paths := ∅; trace := [] |}.

End Registry.

(** * Dispatch: more objects for the examples *)
Module DispatchExamples.
Import DBus Dispatch.

(** An interface of the user's with a method called [Get]. *)
Definition get_method : NihDBusMethod :=
  {| method_name := "Get"; method_args := []; marshaller := 2%nat |}.

Definition config_interface : NihDBusInterface :=
  {| interface_name := "com.example.Config"; methods := [get_method];
     signals := []; properties := [] |}.

Definition config_object : NihDBusObject :=
  {| object_path := "/com/example/config"; interfaces := [config_interface] |}.

(** A method call that names no interface, which the protocol allows. *)
Definition bare_call (member : string) : DBusMessage :=
  {| msg_type := DBUS_MESSAGE_TYPE_METHOD_CALL; msg_path := Some "/com/example/config";
     msg_interface := None; msg_member := Some member |}.

End DispatchExamples.

(** * Part II: properties *)

(** ** Path encoding *)
Module PathProps.
Import Path.

Lemma take_S_insert (buf : list Z) (i : nat) (v : Z) :
  (i < length buf)%nat -> take (S i) (<[i:=v]> buf) = take i buf ++ [v].
Proof.
  intros Hi. rewrite insert_take_drop by exact Hi.
  replace (S i) with (length (take i buf) + 1)%nat by (rewrite length_take; lia).
  rewrite take_app_add. reflexivity.
Qed.

Lemma store_Some (buf : list Z) (i : nat) (v : Z) :
  (i < length buf)%nat -> store buf i v = Some (<[i:=v]> buf).
Proof. intros Hi. unfold store. destruct (decide (i < length buf)%nat); [reflexivity | lia]. Qed.

Lemma store_inv (buf buf' : list Z) (i : nat) (v : Z) :
  store buf i v = Some buf' ->
  (i < length buf)%nat /\ buf' = <[i:=v]> buf.
Proof.
  unfold store. destruct (decide (i < length buf)%nat); [|discriminate].
  intros [= <-]. split; [assumption | reflexivity].
Qed.

Lemma store_bytes_spec (bs : list Z) : forall (buf : list Z) (i : nat),
  (i + length bs <= length buf)%nat ->
  exists buf', store_bytes buf i bs = Some buf'
    /\ length buf' = length buf
    /\ take (i + length bs) buf' = take i buf ++ bs.
Proof.
  induction bs as [|b r IH]; intros buf i Hlen; simpl in *.
  - exists buf. rewrite Nat.add_0_r, app_nil_r. auto.
  - rewrite store_Some by lia.
    destruct (IH (<[i:=b]> buf) (S i)) as (buf' & Hst & Hl & Ht).
    { rewrite length_insert. lia. }
    exists buf'. rewrite Hst. rewrite length_insert in Hl.
    split; [reflexivity|]. split; [assumption|].
    replace (i + S (length r))%nat with (S i + length r)%nat by lia.
    rewrite Ht, take_S_insert by lia. rewrite <- app_assoc. reflexivity.
Qed.

(** A write never changes the block below its index. *)
Lemma store_bytes_below (bs : list Z) : forall (buf buf' : list Z) (i n : nat),
  store_bytes buf i bs = Some buf' -> (n <= i)%nat ->
  length buf' = length buf /\ take n buf' = take n buf.
Proof.
  induction bs as [|b r IH]; intros buf buf' i n Hst Hn; simpl in Hst.
  - injection Hst as <-. auto.
  - destruct (store buf i b) as [buf1|] eqn:E; [|discriminate].
    apply store_inv in E as [Hi ->].
    destruct (IH _ _ _ n Hst ltac:(lia)) as [Hl Ht].
    rewrite length_insert in Hl. rewrite Ht, take_insert_ge by lia. auto.
Qed.

Lemma c_string_app (s r : list Z) :
  Forall (fun b => b <> 0) s -> c_string (s ++ r) = s ++ c_string r.
Proof.
  induction 1 as [|b s Hb _ IH]; simpl; [reflexivity|].
  destruct (Z.eqb_spec b 0); [contradiction|]. rewrite IH. reflexivity.
Qed.

Lemma hex_digit_nonzero (d : Z) : 0 <= d -> hex_digit d <> 0.
Proof. unfold hex_digit. destruct (Z.ltb_spec d 10); lia. Qed.

Lemma hex_digit_word (d : Z) : 0 <= d < 16 -> is_word (hex_digit d) = true.
Proof.
  intros Hd. unfold is_word, is_alnum, hex_digit.
  destruct (Z.ltb_spec d 10); apply orb_true_iff; left.
  - apply orb_true_iff; right. apply andb_true_iff; split; lia.
  - apply orb_true_iff; left. apply orb_true_iff; left.
    apply andb_true_iff; split; lia.
Qed.

(** For a byte, [%02x] prints exactly the two digits of the byte. *)
Lemma sprintf_02x_byte (b : Z) :
  0 <= b < 256 -> sprintf_02x b = [hex_digit (b / 16); hex_digit (b mod 16); 0].
Proof.
  intros Hb. unfold sprintf_02x.
  rewrite (Z.mod_small b (2 ^ 32)) by lia.
  cbn [hex_digits]. destruct (Z.ltb_spec b 16) as [Hlt|Hge].
  - rewrite (Z.div_small b 16) by lia. reflexivity.
  - assert (Hq : 0 <= b / 16 < 16).
    { split; [apply Z.div_pos; lia | apply Z.div_lt_upper_bound; lia]. }
    destruct (Z.ltb_spec (b / 16) 16); [|lia].
    rewrite (Z.mod_small (b / 16) 16) by lia. reflexivity.
Qed.

Lemma escape_byte_nonzero (b : Z) :
  c_byte b -> Forall (fun c => c <> 0) (escape_byte b).
Proof.
  unfold c_byte, escape_byte. intros Hb. destruct (is_alnum b).
  - repeat constructor. lia.
  - repeat constructor; [lia | |]; apply hex_digit_nonzero.
    + apply Z.div_pos; lia.
    + apply Z.mod_pos_bound; lia.
Qed.

Lemma escape_byte_word (b : Z) :
  c_byte b -> forallb is_word (escape_byte b) = true.
Proof.
  unfold c_byte, escape_byte. intros Hb. destruct (is_alnum b) eqn:E; simpl.
  - unfold is_word. rewrite E. reflexivity.
  - rewrite !hex_digit_word; [reflexivity | |].
    + apply Z.mod_pos_bound; lia.
    + split; [apply Z.div_pos; lia | apply Z.div_lt_upper_bound; lia].
Qed.

Lemma escape_word (x : list Z) :
  Forall c_byte x -> forallb is_word (escape x) = true.
Proof.
  induction 1 as [|b r Hb _ IH]; simpl; [reflexivity|].
  rewrite forallb_app, IH, andb_true_r. apply escape_byte_word, Hb.
Qed.

Lemma escape_byte_nonempty (b : Z) : escape_byte b <> [].
Proof. unfold escape_byte. destruct (is_alnum b); discriminate. Qed.

Section encoding.

Variable char_signed : bool.

Lemma plain_c_byte (b : Z) : plain char_signed b -> c_byte b.
Proof. unfold plain, c_byte. destruct char_signed; lia. Qed.

Lemma char_value_plain (b : Z) :
  plain char_signed b -> char_value char_signed b = b.
Proof.
  unfold plain, char_value. destruct char_signed; simpl; [|reflexivity].
  intros Hb. destruct (Z.leb_spec 128 b); [lia | reflexivity].
Qed.

Lemma copy_char_spec (st : list Z * nat) (out : list Z) (size : nat) (b : Z) :
  plain char_signed b -> written st out size ->
  (length out + length (escape_byte b) < size)%nat ->
  exists st', copy_char char_signed st b = Some st'
    /\ written st' (out ++ escape_byte b) size.
Proof.
  intros Hb (Hl & Hn & Ht) Hroom. destruct st as [path len]; simpl in *.
  unfold copy_char. rewrite char_value_plain by exact Hb.
  unfold escape_byte in *. destruct (is_alnum b); simpl in Hroom.
  - rewrite store_Some by lia. eexists; split; [reflexivity|].
    unfold written; simpl. rewrite length_insert, length_app, take_S_insert by lia.
    rewrite Ht. simpl. repeat split; lia.
  - rewrite store_Some by lia.
    rewrite sprintf_02x_byte by (apply plain_c_byte in Hb; unfold c_byte in Hb; lia).
    set (ds := [hex_digit (b / 16); hex_digit (b mod 16); 0]).
    destruct (store_bytes_spec ds (<[len:=95]> path) (S len)) as (p2 & Hs & Hl2 & Ht2).
    { rewrite length_insert. simpl. lia. }
    rewrite Hs. eexists; split; [reflexivity|].
    rewrite length_insert in Hl2. rewrite take_S_insert, Ht in Ht2 by lia.
    unfold written; simpl. rewrite length_app. simpl.
    split; [lia|]. split; [lia|].
    assert (E : take (S (len + 2)) p2 = take (S (len + 2)) (take (S len + length ds) p2)).
    { rewrite take_take. f_equal. simpl. lia. }
    rewrite E, Ht2. subst ds. 
    replace ((out ++ [95]) ++ [hex_digit (b / 16); hex_digit (b mod 16); 0])
      with ((out ++ [95; hex_digit (b / 16); hex_digit (b mod 16)]) ++ [0])
      by (rewrite <- !app_assoc; reflexivity).
    apply take_app_length'. rewrite length_app. simpl. lia.
Qed.

Lemma copy_chars_spec (arg : list Z) : forall (st : list Z * nat) (out : list Z) (size : nat),
  Forall (plain char_signed) arg -> written st out size ->
  (length out + length (escape arg) < size)%nat ->
  exists st', fold_opt (copy_char char_signed) arg st = Some st'
    /\ written st' (out ++ escape arg) size.
Proof.
  induction arg as [|b r IH]; intros st out size Hp Hw Hroom; simpl in *.
  - exists st. rewrite app_nil_r. auto.
  - inversion Hp as [|? ? Hb Hr]; subst. rewrite length_app in Hroom.
    destruct (copy_char_spec st out size b Hb Hw) as (st1 & E1 & Hw1); [lia|].
    rewrite E1.
    destruct (IH st1 (out ++ escape_byte b) size Hr Hw1) as (st2 & E2 & Hw2).
    { rewrite length_app. lia. }
    exists st2. rewrite <- app_assoc in Hw2. auto.
Qed.

Lemma copy_arg_spec (st : list Z * nat) (out : list Z) (size : nat) (arg : list Z) :
  Forall (plain char_signed) arg -> written st out size ->
  (length out + S (length (escape arg)) < size)%nat ->
  exists st', copy_arg char_signed st arg = Some st'
    /\ written st' (out ++ 47 :: escape arg) size.
Proof.
  intros Hp (Hl & Hn & Ht) Hroom. destruct st as [path len]; simpl in *.
  unfold copy_arg. rewrite store_Some by lia.
  destruct (copy_chars_spec arg (<[len:=47]> path, S len) (out ++ [47]) size Hp)
    as (st' & E & Hw).
  - unfold written; simpl. rewrite length_insert, length_app, take_S_insert by lia.
    rewrite Ht. simpl. repeat split; lia.
  - rewrite length_app. simpl. lia.
  - exists st'. rewrite <- app_assoc in Hw. auto.
Qed.

Lemma copy_args_spec (args : list (list Z)) : forall (st : list Z * nat) (out : list Z) (size : nat),
  Forall (Forall (plain char_signed)) args -> written st out size ->
  (length out + length (joined args) < size)%nat ->
  exists st', fold_opt (copy_arg char_signed) args st = Some st'
    /\ written st' (out ++ joined args) size.
Proof.
  induction args as [|a r IH]; intros st out size Hp Hw Hroom; simpl in *.
  - exists st. rewrite app_nil_r. auto.
  - inversion Hp as [|? ? Ha Hr]; subst. rewrite length_app in Hroom.
    destruct (copy_arg_spec st out size a Ha Hw) as (st1 & E1 & Hw1); [lia|].
    rewrite E1.
    destruct (IH st1 (out ++ 47 :: escape a) size Hr Hw1) as (st2 & E2 & Hw2).
    { rewrite length_app. simpl. lia. }
    exists st2. rewrite <- app_assoc in Hw2. auto.
Qed.

(** The first pass computes exactly the length the second pass writes. *)
Lemma arg_len_spec (arg : list Z) : forall len : nat,
  Forall (plain char_signed) arg ->
  arg_len char_signed len arg = (len + length (escape arg))%nat.
Proof.
  unfold arg_len. induction arg as [|b r IH]; intros len Hp; simpl; [lia|].
  inversion Hp as [|? ? Hb Hr]; subst.
  rewrite IH by exact Hr. rewrite char_value_plain by exact Hb.
  rewrite length_app. unfold escape_byte. destruct (is_alnum b); simpl; lia.
Qed.

Lemma path_len_from (args : list (list Z)) : forall len : nat,
  Forall (Forall (plain char_signed)) args ->
  fold_left (fun len arg => arg_len char_signed (len + 1) arg) args len
  = (len + length (joined args))%nat.
Proof.
  induction args as [|a r IH]; intros len Hp; simpl; [lia|].
  inversion Hp as [|? ? Ha Hr]; subst.
  rewrite IH by exact Hr. rewrite arg_len_spec by exact Ha.
  rewrite length_app. simpl. lia.
Qed.

Lemma joined_nonzero (args : list (list Z)) :
  Forall (Forall (plain char_signed)) args ->
  Forall (fun c => c <> 0) (joined args).
Proof.
  induction 1 as [|a r Ha _ IH]; simpl; [constructor|].
  constructor; [lia|]. apply Forall_app; split; [|exact IH].
  clear IH. induction Ha as [|b a Hb _ IHa]; simpl; [constructor|].
  apply Forall_app; split; [|exact IHa].
  apply escape_byte_nonzero, plain_c_byte, Hb.
Qed.

Variable nih_alloc : nat -> option (list Z).
Hypothesis nih_alloc_size : forall n b, nih_alloc n = Some b -> length b = n.

(** When no byte of a component has a negative [char] value, the call
    returns [NULL] or the root followed by the escaped components. *)
Lemma nih_dbus_path_plain (root : list Z) (args : list (list Z)) :
  Forall c_byte root -> Forall (Forall (plain char_signed)) args ->
  nih_dbus_path char_signed nih_alloc root args =
  match nih_alloc (path_len char_signed root args + 1) with
  | Some _ => PathOk (root ++ joined args)
  | None => PathNull
  end.
Proof.
  intros Hroot Hargs. unfold nih_dbus_path.
  destruct (nih_alloc _) as [blk|] eqn:Ha; [|reflexivity].
  apply nih_alloc_size in Ha. unfold path_len in Ha.
  rewrite path_len_from in Ha by exact Hargs.
  destruct (store_bytes_spec (root ++ [0]) blk 0) as (p1 & E1 & Hl1 & Ht1).
  { rewrite length_app. simpl. lia. }
  rewrite E1. simpl in Ht1. rewrite length_app in Ht1. simpl in Ht1.
  destruct (copy_args_spec args (p1, length root) root (length blk) Hargs)
    as ([p2 len2] & E2 & Hl2 & Hn2 & Ht2).
  - unfold written; simpl. repeat split; [lia|].
    transitivity (take (length root) (take (length root + 1) p1)).
    + rewrite take_take. f_equal. lia.
    + rewrite Ht1. apply take_app_length.
  - lia.
  - rewrite E2. simpl in *. rewrite length_app in Hn2.
    rewrite store_Some by lia. f_equal.
    assert (E : <[len2:=0]> p2 = (root ++ joined args) ++ [0]).
    { rewrite <- Ht2, <- take_S_insert by lia.
      symmetry. apply take_ge. rewrite length_insert. lia. }
    rewrite E, c_string_app; [simpl; apply app_nil_r|].
    apply Forall_app; split; [|apply joined_nonzero; exact Hargs].
    eapply Forall_impl; [exact Hroot|]. unfold c_byte. intros; lia.
Qed.

(** Whatever the components hold, the bytes of the root are never
    written again once [strcpy] has stored them. *)
Lemma store_bytes_inv (bs : list Z) : forall (buf buf' : list Z) (i : nat),
  store_bytes buf i bs = Some buf' ->
  length buf' = length buf /\ take (i + length bs) buf' = take i buf ++ bs.
Proof.
  induction bs as [|b r IH]; intros buf buf' i Hst; simpl in Hst.
  - injection Hst as <-. simpl. rewrite Nat.add_0_r, app_nil_r. auto.
  - destruct (store buf i b) as [buf1|] eqn:E; [|discriminate].
    apply store_inv in E as [Hi ->].
    destruct (IH _ _ _ Hst) as [Hl Ht]. rewrite length_insert in Hl.
    split; [exact Hl|]. simpl.
    replace (i + S (length r))%nat with (S i + length r)%nat by lia.
    rewrite Ht, take_S_insert by lia. rewrite <- app_assoc. reflexivity.
Qed.

Definition keeps (n : nat) (st st' : list Z * nat) : Prop :=
  length st'.1 = length st.1 /\ (st.2 <= st'.2)%nat /\ take n st'.1 = take n st.1.

Lemma fold_opt_keeps {A : Type} (f : list Z * nat -> A -> option (list Z * nat)) (n : nat) :
  (forall st st' a, f st a = Some st' -> (n <= st.2)%nat -> keeps n st st') ->
  forall l st st', fold_opt f l st = Some st' -> (n <= st.2)%nat -> keeps n st st'.
Proof.
  intros Hf. induction l as [|a r IH]; intros st st' Hfold Hn; simpl in Hfold.
  - injection Hfold as <-. unfold keeps. auto.
  - destruct (f st a) as [st1|] eqn:E; [|discriminate].
    destruct (Hf _ _ _ E Hn) as (Hl1 & Hn1 & Ht1).
    destruct (IH _ _ Hfold ltac:(lia)) as (Hl2 & Hn2 & Ht2).
    unfold keeps. rewrite Hl2, Ht2. repeat split; [assumption | lia | assumption].
Qed.

Lemma copy_char_keeps (n : nat) (st st' : list Z * nat) (b : Z) :
  copy_char char_signed st b = Some st' -> (n <= st.2)%nat -> keeps n st st'.
Proof.
  destruct st as [path len]. unfold copy_char, keeps. simpl. intros H Hn.
  destruct (is_alnum _).
  - destruct (store path len b) as [p1|] eqn:E; [|discriminate].
    apply store_inv in E as [Hi ->]. injection H as <-. simpl.
    rewrite length_insert, take_insert_ge by lia. repeat split; lia.
  - destruct (store path len 95) as [p1|] eqn:E; [|discriminate].
    apply store_inv in E as [Hi ->].
    destruct (store_bytes _ _ _) as [p2|] eqn:E2; [|discriminate].
    injection H as <-. simpl.
    destruct (store_bytes_below _ _ _ _ n E2 ltac:(lia)) as [Hl Ht].
    rewrite Hl, Ht, length_insert, take_insert_ge by lia. repeat split; lia.
Qed.

Lemma copy_arg_keeps (n : nat) (st st' : list Z * nat) (arg : list Z) :
  copy_arg char_signed st arg = Some st' -> (n <= st.2)%nat -> keeps n st st'.
Proof.
  destruct st as [path len]. unfold copy_arg. simpl. intros H Hn.
  destruct (store path len 47) as [p1|] eqn:E; [|discriminate].
  apply store_inv in E as [Hi ->].
  destruct (fold_opt_keeps _ n (copy_char_keeps n) _ _ _ H) as (Hl & Hn' & Ht);
    simpl in *; [lia|].
  unfold keeps; simpl.
  rewrite Hl, Ht, length_insert, take_insert_ge by lia. repeat split; lia.
Qed.

Lemma nih_dbus_path_root_prefix (root : list Z) (args : list (list Z)) (path : list Z) :
  Forall c_byte root ->
  nih_dbus_path char_signed nih_alloc root args = PathOk path ->
  exists rest, path = root ++ rest.
Proof.
  intros Hroot. unfold nih_dbus_path.
  destruct (nih_alloc _) as [blk|]; [|discriminate].
  destruct (store_bytes blk 0 (root ++ [0])) as [p1|] eqn:E1; [|discriminate].
  destruct (fold_opt _ _ _) as [[p2 len2]|] eqn:E2; [|discriminate].
  destruct (store p2 len2 0) as [p3|] eqn:E3; [|discriminate].
  intros [= <-].
  apply store_bytes_inv in E1 as [Hl1 Ht1]. rewrite length_app in Ht1. simpl in Ht1.
  destruct (fold_opt_keeps _ (length root) (copy_arg_keeps (length root)) _ _ _ E2)
    as (Hl2 & Hn2 & Ht2); simpl in *; [lia|].
  apply store_inv in E3 as [Hi ->].
  assert (Hr : take (length root) (<[len2:=0]> p2) = root).
  { rewrite take_insert_ge, Ht2 by lia.
    transitivity (take (length root) (take (length root + 1) p1)).
    - rewrite take_take. f_equal. lia.
    - rewrite Ht1. apply take_app_length. }
  exists (c_string (drop (length root) (<[len2:=0]> p2))).
  rewrite <- (take_drop (length root) (<[len2:=0]> p2)) at 1.
  rewrite Hr. apply c_string_app.
  eapply Forall_impl; [exact Hroot|]. unfold c_byte. intros; lia.
Qed.

End encoding.

(** Closes [Forall c_byte s] and [Forall (plain sgn) s] for a literal [s]
    of ASCII bytes. *)
Ltac bytes_ok :=
  match goal with
  | |- Forall ?P ?l => let l' := eval vm_compute in l in change (Forall P l')
  end;
  repeat (apply List.Forall_cons;
          [unfold c_byte, plain;
           try match goal with |- context [if ?s then _ else _] => destruct s end; lia|]);
  apply List.Forall_nil.

(** C1, as amended: every component byte whose [char] value is not
    negative (all of ASCII) is copied through when it is in [A-Za-z0-9] and
    is otherwise replaced by ['_'] and its two lowercase hexadecimal
    digits; [make_path (root, x)] is the root followed by a string that
    matches [^/[A-Za-z0-9_]+$] when [x] is not empty; the three examples
    of the specification evaluate as written. *)
Theorem nih_dbus_path_escapes_components
  (char_signed : bool) (nih_alloc : nat -> option (list Z)) :
  (forall n b, nih_alloc n = Some b -> length b = n) ->
  (forall n, nih_alloc n <> None) ->
  (forall root args,
     Forall c_byte root -> Forall (Forall (plain char_signed)) args ->
     nih_dbus_path char_signed nih_alloc root args = PathOk (root ++ joined args))
  /\ (forall root x,
        Forall c_byte root -> Forall (plain char_signed) x -> x <> [] ->
        nih_dbus_path char_signed nih_alloc root [x] = PathOk (root ++ 47 :: escape x)
        /\ matches_component_re (47 :: escape x) = true)
  /\ nih_dbus_path char_signed nih_alloc (bytes "/com/example") [bytes "foo.bar"]
     = PathOk (bytes "/com/example/foo_2ebar")
  /\ nih_dbus_path char_signed nih_alloc (bytes "/x") [bytes "a/b"]
     = PathOk (bytes "/x/a_2fb")
  /\ nih_dbus_path char_signed nih_alloc (bytes "/x") [bytes "abc"]
     = PathOk (bytes "/x/abc").
Proof.
  intros Hsize Hmem.
  assert (Hall : forall root args,
     Forall c_byte root -> Forall (Forall (plain char_signed)) args ->
     nih_dbus_path char_signed nih_alloc root args = PathOk (root ++ joined args)).
  { intros root args Hroot Hargs.
    rewrite (nih_dbus_path_plain char_signed nih_alloc Hsize root args Hroot Hargs).
    destruct (nih_alloc _) eqn:E; [reflexivity | exfalso; exact (Hmem _ E)]. }
  split; [exact Hall|]. split.
  { intros root x Hroot Hx Hne. split.
    - rewrite Hall by (try assumption; repeat constructor; assumption).
      simpl. rewrite app_nil_r. reflexivity.
    - destruct x as [|b r]; [contradiction|]. simpl.
      inversion Hx as [|? ? Hb Hr]; subst.
      destruct (escape_byte b ++ escape r) as [|c t] eqn:E.
      { apply app_eq_nil in E as [E _]. exfalso. exact (escape_byte_nonempty b E). }
      rewrite <- E. apply (escape_word (b :: r)).
      eapply Forall_impl; [exact Hx|]. apply plain_c_byte. }
  repeat split; (rewrite Hall; [reflexivity | bytes_ok | constructor; [bytes_ok | constructor]]).
Qed.

(** The theorem at a concrete call, on a target whose [char] is signed. *)
Lemma nih_dbus_path_escapes_components_witness :
  nih_dbus_path true alloc_filled (bytes "/com/ubuntu") [bytes "tty-1"; bytes "eth0:1"]
  = PathOk (bytes "/com/ubuntu/tty_2d1/eth0_3a1").
Proof.
  destruct (nih_dbus_path_escapes_components true alloc_filled) as [Hall _].
  - intros n b [= <-]. apply length_replicate.
  - intros n. discriminate.
  - rewrite Hall; [reflexivity | bytes_ok | repeat (constructor; [bytes_ok|]); constructor].
Defined.

(** C1 as the specification states it fails: the output carries the
    root, so it has more than one ['/'] and does not match the
    expression as a whole. *)
Lemma nih_dbus_path_not_single_component :
  nih_dbus_path true alloc_filled (bytes "/x") [bytes "abc"] = PathOk (bytes "/x/abc")
  /\ matches_component_re (bytes "/x/abc") = false.
Proof. split; reflexivity. Qed.

(** Where [char] is signed, a byte from 0x80 up is promoted to a negative
    [int] and [%02x] prints eight digits of which [len += 2] keeps two:
    the escape reads [_ff] whatever the byte, and the write runs past the
    block unless six more bytes follow. *)
Lemma nih_dbus_path_signed_high_byte :
  nih_dbus_path true alloc_filled (bytes "/x") [[233]] = PathOverrun
  /\ nih_dbus_path true alloc_filled (bytes "/x") [233 :: bytes "abcdef"]
     = PathOk (bytes "/x/_ffabcdef")
  /\ nih_dbus_path false alloc_filled (bytes "/x") [[233]] = PathOk (bytes "/x/_e9").
Proof. repeat split; reflexivity. Qed.

(** C10: the root is copied verbatim, whatever bytes it holds; with no
    component the result is the root itself; the escaping applies to the
    components only. *)
Theorem nih_dbus_path_keeps_root
  (char_signed : bool) (nih_alloc : nat -> option (list Z)) :
  (forall n b, nih_alloc n = Some b -> length b = n) ->
  (forall n, nih_alloc n <> None) ->
  forall root, Forall c_byte root ->
    nih_dbus_path char_signed nih_alloc root [] = PathOk root
    /\ (forall args, Forall (Forall (plain char_signed)) args ->
          nih_dbus_path char_signed nih_alloc root args = PathOk (root ++ joined args))
    /\ (forall args path,
          nih_dbus_path char_signed nih_alloc root args = PathOk path ->
          exists rest, path = root ++ rest).
Proof.
  intros Hsize Hmem root Hroot.
  assert (Hall : forall args, Forall (Forall (plain char_signed)) args ->
     nih_dbus_path char_signed nih_alloc root args = PathOk (root ++ joined args)).
  { intros args Hargs.
    rewrite (nih_dbus_path_plain char_signed nih_alloc Hsize root args Hroot Hargs).
    destruct (nih_alloc _) eqn:E; [reflexivity | exfalso; exact (Hmem _ E)]. }
  split; [|split].
  - rewrite Hall by constructor. simpl. rewrite app_nil_r. reflexivity.
  - exact Hall.
  - intros args path. apply nih_dbus_path_root_prefix; assumption.
Qed.

(** The theorem at a root with bytes outside [A-Za-z0-9]. *)
Lemma nih_dbus_path_keeps_root_witness :
  nih_dbus_path true alloc_filled (bytes "/com/my-app.v2") [] = PathOk (bytes "/com/my-app.v2")
  /\ nih_dbus_path true alloc_filled (bytes "/com/my-app.v2") [bytes "my-app"]
     = PathOk (bytes "/com/my-app.v2/my_2dapp").
Proof.
  destruct (nih_dbus_path_keeps_root true alloc_filled) with (root := bytes "/com/my-app.v2")
    as (H0 & Hall & _).
  - intros n b [= <-]. apply length_replicate.
  - intros n. discriminate.
  - bytes_ok.
  - split; [exact H0|]. rewrite Hall; [reflexivity|].
    constructor; [bytes_ok | constructor].
Defined.

End PathProps.

(** ** Timeouts *)
Module TimeoutProps.
Import Timeout.

(** [ceil_div a b] is the least integer not below [a / b]. *)
Lemma ceil_div_spec (a b : Z) :
  0 < b -> b * (ceil_div a b - 1) < a <= b * ceil_div a b.
Proof.
  intros Hb. unfold ceil_div.
  pose proof (Z.div_mod (- a) b ltac:(lia)) as Hdm.
  pose proof (Z.mod_pos_bound (- a) b Hb) as Hr.
  nia.
Qed.

(** On a positive interval the C expression is the ceiling; on 0 it is 1. *)
Lemma timer_period_positive (ms : Z) :
  1 <= ms -> timer_period ms = ceil_div ms 1000.
Proof.
  intros Hms. unfold timer_period, ceil_div.
  rewrite Z.quot_div_nonneg by lia.
  pose proof (Z.div_mod (ms - 1) 1000 ltac:(lia)) as Hdm.
  pose proof (Z.mod_pos_bound (ms - 1) 1000 ltac:(lia)) as Hr.
  assert (E : - ((ms - 1) `div` 1000) - 1 = (- ms) `div` 1000).
  { apply (Z.div_unique (- ms) 1000 _ (999 - (ms - 1) `mod` 1000)); lia. }
  lia.
Qed.

Lemma timer_period_nonneg (ms : Z) :
  0 <= ms -> timer_period ms = Z.max 1 (ceil_div ms 1000).
Proof.
  intros Hms. destruct (Z.eq_dec ms 0) as [->|Hne]; [reflexivity|].
  rewrite timer_period_positive by lia.
  pose proof (ceil_div_spec ms 1000 ltac:(lia)). lia.
Qed.

(** The add callback pairs the timeout with a fresh timer of the period
    computed from the interval. *)
Lemma nih_dbus_add_timeout_timer (lp : loop) (t : nat) (dt : DBusTimeout) (now : Z) :
  timeouts lp !! t = Some dt -> timeout_data dt = None ->
  exists lp', nih_dbus_add_timeout true now t lp = Some (true, lp')
    /\ timer_of lp' t = Some {| period := timer_period (interval dt);
                                due := now + timer_period (interval dt);
                                timer_data := t |}.
Proof.
  intros Ht Hd. unfold nih_dbus_add_timeout. rewrite Ht, Hd. simpl.
  eexists; split; [reflexivity|].
  unfold timer_of.
  destruct (timeout_enabled dt); simpl;
    rewrite lookup_alter_eq, Ht; simpl; apply lookup_insert_eq.
Qed.

(** The toggle callback re-reads the interval and re-seats the due time. *)
Lemma nih_dbus_timeout_toggled_timer
  (lp : loop) (t : nat) (dt : DBusTimeout) (timer : nat) (tm : NihTimer) (now : Z) :
  timeouts lp !! t = Some dt -> timeout_data dt = Some timer ->
  timers lp !! timer = Some tm ->
  exists lp', nih_dbus_timeout_toggled now t lp = Some lp'
    /\ timer_of lp' t = Some {| period := timer_period (interval dt);
                                due := now + timer_period (interval dt);
                                timer_data := timer_data tm |}.
Proof.
  intros Ht Hd Htm. unfold nih_dbus_timeout_toggled. rewrite Ht, Hd, Htm.
  eexists; split; [reflexivity|].
  unfold timer_of. simpl. rewrite Ht, Hd. apply lookup_insert_eq.
Qed.

(** The period of timeout [t]'s timer after the library's events [evs] on
    an empty loop. *)
Definition period_after (evs : list event) (t : nat) : option Z :=
  match fold_opt (step 0) evs empty_loop with
  | Some lp => period <$> timer_of lp t
  | None => None
  end.

(** C2, as amended: for an interval of [ms >= 0] milliseconds the add and
    the toggle callbacks both set the period of the host timer to
    [(ms - 1) / 1000 + 1], which is [max (1, ceil (ms / 1000))] seconds:
    the ceiling for [ms >= 1], and 1 for [ms = 0].  250 ms gives 1, 1500 ms
    gives 2, 0 ms gives 1, and a toggle with 2500 ms moves the period to 3. *)
Theorem timeout_period_rounds_up (ms : Z) :
  0 <= ms <= INT_MAX ->
  (forall lp t enabled now,
     timeouts lp !! t = Some {| interval := ms; timeout_enabled := enabled;
                                timeout_data := None |} ->
     exists lp', nih_dbus_add_timeout true now t lp = Some (true, lp')
       /\ period <$> timer_of lp' t = Some (Z.max 1 (ceil_div ms 1000)))
  /\ (forall lp t enabled timer tm now,
        timeouts lp !! t = Some {| interval := ms; timeout_enabled := enabled;
                                   timeout_data := Some timer |} ->
        timers lp !! timer = Some tm ->
        exists lp', nih_dbus_timeout_toggled now t lp = Some lp'
          /\ period <$> timer_of lp' t = Some (Z.max 1 (ceil_div ms 1000))
          /\ due <$> timer_of lp' t = Some (now + Z.max 1 (ceil_div ms 1000)))
  /\ (1 <= ms -> Z.max 1 (ceil_div ms 1000) = ceil_div ms 1000)
  /\ period_after [LibAdd 7 250 true true] 7 = Some 1
  /\ period_after [LibAdd 7 1500 true true] 7 = Some 2
  /\ period_after [LibAdd 7 0 true true] 7 = Some 1
  /\ period_after [LibAdd 7 1500 true true; LibToggle 7 2500 true] 7 = Some 3.
Proof.
  intros [Hms _]. split; [|split; [|split]].
  - intros lp t enabled now Ht.
    destruct (nih_dbus_add_timeout_timer lp t _ now Ht eq_refl) as (lp' & E & Htm).
    exists lp'. split; [exact E|]. rewrite Htm. simpl.
    rewrite timer_period_nonneg by exact Hms. reflexivity.
  - intros lp t enabled timer tm now Ht Htm.
    destruct (nih_dbus_timeout_toggled_timer lp t _ timer tm now Ht eq_refl Htm)
      as (lp' & E & Htm').
    exists lp'. split; [exact E|]. rewrite Htm'. simpl.
    rewrite timer_period_nonneg by exact Hms. split; reflexivity.
  - intros H1. rewrite <- timer_period_nonneg, timer_period_positive by lia.
    reflexivity.
  - repeat split; vm_compute; reflexivity.
Qed.

(** The theorem at 1500 ms. *)
Lemma timeout_period_rounds_up_witness :
  0 <= 1500 <= INT_MAX
  /\ period_after [LibAdd 7 1500 true true; LibToggle 7 2500 true] 7 = Some 3
  /\ Z.max 1 (ceil_div 1500 1000) = 2.
Proof.
  assert (H : 0 <= 1500 <= INT_MAX) by (unfold INT_MAX; lia).
  split; [exact H|].
  destruct (timeout_period_rounds_up 1500 H) as (_ & _ & _ & _ & _ & _ & E).
  split; [exact E | reflexivity].
Defined.

(** C2 as the specification states it fails at 0 ms: the ceiling of 0 is 0
    and the timer gets a period of 1. *)
Lemma timeout_period_zero_is_not_ceiling :
  period_after [LibAdd 7 0 true true] 7 = Some 1
  /\ period_after [LibAdd 7 1500 true true; LibToggle 7 0 true] 7 = Some 1
  /\ ceil_div 0 1000 = 0.
Proof. repeat split; vm_compute; reflexivity. Qed.

End TimeoutProps.

(** ** The host loop's lists *)
Module ListProps.

Lemma elem_of_nih_list_remove (e x : nat) (l : list nat) :
  x ∈ nih_list_remove e l <-> x ∈ l /\ x <> e.
Proof. unfold nih_list_remove. rewrite list_elem_of_filter. tauto. Qed.

Lemma elem_of_nih_list_add (e x : nat) (l : list nat) :
  x ∈ nih_list_add e l <-> x = e \/ x ∈ l.
Proof.
  unfold nih_list_add. rewrite elem_of_app, elem_of_nih_list_remove, list_elem_of_singleton.
  destruct (decide (x = e)); tauto.
Qed.

Lemma NoDup_nih_list_remove (e : nat) (l : list nat) :
  NoDup l -> NoDup (nih_list_remove e l).
Proof. apply NoDup_filter. Qed.

(** An entry is one node: adding it never makes it stand twice. *)
Lemma NoDup_nih_list_add (e : nat) (l : list nat) :
  NoDup l -> NoDup (nih_list_add e l).
Proof.
  intros Hl. unfold nih_list_add. apply NoDup_app. split; [|split].
  - apply NoDup_nih_list_remove, Hl.
  - intros x Hx Hx'. apply elem_of_nih_list_remove in Hx as [_ Hne].
    apply list_elem_of_singleton in Hx'. contradiction.
  - apply NoDup_singleton.
Qed.

Lemma nih_list_remove_absent (e : nat) (l : list nat) :
  e ∉ l -> nih_list_remove e l = l.
Proof.
  intros He. unfold nih_list_remove. induction l as [|x l IH]; [reflexivity|].
  apply not_elem_of_cons in He as [Hne He].
  rewrite filter_cons_True by congruence. rewrite IH by exact He. reflexivity.
Qed.

Lemma occurrences_NoDup (e : nat) (l : list nat) :
  NoDup l -> occurrences e l = if decide (e ∈ l) then 1%nat else 0%nat.
Proof.
  unfold occurrences. induction 1 as [|x l Hx Hl IH]; [reflexivity|].
  rewrite filter_cons. destruct (decide (x = e)) as [->|Hne]; simpl.
  - rewrite IH. destruct (decide (e ∈ l)); [contradiction|].
    destruct (decide (e ∈ e :: l)) as [|Hn]; [reflexivity|].
    exfalso. apply Hn. left.
  - rewrite IH. destruct (decide (e ∈ l)) as [Hin|Hin];
      destruct (decide (e ∈ x :: l)) as [Hin'|Hin']; try reflexivity.
    + exfalso. apply Hin'. right. exact Hin.
    + apply elem_of_cons in Hin' as [->|Hin']; [congruence | contradiction].
Qed.

(** Taking an entry out and putting it back keeps the set of entries. *)
Lemma nih_list_add_remove_perm (e : nat) (l : list nat) :
  NoDup l -> e ∈ l -> nih_list_add e (nih_list_remove e l) ≡ₚ l.
Proof.
  intros Hl He. apply NoDup_Permutation.
  - apply NoDup_nih_list_add, NoDup_nih_list_remove, Hl.
  - exact Hl.
  - intros x. rewrite elem_of_nih_list_add, elem_of_nih_list_remove.
    destruct (decide (x = e)) as [->|]; tauto.
Qed.

End ListProps.

(** ** Watches *)
Module WatchProps.
Import Watch ListProps.

(** The library's change of the enabled flag touches nothing else. *)
Lemma lookup_set_enabled (w : nat) (en : bool) (lp : loop) (w' : nat) (dw' : DBusWatch) :
  watches (set_enabled w en lp) !! w' = Some dw' ->
  exists dw0, watches lp !! w' = Some dw0
    /\ watch_data dw' = watch_data dw0
    /\ watch_enabled dw' = (if decide (w' = w) then en else watch_enabled dw0).
Proof.
  simpl. rewrite lookup_alter. destruct (decide (w = w')) as [->|Hne].
  - destruct (watches lp !! w') as [dw0|]; simpl; [|discriminate].
    intros [= <-]. exists dw0. simpl. destruct (decide (w' = w')); [auto | congruence].
  - intros H. exists dw'. destruct (decide (w' = w)); [congruence | auto].
Qed.

Lemma toggled_consistent (lp lp' : loop) (w : nat) (en : bool) :
  consistent lp ->
  nih_dbus_watch_toggled w (set_enabled w en lp) = Some lp' ->
  consistent lp'.
Proof.
  intros [Hnd Hal Hda Hact Hown] H. unfold nih_dbus_watch_toggled in H.
  destruct (watches (set_enabled w en lp) !! w) as [dw|] eqn:Ew; [|discriminate].
  destruct (lookup_set_enabled _ _ _ _ _ Ew) as (dw0 & Ew0 & Hd & He).
  destruct (decide (w = w)); [|congruence]. subst en.
  destruct (watch_data dw) as [io|] eqn:Ed; [|discriminate].
  assert (Hsplit : forall w1 dw1 io1,
            watches (set_enabled w (watch_enabled dw) lp) !! w1 = Some dw1 ->
            watch_data dw1 = Some io1 ->
            exists dw2, watches lp !! w1 = Some dw2 /\ watch_data dw2 = Some io1
              /\ (w1 = w /\ io1 = io /\ watch_enabled dw1 = watch_enabled dw
                  \/ w1 <> w /\ io1 <> io /\ watch_enabled dw1 = watch_enabled dw2)).
  { intros w1 dw1 io1 E1 D1.
    destruct (lookup_set_enabled _ _ _ _ _ E1) as (dw2 & E2 & Hd2 & He2).
    exists dw2. rewrite <- Hd2. split; [exact E2|]. split; [exact D1|].
    destruct (decide (w1 = w)) as [->|Hne].
    - left. rewrite E1 in Ew. injection Ew as ->. split; [reflexivity|].
      split; congruence.
    - right. split; [exact Hne|]. split; [|exact He2].
      intros ->. apply Hne. eapply Hown; eauto; congruence. }
  destruct (watch_enabled dw) eqn:Een; injection H as <-; constructor; simpl.
  - apply NoDup_nih_list_add, Hnd.
  - intros x Hx. apply elem_of_nih_list_add in Hx as [->|Hx]; [|auto].
    eapply Hda; [exact Ew0 | congruence].
  - intros w1 dw1 io1 E1 D1. destruct (Hsplit _ _ _ E1 D1) as (dw2 & E2 & D2 & _). eauto.
  - intros w1 dw1 io1 E1 D1.
    destruct (Hsplit _ _ _ E1 D1) as (dw2 & E2 & D2 & [(-> & -> & He1)|(Hw & Hio & He1)]);
      rewrite elem_of_nih_list_add, He1.
    + tauto.
    + rewrite <- (Hact _ _ _ E2 D2). tauto.
  - intros w1 w2 dw1 dw2 io1 E1 D1 E2 D2.
    destruct (Hsplit _ _ _ E1 D1) as (dw1' & E1' & D1' & _).
    destruct (Hsplit _ _ _ E2 D2) as (dw2' & E2' & D2' & _). eauto.
  - apply NoDup_nih_list_remove, Hnd.
  - intros x Hx. apply elem_of_nih_list_remove in Hx as [Hx _]. auto.
  - intros w1 dw1 io1 E1 D1. destruct (Hsplit _ _ _ E1 D1) as (dw2 & E2 & D2 & _). eauto.
  - intros w1 dw1 io1 E1 D1.
    destruct (Hsplit _ _ _ E1 D1) as (dw2 & E2 & D2 & [(-> & -> & He1)|(Hw & Hio & He1)]);
      rewrite elem_of_nih_list_remove, He1.
    + split; [tauto | discriminate].
    + rewrite <- (Hact _ _ _ E2 D2). tauto.
  - intros w1 w2 dw1 dw2 io1 E1 D1 E2 D2.
    destruct (Hsplit _ _ _ E1 D1) as (dw1' & E1' & D1' & _).
    destruct (Hsplit _ _ _ E2 D2) as (dw2' & E2' & D2' & _). eauto.
Qed.

Lemma add_consistent (lp lp' : loop) (w : nat) (fd flags : Z) (en ok : bool) :
  consistent lp -> step lp (LibAdd w fd flags en ok) = Some lp' -> consistent lp'.
Proof.
  intros Hc H. pose proof Hc as [Hnd Hal Hda Hact Hown]. simpl in H.
  destruct (watches lp !! w) eqn:Ew; [discriminate|].
  unfold nih_dbus_add_watch in H. simpl in H. rewrite lookup_insert_eq in H. simpl in H.
  destruct (fd <? 0); [discriminate|].
  unfold nih_io_add_watch in H. destruct ok; simpl in H.
  - set (io := fresh (dom (io_watches lp))) in *.
    assert (Hfresh : io_watches lp !! io = None).
    { apply not_elem_of_dom. apply is_fresh. }
    assert (Hnotin : io ∉ nih_io_watches lp).
    { intros Hin. apply Hal in Hin as [x Hx]. congruence. }
    set (dw := {| watch_fd := fd; watch_flags := flags; watch_enabled := en;
                  watch_data := None |}) in *.
    assert (Hsplit : forall w1 dw1 io1,
              alter (fun dw0 => {| watch_fd := watch_fd dw0; watch_flags := watch_flags dw0;
                                   watch_enabled := watch_enabled dw0;
                                   watch_data := Some io |}) w (<[w:=dw]> (watches lp)) !! w1
              = Some dw1 ->
              watch_data dw1 = Some io1 ->
              (w1 = w /\ io1 = io /\ watch_enabled dw1 = en)
              \/ (w1 <> w /\ io1 <> io /\ watches lp !! w1 = Some dw1)).
    { intros w1 dw1 io1 E1 D1. rewrite lookup_alter in E1.
      destruct (decide (w = w1)) as [<-|Hne].
      - rewrite lookup_insert_eq in E1. simpl in E1. injection E1 as <-.
        simpl in D1. left. split; [reflexivity|]. split; [congruence | reflexivity].
      - rewrite lookup_insert_ne in E1 by exact Hne. right.
        split; [congruence|]. split; [|exact E1].
        intros ->. destruct (Hda _ _ _ E1 D1) as [x Hx]. congruence. }
    assert (Hc' : forall l, NoDup l ->
              (forall x, x ∈ l <-> (x = io /\ en = true) \/ x ∈ nih_io_watches lp) ->
              consistent
                {| watches := alter (fun dw0 => {| watch_fd := watch_fd dw0;
                                                   watch_flags := watch_flags dw0;
                                                   watch_enabled := watch_enabled dw0;
                                                   watch_data := Some io |}) w
                                (<[w:=dw]> (watches lp));
                   io_watches := <[io:={| io_fd := fd; io_events := events_of_flags flags;
                                          io_data := w |}]> (io_watches lp);
                   nih_io_watches := l |}).
    { intros l Hl Hmem. constructor; simpl.
      - exact Hl.
      - intros x Hx. rewrite lookup_insert. destruct (decide (io = x)); [eauto|].
        apply Hmem in Hx as [[-> _]|Hx]; [congruence | auto].
      - intros w1 dw1 io1 E1 D1. rewrite lookup_insert.
        destruct (decide (io = io1)); [eauto|].
        destruct (Hsplit _ _ _ E1 D1) as [(_ & -> & _)|(_ & _ & E)]; [congruence | eauto].
      - intros w1 dw1 io1 E1 D1. rewrite Hmem.
        destruct (Hsplit _ _ _ E1 D1) as [(_ & -> & ->)|(_ & Hio & E)].
        + tauto.
        + rewrite <- (Hact _ _ _ E D1). tauto.
      - intros w1 w2 dw1 dw2 io1 E1 D1 E2 D2.
        destruct (Hsplit _ _ _ E1 D1) as [(-> & -> & _)|(_ & Hio1 & E1')];
          destruct (Hsplit _ _ _ E2 D2) as [(-> & Hio2 & _)|(_ & Hio2 & E2')];
          try congruence.
        eauto. }
    destruct en; injection H as <-; apply Hc'; simpl.
    + apply NoDup_nih_list_add, Hnd.
    + intros x. rewrite elem_of_nih_list_add. tauto.
    + apply NoDup_nih_list_remove, NoDup_nih_list_add, Hnd.
    + intros x. rewrite elem_of_nih_list_remove, elem_of_nih_list_add.
      split; [intros [[->|Hx] Hne]; [congruence | tauto]|].
      intros [[_ [=]]|Hx]. split; [tauto | congruence].
  - injection H as <-. unfold drop_watch. simpl.
    rewrite delete_insert_id by exact Ew. destruct lp. exact Hc.
Qed.

Lemma remove_consistent (lp lp' : loop) (w : nat) :
  consistent lp -> step lp (LibRemove w) = Some lp' -> consistent lp'.
Proof.
  intros [Hnd Hal Hda Hact Hown] H. simpl in H. unfold nih_dbus_remove_watch in H.
  destruct (watches lp !! w) as [dw|] eqn:Ew; [|discriminate].
  destruct (watch_data dw) as [io|] eqn:Ed; [|discriminate].
  injection H as <-. unfold drop_watch. simpl.
  assert (Hsplit : forall w1 dw1 io1,
            delete w (alter (fun dw0 => {| watch_fd := watch_fd dw0;
                                           watch_flags := watch_flags dw0;
                                           watch_enabled := watch_enabled dw0;
                                           watch_data := None |}) w (watches lp)) !! w1
            = Some dw1 ->
            watch_data dw1 = Some io1 ->
            w1 <> w /\ io1 <> io /\ watches lp !! w1 = Some dw1).
  { intros w1 dw1 io1 E1 D1. rewrite lookup_delete in E1.
    destruct (decide (w = w1)) as [|Hne]; [discriminate|].
    rewrite lookup_alter_ne in E1 by exact Hne.
    split; [congruence|]. split; [|exact E1].
    intros ->. apply Hne. eapply Hown; eauto. }
  constructor; simpl.
  - apply NoDup_nih_list_remove, Hnd.
  - intros x Hx. apply elem_of_nih_list_remove in Hx as [Hx Hne].
    rewrite lookup_delete_ne by congruence. auto.
  - intros w1 dw1 io1 E1 D1. destruct (Hsplit _ _ _ E1 D1) as (_ & Hio & E).
    rewrite lookup_delete_ne by congruence. eauto.
  - intros w1 dw1 io1 E1 D1. destruct (Hsplit _ _ _ E1 D1) as (_ & Hio & E).
    rewrite elem_of_nih_list_remove, <- (Hact _ _ _ E D1). tauto.
  - intros w1 w2 dw1 dw2 io1 E1 D1 E2 D2.
    destruct (Hsplit _ _ _ E1 D1) as (_ & _ & E1').
    destruct (Hsplit _ _ _ E2 D2) as (_ & _ & E2'). eauto.
Qed.

Lemma step_consistent (lp lp' : loop) (ev : event) :
  consistent lp -> step lp ev = Some lp' -> consistent lp'.
Proof.
  destruct ev.
  - apply add_consistent.
  - apply toggled_consistent.
  - apply remove_consistent.
Qed.

Lemma run_consistent (evs : list event) : forall lp lp',
  consistent lp -> run evs lp = Some lp' -> consistent lp'.
Proof.
  unfold run. induction evs as [|ev evs IH]; intros lp lp' Hc H; simpl in H.
  - injection H as <-. exact Hc.
  - destruct (step lp ev) as [lp1|] eqn:E; [|discriminate].
    eapply IH; [|exact H]. eapply step_consistent; eauto.
Qed.

Lemma empty_loop_consistent : consistent empty_loop.
Proof.
  constructor; simpl.
  - constructor.
  - intros io Hio. apply elem_of_nil in Hio. contradiction.
  - intros w dw io H. rewrite lookup_empty in H. discriminate.
  - intros w dw io H. rewrite lookup_empty in H. discriminate.
  - intros w1 w2 dw1 dw2 io H. rewrite lookup_empty in H. discriminate.
Qed.

(** What a toggle does to a watch that has been added. *)
Lemma toggle_step (lp : loop) (w : nat) (dw : DBusWatch) (io : nat) (en : bool) :
  watches lp !! w = Some dw -> watch_data dw = Some io ->
  step lp (LibToggle w en) =
  Some {| watches := watches (set_enabled w en lp);
          io_watches := io_watches lp;
          nih_io_watches := if en then nih_list_add io (nih_io_watches lp)
                            else nih_list_remove io (nih_io_watches lp) |}.
Proof.
  intros Ew Ed. simpl. unfold nih_dbus_watch_toggled. simpl.
  rewrite lookup_alter_eq, Ew. simpl. rewrite Ed. destruct en; reflexivity.
Qed.

Lemma set_enabled_twice (w : nat) (en1 en2 : bool) (lp : loop) :
  watches (set_enabled w en2 (set_enabled w en1 lp)) = watches (set_enabled w en2 lp).
Proof.
  simpl. apply map_eq. intros j. destruct (decide (w = j)) as [<-|Hne].
  - rewrite !lookup_alter_eq. destruct (watches lp !! w); reflexivity.
  - rewrite !lookup_alter_ne by exact Hne. reflexivity.
Qed.

Lemma empty_loop_paired : paired empty_loop.
Proof.
  constructor.
  - exact empty_loop_consistent.
  - intros w dw H. simpl in H. rewrite lookup_empty in H. discriminate.
  - intros io iw H. simpl in H. rewrite lookup_empty in H. discriminate.
Qed.

Lemma add_paired (lp lp' : loop) (w : nat) (fd flags : Z) (en ok : bool) :
  paired lp -> step lp (LibAdd w fd flags en ok) = Some lp' -> paired lp'.
Proof.
  intros [Hc Hw Ho] H. constructor; [eapply add_consistent; eauto| |];
    simpl in H; destruct (watches lp !! w) eqn:Ew; try discriminate;
    unfold nih_dbus_add_watch in H; simpl in H; rewrite lookup_insert_eq in H; simpl in H;
    (destruct (fd <? 0); [discriminate|]);
    unfold nih_io_add_watch in H; destruct ok; simpl in H.
  - assert (Hfresh : io_watches lp !! fresh (dom (io_watches lp)) = None).
    { apply not_elem_of_dom. apply is_fresh. }
    set (io := fresh (dom (io_watches lp))) in *.
    assert (Hgoal : forall w1 dw1,
              alter (fun dw0 => {| watch_fd := watch_fd dw0; watch_flags := watch_flags dw0;
                                   watch_enabled := watch_enabled dw0;
                                   watch_data := Some io |}) w
                (<[w:={| watch_fd := fd; watch_flags := flags; watch_enabled := en;
                         watch_data := None |}]> (watches lp)) !! w1 = Some dw1 ->
              exists io1 iw, watch_data dw1 = Some io1
                /\ <[io:={| io_fd := fd; io_events := events_of_flags flags;
                            io_data := w |}]> (io_watches lp) !! io1 = Some iw
                /\ io_data iw = w1 /\ io_fd iw = watch_fd dw1
                /\ io_events iw = events_of_flags (watch_flags dw1)).
    { intros w1 dw1 E1. rewrite lookup_alter in E1.
      destruct (decide (w = w1)) as [<-|Hne].
      - rewrite lookup_insert_eq in E1. simpl in E1. injection E1 as <-. simpl.
        exists io. eexists. split; [reflexivity|]. rewrite lookup_insert_eq.
        split; [reflexivity|]. simpl. auto.
      - rewrite lookup_insert_ne in E1 by exact Hne.
        destruct (Hw _ _ E1) as (io1 & iw & Hd & Hi & Hrest).
        exists io1, iw. split; [exact Hd|].
        rewrite lookup_insert_ne by congruence. auto. }
    destruct en; injection H as <-; simpl; exact Hgoal.
  - injection H as <-. unfold drop_watch. simpl.
    rewrite delete_insert_id by exact Ew. exact Hw.
  - assert (Hfresh : io_watches lp !! fresh (dom (io_watches lp)) = None).
    { apply not_elem_of_dom. apply is_fresh. }
    set (io := fresh (dom (io_watches lp))) in *.
    assert (Hgoal : forall io1 iw,
              <[io:={| io_fd := fd; io_events := events_of_flags flags;
                       io_data := w |}]> (io_watches lp) !! io1 = Some iw ->
              exists dw1,
                alter (fun dw0 => {| watch_fd := watch_fd dw0; watch_flags := watch_flags dw0;
                                     watch_enabled := watch_enabled dw0;
                                     watch_data := Some io |}) w
                  (<[w:={| watch_fd := fd; watch_flags := flags; watch_enabled := en;
                           watch_data := None |}]> (watches lp)) !! io_data iw = Some dw1
                /\ watch_data dw1 = Some io1).
    { intros io1 iw E1. destruct (decide (io = io1)) as [<-|Hne].
      - rewrite lookup_insert_eq in E1. injection E1 as <-. simpl.
        rewrite lookup_alter_eq, lookup_insert_eq. simpl. eauto.
      - rewrite lookup_insert_ne in E1 by exact Hne.
        destruct (Ho _ _ E1) as (dw1 & Hd & Hdata).
        exists dw1. split; [|exact Hdata].
        rewrite lookup_alter_ne, lookup_insert_ne by congruence. exact Hd. }
    destruct en; injection H as <-; simpl; exact Hgoal.
  - injection H as <-. unfold drop_watch. simpl.
    rewrite delete_insert_id by exact Ew. exact Ho.
Qed.

Lemma toggled_paired (lp lp' : loop) (w : nat) (en : bool) :
  paired lp -> step lp (LibToggle w en) = Some lp' -> paired lp'.
Proof.
  intros [Hc Hw Ho] H. constructor; [eapply toggled_consistent; eauto| |];
    simpl in H; unfold nih_dbus_watch_toggled in H;
    destruct (watches (set_enabled w en lp) !! w) as [dw|] eqn:Ew; try discriminate;
    destruct (watch_data dw) as [io|]; try discriminate.
  - assert (Hgoal : forall w1 dw1,
              watches (set_enabled w en lp) !! w1 = Some dw1 ->
              exists io1 iw, watch_data dw1 = Some io1 /\ io_watches lp !! io1 = Some iw
                /\ io_data iw = w1 /\ io_fd iw = watch_fd dw1
                /\ io_events iw = events_of_flags (watch_flags dw1)).
    { intros w1 dw1 E1. simpl in E1. rewrite lookup_alter in E1.
      destruct (decide (w = w1)) as [<-|Hne].
      - destruct (watches lp !! w) as [dw0|] eqn:E0; [|discriminate].
        simpl in E1. injection E1 as <-. simpl. apply (Hw _ _ E0).
      - apply (Hw _ _ E1). }
    destruct (watch_enabled dw); injection H as <-; exact Hgoal.
  - assert (Hgoal : forall io1 iw,
              io_watches lp !! io1 = Some iw ->
              exists dw1, watches (set_enabled w en lp) !! io_data iw = Some dw1
                /\ watch_data dw1 = Some io1).
    { intros io1 iw E1. destruct (Ho _ _ E1) as (dw1 & Hd & Hdata). simpl.
      rewrite lookup_alter. destruct (decide (w = io_data iw)) as [->|Hne].
      - rewrite Hd. simpl. eexists. split; [reflexivity|]. exact Hdata.
      - eauto. }
    destruct (watch_enabled dw); injection H as <-; exact Hgoal.
Qed.

Lemma remove_paired (lp lp' : loop) (w : nat) :
  paired lp -> step lp (LibRemove w) = Some lp' -> paired lp'.
Proof.
  intros [Hc Hw Ho] H. constructor; [eapply remove_consistent; eauto| |];
    simpl in H; unfold nih_dbus_remove_watch in H;
    destruct (watches lp !! w) as [dw|] eqn:Ew; try discriminate;
    destruct (watch_data dw) as [io|] eqn:Ed; try discriminate;
    injection H as <-; unfold drop_watch; simpl.
  - intros w1 dw1 E1. rewrite lookup_delete in E1.
    destruct (decide (w = w1)) as [|Hne]; [discriminate|].
    rewrite lookup_alter_ne in E1 by exact Hne.
    destruct (Hw _ _ E1) as (io1 & iw & Hd & Hi & Hrest).
    exists io1, iw. split; [exact Hd|]. split; [|exact Hrest].
    rewrite lookup_delete_ne; [exact Hi|].
    intros <-. apply Hne. eapply (data_owner lp Hc); eauto.
  - intros io1 iw E1. rewrite lookup_delete in E1.
    destruct (decide (io = io1)) as [|Hne]; [discriminate|].
    destruct (Ho _ _ E1) as (dw1 & Hd & Hdata).
    exists dw1. split; [|exact Hdata].
    assert (Hne' : w <> io_data iw).
    { intros Heq. rewrite <- Heq, Ew in Hd. injection Hd as <-. congruence. }
    rewrite lookup_delete_ne, lookup_alter_ne by exact Hne'. exact Hd.
Qed.

Lemma step_paired (lp lp' : loop) (ev : event) :
  paired lp -> step lp ev = Some lp' -> paired lp'.
Proof.
  destruct ev.
  - apply add_paired.
  - apply toggled_paired.
  - apply remove_paired.
Qed.

Lemma run_paired (evs : list event) : forall lp lp',
  paired lp -> run evs lp = Some lp' -> paired lp'.
Proof.
  unfold run. induction evs as [|ev evs IH]; intros lp lp' Hc H; simpl in H.
  - injection H as <-. exact Hc.
  - destruct (step lp ev) as [lp1|] eqn:E; [|discriminate].
    eapply IH; [|exact H]. eapply step_paired; eauto.
Qed.

Lemma filter_ext_in {A : Type} (P Q : A -> Prop)
  `{forall x, Decision (P x)} `{forall x, Decision (Q x)} (l : list A) :
  (forall x, x ∈ l -> (P x <-> Q x)) -> filter P l = filter Q l.
Proof.
  induction l as [|a l IH]; intros Hpq; [reflexivity|].
  rewrite !filter_cons.
  assert (Ha : P a <-> Q a) by (apply Hpq; left).
  rewrite IH by (intros x Hx; apply Hpq; right; exact Hx).
  destruct (decide (P a)), (decide (Q a)); tauto.
Qed.

(** The active host watches made for a D-Bus watch are the occurrences
    of the one handle the watch holds. *)
Lemma host_watches_of_data (lp : loop) (w : nat) (dw : DBusWatch) (io : nat) :
  paired lp -> watches lp !! w = Some dw -> watch_data dw = Some io ->
  host_watches_of lp w = filter (fun e => e = io) (nih_io_watches lp).
Proof.
  intros [Hc Hw Ho] Ew Ed. unfold host_watches_of. apply filter_ext_in.
  intros x Hx. split.
  - intros Hdata. destruct (io_watches lp !! x) as [iw|] eqn:Ex; [|discriminate].
    simpl in Hdata. injection Hdata as Hdata.
    destruct (Ho _ _ Ex) as (dw1 & Hd & Hdata1). rewrite Hdata, Ew in Hd.
    injection Hd as <-. congruence.
  - intros ->. destruct (Hw _ _ Ew) as (io1 & iw & Hd & Hi & Hdata & _).
    rewrite Ed in Hd. injection Hd as <-. rewrite Hi. simpl. congruence.
Qed.

(** C7: after any sequence of add, toggle and remove callbacks, every
    D-Bus watch the loop knows owns one host I/O watch, made for it on
    its file descriptor and for the events of its flags, and no other
    host watch carries it as callback data; the active list holds that
    host watch exactly once when the D-Bus watch is enabled and holds no
    host watch of the D-Bus watch when it is disabled, the host watch
    staying allocated either way; every entry of the active list is the
    host watch of an enabled D-Bus watch and every host watch that is
    allocated is the one of a D-Bus watch; a toggle keeps the record and
    the allocation; and enable, disable, enable leaves the active list
    with the entries it had after the first enable. *)
Theorem watch_active_iff_enabled (evs : list event) (lp0 lp : loop) :
  paired lp0 -> run evs lp0 = Some lp ->
  (forall w dw,
     watches lp !! w = Some dw ->
     length (host_watches_of lp w) = (if watch_enabled dw then 1 else 0)%nat
     /\ exists io iw,
          watch_data dw = Some io /\ io_watches lp !! io = Some iw
          /\ io_data iw = w /\ io_fd iw = watch_fd dw
          /\ io_events iw = events_of_flags (watch_flags dw)
          /\ occurrences io (nih_io_watches lp) = (if watch_enabled dw then 1 else 0)%nat
          /\ (forall io' iw',
                io_watches lp !! io' = Some iw' -> io_data iw' = w -> io' = io))
  /\ (forall io, io ∈ nih_io_watches lp ->
        exists w dw, watches lp !! w = Some dw /\ watch_data dw = Some io
                     /\ watch_enabled dw = true)
  /\ (forall io iw, io_watches lp !! io = Some iw ->
        exists dw, watches lp !! io_data iw = Some dw /\ watch_data dw = Some io)
  /\ (forall w dw io en,
        watches lp !! w = Some dw -> watch_data dw = Some io ->
        exists lp', step lp (LibToggle w en) = Some lp'
          /\ io_watches lp' = io_watches lp
          /\ watch_data <$> watches lp' !! w = Some (Some io))
  /\ (forall w dw io,
        watches lp !! w = Some dw -> watch_data dw = Some io ->
        exists lp1 lp3,
          step lp (LibToggle w true) = Some lp1
          /\ run [LibToggle w false; LibToggle w true] lp1 = Some lp3
          /\ nih_io_watches lp3 ≡ₚ nih_io_watches lp1
          /\ io_watches lp3 = io_watches lp1
          /\ watches lp3 = watches lp1).
Proof.
  intros Hp0 Hrun. pose proof (run_paired _ _ _ Hp0 Hrun) as Hp.
  pose proof Hp as [Hc Hw Ho]. pose proof Hc as [Hnd Hal Hda Hact Hown].
  assert (Hocc : forall w dw io,
            watches lp !! w = Some dw -> watch_data dw = Some io ->
            occurrences io (nih_io_watches lp) = (if watch_enabled dw then 1 else 0)%nat).
  { intros w dw io Ew Ed. rewrite occurrences_NoDup by exact Hnd.
    pose proof (Hact _ _ _ Ew Ed) as Hiff.
    destruct (decide (io ∈ nih_io_watches lp)) as [Hin|Hin];
      destruct (watch_enabled dw); try reflexivity.
    - apply Hiff in Hin. discriminate.
    - exfalso. apply Hin, Hiff. reflexivity. }
  split; [|split; [|split; [|split]]].
  - intros w dw Ew. destruct (Hw _ _ Ew) as (io & iw & Ed & Ei & Hdata & Hfd & Hev).
    split.
    + rewrite (host_watches_of_data lp w dw io Hp Ew Ed). apply (Hocc _ _ _ Ew Ed).
    + exists io, iw. repeat split; try assumption; [apply (Hocc _ _ _ Ew Ed)|].
      intros io' iw' Ei' Hdata'. destruct (Ho _ _ Ei') as (dw' & Ew' & Ed').
      rewrite Hdata', Ew in Ew'. injection Ew' as <-. congruence.
  - intros io Hin. destruct (Hal _ Hin) as [iw Ei].
    destruct (Ho _ _ Ei) as (dw & Ew & Ed).
    exists (io_data iw), dw. split; [exact Ew|]. split; [exact Ed|].
    apply (Hact _ _ _ Ew Ed), Hin.
  - exact Ho.
  - intros w dw io en Ew Ed. eexists. split; [eapply toggle_step; eauto|].
    simpl. split; [reflexivity|]. rewrite lookup_alter_eq, Ew. simpl. congruence.
  - intros w dw io Ew Ed.
    pose proof (toggle_step lp w dw io true Ew Ed) as E1.
    set (lp1 := {| watches := watches (set_enabled w true lp);
                   io_watches := io_watches lp;
                   nih_io_watches := nih_list_add io (nih_io_watches lp) |}) in *.
    assert (Ew1 : watches lp1 !! w
                  = Some {| watch_fd := watch_fd dw; watch_flags := watch_flags dw;
                            watch_enabled := true; watch_data := watch_data dw |}).
    { simpl. rewrite lookup_alter_eq, Ew. reflexivity. }
    pose proof (toggle_step lp1 w _ io false Ew1 Ed) as E2.
    set (lp2 := {| watches := watches (set_enabled w false lp1);
                   io_watches := io_watches lp1;
                   nih_io_watches := nih_list_remove io (nih_io_watches lp1) |}) in *.
    assert (Ew2 : watches lp2 !! w
                  = Some {| watch_fd := watch_fd dw; watch_flags := watch_flags dw;
                            watch_enabled := false; watch_data := watch_data dw |}).
    { change (watches lp2) with (watches (set_enabled w false (set_enabled w true lp))).
      rewrite set_enabled_twice. simpl.
      rewrite lookup_alter_eq, Ew. reflexivity. }
    pose proof (toggle_step lp2 w _ io true Ew2 Ed) as E3.
    exists lp1. eexists. split; [exact E1|]. split.
    { unfold run. cbn [fold_opt]. rewrite E2, E3. reflexivity. }
    cbn [nih_io_watches io_watches watches]. split; [|split].
    + apply nih_list_add_remove_perm.
      * apply NoDup_nih_list_add, Hnd.
      * apply elem_of_nih_list_add. left. reflexivity.
    + reflexivity.
    + change (watches (set_enabled w true (set_enabled w false (set_enabled w true lp)))
              = watches (set_enabled w true lp)).
      rewrite !set_enabled_twice. reflexivity.
Qed.

(** Boundary scenario 4 of the specification: a readable watch on fd 3 is
    added, disabled and enabled again. *)
Definition toggle_round_trip : list event :=
  [LibAdd 1 3 DBUS_WATCH_READABLE true true; LibToggle 1 false; LibToggle 1 true].

(** The theorem on that run, from an empty host loop, and on the run
    that stops while the watch is disabled. *)
Lemma watch_active_iff_enabled_witness :
  (exists lp, run toggle_round_trip empty_loop = Some lp
     /\ nih_io_watches lp = [0%nat]
     /\ forall w dw,
          watches lp !! w = Some dw ->
          length (host_watches_of lp w) = (if watch_enabled dw then 1 else 0)%nat)
  /\ (exists lp, run (take 2 toggle_round_trip) empty_loop = Some lp
        /\ nih_io_watches lp = []
        /\ forall w dw,
             watches lp !! w = Some dw ->
             length (host_watches_of lp w) = (if watch_enabled dw then 1 else 0)%nat).
Proof.
  split.
  - eexists. split; [vm_compute; reflexivity|]. split; [reflexivity|].
    intros w dw Ew.
    eapply (watch_active_iff_enabled toggle_round_trip empty_loop);
      [exact empty_loop_paired | vm_compute; reflexivity | exact Ew].
  - eexists. split; [vm_compute; reflexivity|]. split; [reflexivity|].
    intros w dw Ew.
    eapply (watch_active_iff_enabled (take 2 toggle_round_trip) empty_loop);
      [exact empty_loop_paired | vm_compute; reflexivity | exact Ew].
Defined.

(** At the end of the scenario the host loop has one watch, on fd 3, for
    reading and errors; while the watch is disabled it has none. *)
Lemma toggle_round_trip_run :
  (nih_io_watches <$> run toggle_round_trip empty_loop) = Some [0%nat]
  /\ (run toggle_round_trip empty_loop ≫= fun lp => io_watches lp !! 0%nat)
     = Some {| io_fd := 3; io_events := Z.lor NIH_IO_EXCEPT NIH_IO_READ; io_data := 1 |}
  /\ (nih_io_watches <$> run (take 2 toggle_round_trip) empty_loop) = Some [].
Proof. repeat split; vm_compute; reflexivity. Qed.

End WatchProps.

(** ** Connection setup and the disconnect filter *)
Module ConnProps.
Import DBus Conn.

(** The effects of the filters on a disconnect, in the order they run. *)
Definition filter_effects (fs : list (option nat)) : list effect :=
  flat_map (fun handler => match handler with
                           | Some h => [Handler h; Unref]
                           | None => [Unref]
                           end) fs.

Definition unrefs (t : list effect) : nat :=
  length (filter (fun e => e = Unref) t).

(** A successful first setup installs everything and adds its filter. *)
Lemma setup_first_call (mem : setup_mem) (handler : option nat) (w w' : world) :
  main_loop_data (conn w) = None ->
  nih_dbus_setup mem handler w = (0, w') ->
  conn w' = {| refcount := refcount (conn w);
               main_loop_data := Some (fresh (main_loop_funcs w));
               watch_functions := S (watch_functions (conn w));
               timeout_functions := S (timeout_functions (conn w));
               wakeup_main_function := S (wakeup_main_function (conn w));
               filters := filters (conn w) ++ [handler] |}
  /\ main_loop_funcs w' = main_loop_funcs w ++ [fresh (main_loop_funcs w)]
  /\ trace w' = trace w.
Proof.
  intros Hnone. unfold nih_dbus_setup, setup_first, setup_shared. simpl.
  rewrite Hnone.
  destruct mem as [[] [] [] [] [] []]; simpl; intros [= <-]; auto.
Qed.

(** A successful later setup adds its filter and nothing else. *)
Lemma setup_later_call (mem : setup_mem) (handler : option nat) (w w' : world) :
  is_Some (main_loop_data (conn w)) ->
  nih_dbus_setup mem handler w = (0, w') ->
  conn w' = add_filter handler (conn w)
  /\ main_loop_funcs w' = main_loop_funcs w
  /\ trace w' = trace w.
Proof.
  intros [l Hl]. unfold nih_dbus_setup, setup_shared. simpl. rewrite Hl.
  destruct (slot_ok mem), (filter_ok mem); simpl; intros [= <-]; auto.
Qed.

Lemma setup_each_later (hs : list (setup_mem * option nat)) : forall w w',
  is_Some (main_loop_data (conn w)) ->
  setup_each hs w = Some w' ->
  refcount (conn w') = refcount (conn w)
  /\ main_loop_data (conn w') = main_loop_data (conn w)
  /\ watch_functions (conn w') = watch_functions (conn w)
  /\ timeout_functions (conn w') = timeout_functions (conn w)
  /\ wakeup_main_function (conn w') = wakeup_main_function (conn w)
  /\ filters (conn w') = filters (conn w) ++ map snd hs
  /\ main_loop_funcs w' = main_loop_funcs w
  /\ trace w' = trace w.
Proof.
  unfold setup_each. induction hs as [|[mem h] hs IH]; intros w w' Hset H; simpl in H.
  - injection H as <-. simpl. rewrite app_nil_r. repeat split.
  - destruct (nih_dbus_setup mem h w) as [r w1] eqn:E.
    destruct r as [| |]; try discriminate.
    destruct (setup_later_call _ _ _ _ Hset E) as (Hc & Hf & Ht).
    destruct (IH w1 w') as (H1 & H2 & H3 & H4 & H5 & H6 & H7 & H8).
    { rewrite Hc. exact Hset. }
    { exact H. }
    rewrite H1, H2, H3, H4, H5, H6, H7, H8, Hc, Hf, Ht. simpl.
    rewrite <- app_assoc. repeat split.
Qed.

(** Every filter sees the disconnect, runs its handler and drops one
    reference. *)
Lemma run_filters_disconnected (message : DBusMessage) (fs : list (option nat)) :
  is_disconnected message = true ->
  forall w,
    (run_filters message fs w).1 = DBUS_HANDLER_RESULT_NOT_YET_HANDLED
    /\ refcount (conn (run_filters message fs w).2)
       = refcount (conn w) - Z.of_nat (length fs)
    /\ trace (run_filters message fs w).2 = trace w ++ filter_effects fs.
Proof.
  intros Hm. apply andb_true_iff in Hm as [Hs Hp].
  induction fs as [|h fs IH]; intros w; simpl.
  - rewrite app_nil_r. repeat split. lia.
  - unfold nih_dbus_connection_disconnected. rewrite Hs, Hp. simpl.
    destruct (IH (dbus_connection_unref
                    match h with Some h0 => call_handler h0 w | None => w end))
      as (H1 & H2 & H3).
    rewrite H1, H2, H3. destruct h; simpl; rewrite <- !app_assoc; repeat split; lia.
Qed.

Lemma unrefs_filter_effects (fs : list (option nat)) :
  unrefs (filter_effects fs) = length fs.
Proof.
  unfold unrefs. induction fs as [|[h|] fs IH]; simpl; [reflexivity| |];
    rewrite ?filter_cons; simpl; rewrite IH; reflexivity.
Qed.

Lemma unrefs_app (t1 t2 : list effect) : unrefs (t1 ++ t2) = (unrefs t1 + unrefs t2)%nat.
Proof. unfold unrefs. rewrite filter_app, length_app. reflexivity. Qed.

(** C5: [n >= 1] calls of setup on a connection that had not been set up,
    each returning zero, install the watch, timeout and wakeup functions
    and the main-loop function once, all of it in the first call, and add
    one disconnect filter per call; a disconnect then runs the [n] filters
    and releases [n] references. *)
Theorem setup_installs_once_filters_each
  (mem : setup_mem) (handler : option nat) (hs : list (setup_mem * option nat))
  (w w' : world) :
  main_loop_data (conn w) = None -> filters (conn w) = [] ->
  setup_each ((mem, handler) :: hs) w = Some w' ->
  watch_functions (conn w') = S (watch_functions (conn w))
  /\ timeout_functions (conn w') = S (timeout_functions (conn w))
  /\ wakeup_main_function (conn w') = S (wakeup_main_function (conn w))
  /\ is_Some (main_loop_data (conn w'))
  /\ length (main_loop_funcs w') = S (length (main_loop_funcs w))
  /\ (exists w1, nih_dbus_setup mem handler w = (0, w1)
        /\ watch_functions (conn w1) = watch_functions (conn w')
        /\ timeout_functions (conn w1) = timeout_functions (conn w')
        /\ wakeup_main_function (conn w1) = wakeup_main_function (conn w')
        /\ main_loop_data (conn w1) = main_loop_data (conn w')
        /\ main_loop_funcs w1 = main_loop_funcs w')
  /\ filters (conn w') = handler :: map snd hs
  /\ length (filters (conn w')) = S (length hs)
  /\ forall message, is_disconnected message = true ->
       (dispatch message w').1 = DBUS_HANDLER_RESULT_NOT_YET_HANDLED
       /\ refcount (conn (dispatch message w').2)
          = refcount (conn w') - Z.of_nat (S (length hs))
       /\ unrefs (trace (dispatch message w').2)
          = (unrefs (trace w') + S (length hs))%nat.
Proof.
  intros Hnone Hnil H. unfold setup_each in H. simpl in H.
  destruct (nih_dbus_setup mem handler w) as [r w1] eqn:E.
  destruct r as [| |]; try discriminate.
  destruct (setup_first_call _ _ _ _ Hnone E) as (Hc & Hf & Ht).
  destruct (setup_each_later hs w1 w') as (H1 & H2 & H3 & H4 & H5 & H6 & H7 & H8).
  { rewrite Hc. simpl. eauto. }
  { exact H. }
  assert (Hfil : filters (conn w') = handler :: map snd hs).
  { rewrite H6, Hc. simpl. rewrite Hnil. reflexivity. }
  split; [rewrite H3, Hc; reflexivity|].
  split; [rewrite H4, Hc; reflexivity|].
  split; [rewrite H5, Hc; reflexivity|].
  split; [rewrite H2, Hc; simpl; eauto|].
  split; [rewrite H7, Hf, length_app; simpl; lia|].
  split; [exists w1; auto 10|].
  split; [exact Hfil|].
  split; [rewrite Hfil; simpl; rewrite length_map; reflexivity|].
  intros message Hm. unfold dispatch.
  destruct (run_filters_disconnected message (filters (conn w')) Hm w')
    as (-> & -> & ->).
  rewrite unrefs_app, unrefs_filter_effects, Hfil. simpl. rewrite length_map.
  repeat split.
Qed.

(** Three subsystems set up one connection that holds four references. *)
Lemma setup_installs_once_filters_each_witness :
  exists w',
    setup_each [(all_ok, Some 1%nat); (all_ok, None); (all_ok, Some 2%nat)] (fresh_world 4)
    = Some w'
    /\ watch_functions (conn w') = 1%nat
    /\ filters (conn w') = [Some 1%nat; None; Some 2%nat]
    /\ refcount (conn (dispatch disconnected_signal w').2) = 1.
Proof.
  eexists. split; [vm_compute; reflexivity|].
  destruct (setup_installs_once_filters_each all_ok (Some 1%nat)
              [(all_ok, None); (all_ok, Some 2%nat)] (fresh_world 4) _
              eq_refl eq_refl eq_refl)
    as (Hw & _ & _ & _ & _ & _ & Hf & _ & Hd).
  split; [exact Hw|]. split; [exact Hf|].
  destruct (Hd disconnected_signal eq_refl) as (_ & Hr & _). exact Hr.
Defined.

(** C6: the filter always returns "not yet handled"; on the Disconnected
    signal of the local interface at the local path it calls the handler,
    if there is one, and then releases one reference; on any other
    message it does nothing.  After two setups of one connection a
    disconnect runs both handlers and takes two references. *)
Theorem disconnected_filter_releases_one
  (message : DBusMessage) (handler : option nat) (w : world) :
  nih_dbus_connection_disconnected message handler w
  = (DBUS_HANDLER_RESULT_NOT_YET_HANDLED,
     if is_disconnected message
     then dbus_connection_unref match handler with
                                | Some h => call_handler h w
                                | None => w
                                end
     else w)
  /\ trace (nih_dbus_connection_disconnected message handler w).2
     = trace w ++ (if is_disconnected message
                   then match handler with
                        | Some h => [Handler h; Unref]
                        | None => [Unref]
                        end
                   else [])
  /\ refcount (conn (nih_dbus_connection_disconnected message handler w).2)
     = refcount (conn w) - (if is_disconnected message then 1 else 0)
  /\ forall mem1 mem2 h1 h2 w2,
       main_loop_data (conn w) = None -> filters (conn w) = [] ->
       setup_each [(mem1, h1); (mem2, h2)] w = Some w2 ->
       is_disconnected message = true ->
       (dispatch message w2).1 = DBUS_HANDLER_RESULT_NOT_YET_HANDLED
       /\ trace (dispatch message w2).2 = trace w ++ filter_effects [h1; h2]
       /\ refcount (conn (dispatch message w2).2) = refcount (conn w) - 2.
Proof.
  assert (E : nih_dbus_connection_disconnected message handler w
              = (DBUS_HANDLER_RESULT_NOT_YET_HANDLED,
                 if is_disconnected message
                 then dbus_connection_unref match handler with
                                            | Some h => call_handler h w
                                            | None => w
                                            end
                 else w)).
  { unfold nih_dbus_connection_disconnected, is_disconnected.
    destruct (dbus_message_is_signal _ _ _); simpl; [|reflexivity].
    destruct (dbus_message_has_path _ _); reflexivity. }
  rewrite E. split; [reflexivity|]. simpl. split; [|split].
  - destruct (is_disconnected message); [|symmetry; apply app_nil_r].
    destruct handler; simpl; rewrite <- ?app_assoc; reflexivity.
  - destruct (is_disconnected message); [|lia]. destruct handler; reflexivity.
  - intros mem1 mem2 h1 h2 w2 Hnone Hnil Hset Hm.
    pose proof Hset as Hset'. unfold setup_each in Hset'. simpl in Hset'.
    destruct (nih_dbus_setup mem1 h1 w) as [r w1] eqn:E1.
    destruct r as [| |]; try discriminate.
    destruct (setup_first_call _ _ _ _ Hnone E1) as (Hc1 & _ & Ht1).
    destruct (nih_dbus_setup mem2 h2 w1) as [r w2'] eqn:E2.
    destruct r as [| |]; try discriminate. injection Hset' as ->.
    destruct (setup_later_call _ _ _ _ ltac:(rewrite Hc1; simpl; eauto) E2)
      as (Hc2 & _ & Ht2).
    unfold dispatch.
    destruct (run_filters_disconnected message (filters (conn w2)) Hm w2)
      as (-> & -> & ->).
    rewrite Ht2, Ht1, Hc2, Hc1. simpl. rewrite Hnil. simpl.
    repeat split.
Qed.

(** Boundary scenario 3 of the specification: two setups with one
    handler, then the library's own Disconnected signal. *)
Lemma disconnected_filter_releases_one_witness :
  exists w2,
    setup_each [(all_ok, Some 7%nat); (all_ok, Some 7%nat)] (fresh_world 3) = Some w2
    /\ trace (dispatch disconnected_signal w2).2
       = [Handler 7; Unref; Handler 7; Unref]
    /\ refcount (conn (dispatch disconnected_signal w2).2) = 3 - 2.
Proof.
  eexists. split; [vm_compute; reflexivity|].
  destruct (disconnected_filter_releases_one disconnected_signal None (fresh_world 3))
    as (_ & _ & _ & H).
  destruct (H all_ok all_ok (Some 7%nat) (Some 7%nat) _ eq_refl eq_refl eq_refl eq_refl)
    as (_ & Ht & Hr).
  split; [exact Ht | exact Hr].
Defined.

End ConnProps.

(** ** Object teardown *)
Module ObjectProps.
Import Object.

(** The object with its flag cleared. *)
Definition unregistered (obj : NihDBusObject) : NihDBusObject :=
  {| obj_conn := obj_conn obj; obj_path := obj_path obj; registered := false |}.

Lemma destroy_unregistered (fuel : nat) (mem_ok : bool) (o : nat) (obj : NihDBusObject) (w : world) :
  objects w !! o = Some obj -> registered obj = false ->
  nih_dbus_object_destroy (S fuel) mem_ok o w = Some w.
Proof. intros Ho Hr. simpl. rewrite Ho, Hr. reflexivity. Qed.

Lemma unregister_unregistered (fuel : nat) (mem_ok : bool) (o : nat) (obj : NihDBusObject) (w : world) :
  objects w !! o = Some obj -> registered obj = false ->
  nih_dbus_object_unregister (S fuel) mem_ok (obj_conn obj) o w = Some w.
Proof. intros Ho Hr. simpl. rewrite Ho, Hr, Nat.eqb_refl. reflexivity. Qed.

Lemma clear_registered_lookup (o : nat) (obj : NihDBusObject) (w : world) :
  objects w !! o = Some obj ->
  objects (clear_registered o w) !! o = Some (unregistered obj).
Proof. intros Ho. simpl. rewrite lookup_alter_eq, Ho. reflexivity. Qed.

(** The destructor on a registered object: the flag is cleared, the
    library is asked once, and its callback finds nothing left to do. *)
Lemma destroy_registered (fuel : nat) (mem_ok : bool) (o : nat) (obj : NihDBusObject) (w : world) :
  objects w !! o = Some obj -> registered obj = true ->
  paths w !! (obj_conn obj, obj_path obj) = Some o ->
  nih_dbus_object_destroy (S (S fuel)) mem_ok o w
  = Some {| objects := <[o := unregistered obj]> (objects w);
            paths := if mem_ok then delete (obj_conn obj, obj_path obj) (paths w)
                     else paths w;
            trace := trace w ++ [UnregisterPath (obj_conn obj) (obj_path obj)] |}.
Proof.
  intros Ho Hr Hp. cbn [nih_dbus_object_destroy]. rewrite Ho, Hr.
  assert (Halter : alter (fun obj0 => {| obj_conn := obj_conn obj0; obj_path := obj_path obj0;
                                         registered := false |}) o (objects w)
                   = <[o := unregistered obj]> (objects w)).
  { apply map_eq. intros j. rewrite lookup_alter, lookup_insert.
    destruct (decide (o = j)) as [<-|]; [rewrite Ho|]; reflexivity. }
  unfold dbus_connection_unregister_object_path, log, clear_registered.
  cbn [objects paths trace]. rewrite Halter. destruct mem_ok; [|reflexivity].
  rewrite Hp. cbn [nih_dbus_object_unregister objects].
  rewrite lookup_insert_eq. cbn [obj_conn registered unregistered].
  rewrite Nat.eqb_refl. reflexivity.
Qed.

Lemma release_registered (fuel : nat) (mem_ok : bool) (o : nat) (obj : NihDBusObject) (w : world) :
  objects w !! o = Some obj -> registered obj = true ->
  paths w !! (obj_conn obj, obj_path obj) = Some o ->
  release (S (S fuel)) mem_ok o w
  = Some {| objects := delete o (objects w);
            paths := if mem_ok then delete (obj_conn obj, obj_path obj) (paths w)
                     else paths w;
            trace := trace w ++ [UnregisterPath (obj_conn obj) (obj_path obj); Free o] |}.
Proof.
  intros Ho Hr Hp. unfold release, nih_free. rewrite Ho.
  rewrite (destroy_registered fuel mem_ok o obj w Ho Hr Hp). cbn [objects paths trace].
  rewrite lookup_insert_eq. unfold log. cbn [objects paths trace].
  rewrite delete_insert_eq, <- app_assoc. reflexivity.
Qed.

(** The unregister function on a registered object: the flag is cleared
    and the object released; the destructor asks the library nothing. *)
Lemma unregister_registered (fuel : nat) (mem_ok : bool) (o : nat) (obj : NihDBusObject) (w : world) :
  objects w !! o = Some obj -> registered obj = true ->
  nih_dbus_object_unregister (S (S fuel)) mem_ok (obj_conn obj) o w
  = Some {| objects := delete o (objects w);
            paths := paths w;
            trace := trace w ++ [Free o] |}.
Proof.
  intros Ho Hr. cbn [nih_dbus_object_unregister]. rewrite Ho, Hr, Nat.eqb_refl.
  cbn [negb]. unfold nih_free.
  rewrite (clear_registered_lookup o obj w Ho).
  rewrite (destroy_unregistered fuel mem_ok o (unregistered obj) _
             (clear_registered_lookup o obj w Ho) eq_refl).
  rewrite (clear_registered_lookup o obj w Ho).
  unfold log. simpl. rewrite delete_alter_eq. reflexivity.
Qed.

(** C8: both teardown paths clear the flag first, so each finds nothing
    to do when it is entered from the other: releasing a registered
    object asks the library once to unregister the path and frees the
    object once; the library's unregister callback frees the object once
    and asks the library nothing; and either function leaves the state
    alone when the flag is already false. *)
Theorem object_teardown_idempotent
  (fuel : nat) (mem_ok : bool) (o : nat) (obj : NihDBusObject) (w : world) :
  (2 <= fuel)%nat ->
  objects w !! o = Some obj ->
  (registered obj = false ->
     nih_dbus_object_destroy fuel mem_ok o w = Some w
     /\ nih_dbus_object_unregister fuel mem_ok (obj_conn obj) o w = Some w)
  /\ (registered obj = true ->
      paths w !! (obj_conn obj, obj_path obj) = Some o ->
      nih_dbus_object_destroy fuel true o w
      = Some {| objects := <[o := unregistered obj]> (objects w);
                paths := delete (obj_conn obj, obj_path obj) (paths w);
                trace := trace w ++ [UnregisterPath (obj_conn obj) (obj_path obj)] |}
      /\ release fuel true o w
         = Some {| objects := delete o (objects w);
                   paths := delete (obj_conn obj, obj_path obj) (paths w);
                   trace := trace w ++ [UnregisterPath (obj_conn obj) (obj_path obj);
                                        Free o] |}
      /\ nih_dbus_object_unregister fuel mem_ok (obj_conn obj) o w
         = Some {| objects := delete o (objects w);
                   paths := paths w;
                   trace := trace w ++ [Free o] |}
      /\ library_drops fuel (obj_conn obj) (obj_path obj) w
         = Some {| objects := delete o (objects w);
                   paths := delete (obj_conn obj, obj_path obj) (paths w);
                   trace := trace w ++ [Free o] |}).
Proof.
  intros Hfuel Ho. destruct fuel as [|[|fuel]]; try lia. split.
  - intros Hr. split.
    + eapply destroy_unregistered; eauto.
    + eapply unregister_unregistered; eauto.
  - intros Hr Hp. split; [|split; [|split]].
    + apply (destroy_registered fuel true o obj w Ho Hr Hp).
    + apply (release_registered fuel true o obj w Ho Hr Hp).
    + apply (unregister_registered fuel mem_ok o obj w Ho Hr).
    + unfold library_drops. rewrite Hp.
      rewrite (unregister_registered fuel true o obj
                 {| objects := objects w;
                    paths := delete (obj_conn obj, obj_path obj) (paths w);
                    trace := trace w |} Ho Hr).
      reflexivity.
Qed.

(** One registered object, at [/com/example] on connection 0. *)
Definition one_object : world :=
  {| objects := {[ 5%nat := {| obj_conn := 0; obj_path := "/com/example";
                               registered := true |} ]};
     paths := {[ (0%nat, "/com/example") := 5%nat ]};
     trace := [] |}.

(** The theorem on that object: released by its owner, and dropped by the
    library. *)
Lemma object_teardown_idempotent_witness :
  release 3 true 5 one_object
  = Some {| objects := delete 5%nat (objects one_object);
            paths := delete (0%nat, "/com/example") (paths one_object);
            trace := [UnregisterPath 0 "/com/example"; Free 5] |}
  /\ library_drops 3 0 "/com/example" one_object
     = Some {| objects := delete 5%nat (objects one_object);
               paths := delete (0%nat, "/com/example") (paths one_object);
               trace := [Free 5] |}.
Proof.
  destruct (object_teardown_idempotent 3 true 5
              {| obj_conn := 0; obj_path := "/com/example"; registered := true |}
              one_object ltac:(lia) eq_refl) as [_ H].
  destruct (H eq_refl eq_refl) as (_ & Hrel & _ & Hlib).
  split; [exact Hrel | exact Hlib].
Defined.

End ObjectProps.

(** ** Dispatch and introspection *)
Module DispatchProps.
Import DBus Dispatch.

Lemma append_nil_r (s : string) : s +:+ "" = s.
Proof.
  induction s as [|c s IH]; [reflexivity|].
  change (String c (s +:+ "") = String c s). rewrite IH. reflexivity.
Qed.

Lemma append_assoc (a b c : string) : (a +:+ b) +:+ c = a +:+ (b +:+ c).
Proof.
  induction a as [|x a IH]; [reflexivity|].
  change (String x ((a +:+ b) +:+ c) = String x (a +:+ (b +:+ c))).
  rewrite IH. reflexivity.
Qed.

Lemma cat_app (l1 l2 : list string) : cat (l1 ++ l2) = cat l1 +:+ cat l2.
Proof.
  induction l1 as [|a l1 IH]; simpl; [reflexivity|].
  rewrite IH, append_assoc. reflexivity.
Qed.

Lemma alloc_bump (w : world) : alloc w = (mem w (allocs w), bump 1 w).
Proof. unfold alloc, bump. rewrite Nat.add_1_r. reflexivity. Qed.

Lemma bump_bump (a b : nat) (w : world) : bump b (bump a w) = bump (a + b) w.
Proof. unfold bump. simpl. rewrite Nat.add_assoc. reflexivity. Qed.

Lemma bump_0 (w : world) : bump 0 w = w.
Proof. unfold bump. destruct w. simpl. rewrite Nat.add_0_r. reflexivity. Qed.

(** The locals after a piece of the document was appended. *)
Definition appended (x chunk : string) (p : bool) (l : locals) : locals :=
  {| xml := Some (x +:+ chunk); children := children l; reply := reply l;
     have_props := have_props l || p |}.

(** The locals at a jump to [error] out of the assembly: the string is
    still allocated, the other pointers are as they were. *)
Definition aborted (x : string) (hp : bool) (l : locals) : locals :=
  {| xml := Some x; children := children l; reply := reply l; have_props := hp |}.

(** A piece of the handler that appends [chunk] to the string, sets
    [have_props] when [p], and does nothing else: with [k] successful
    allocations it ends, or its allocation number [k] fails and it jumps
    to [error]. *)
Definition appends (m : M unit) (chunk : string) (p : bool) : Prop :=
  forall l w x, xml l = Some x ->
    exists k : nat,
      (forall i, (i < k)%nat -> mem w (allocs w + i) = true)
      /\ (m (l, w) = (Some tt, (appended x chunk p l, bump k w))
          \/ (mem w (allocs w + k) = false
              /\ exists x' hp', m (l, w) = (None, (aborted x' hp' l, bump (S k) w)))).

Lemma appends_strcat (s : string) : appends (nih_strcat s) s false.
Proof.
  intros l w x Hx. unfold nih_strcat. rewrite alloc_bump.
  destruct (mem w (allocs w)) eqn:E.
  - exists 1%nat. split.
    + intros i Hi. replace i with 0%nat by lia. rewrite Nat.add_0_r. exact E.
    + left. rewrite Hx. unfold appended, set_xml. rewrite orb_false_r. reflexivity.
  - exists 0%nat. split; [intros i Hi; lia|]. right.
    rewrite Nat.add_0_r. split; [exact E|].
    exists x, (have_props l). unfold aborted. rewrite <- Hx. destruct l; reflexivity.
Qed.

Lemma appends_mark : appends mark_have_props "" true.
Proof.
  intros l w x Hx. exists 0%nat. split; [intros i Hi; lia|]. left.
  unfold mark_have_props, appended, set_have_props.
  rewrite append_nil_r, orb_true_r, bump_0, Hx. reflexivity.
Qed.

Lemma appends_ret : appends (ret tt) "" false.
Proof.
  intros l w x Hx. exists 0%nat. split; [intros i Hi; lia|]. left.
  unfold ret, appended. rewrite append_nil_r, orb_false_r, bump_0, <- Hx.
  destruct l; reflexivity.
Qed.

Lemma appends_seq (m1 m2 : M unit) (c1 c2 : string) (p1 p2 : bool) :
  appends m1 c1 p1 -> appends m2 c2 p2 -> appends (seq m1 m2) (c1 +:+ c2) (p1 || p2).
Proof.
  intros H1 H2 l w x Hx. unfold seq, bind.
  destruct (H1 l w x Hx) as (k1 & Hk1 & [E1|(Hf1 & x' & hp' & E1)]); rewrite E1.
  - destruct (H2 (appended x c1 p1 l) (bump k1 w) (x +:+ c1) eq_refl)
      as (k2 & Hk2 & [E2|(Hf2 & x' & hp' & E2)]); rewrite E2; simpl in *.
    + exists (k1 + k2)%nat. split.
      * intros i Hi. destruct (decide (i < k1)%nat) as [Hlt|Hge]; [auto|].
        replace (allocs w + i)%nat with (allocs w + k1 + (i - k1))%nat by lia.
        apply Hk2. lia.
      * left. rewrite bump_bump. unfold appended. simpl.
        rewrite append_assoc, orb_assoc. reflexivity.
    + exists (k1 + k2)%nat. split.
      * intros i Hi. destruct (decide (i < k1)%nat) as [Hlt|Hge]; [auto|].
        replace (allocs w + i)%nat with (allocs w + k1 + (i - k1))%nat by lia.
        apply Hk2. lia.
      * right. rewrite Nat.add_assoc. split; [exact Hf2|].
        exists x', hp'. rewrite bump_bump.
        replace (k1 + S k2)%nat with (S (k1 + k2)) by lia. reflexivity.
  - exists k1. split; [exact Hk1|]. right. split; [exact Hf1|]. eauto.
Qed.

Lemma appends_for_each {A : Type} (body : A -> M unit) (chunk : A -> string) (p : A -> bool)
  (l : list A) :
  (forall a, appends (body a) (chunk a) (p a)) ->
  appends (for_each l body) (cat (map chunk l)) (existsb p l).
Proof.
  intros Hbody. induction l as [|a l IH]; simpl.
  - apply appends_ret.
  - apply appends_seq; [apply Hbody | exact IH].
Qed.

Lemma appends_eq (m : M unit) (c c' : string) (p p' : bool) :
  appends m c p -> c = c' -> p = p' -> appends m c' p'.
Proof. intros H <- <-. exact H. Qed.

Lemma existsb_false {A : Type} (l : list A) : existsb (fun _ => false) l = false.
Proof. induction l; simpl; auto. Qed.

Lemma existsb_true {A : Type} (l : list A) :
  existsb (fun _ => true) l = match l with [] => false | _ :: _ => true end.
Proof. destruct l; reflexivity. Qed.

Lemma appends_add_method (method : NihDBusMethod) :
  appends (add_method method) (method_xml method) false.
Proof.
  eapply appends_eq.
  - apply appends_seq; [apply appends_strcat|].
    apply appends_seq; [|apply appends_strcat].
    apply (appends_for_each _ method_arg_xml (fun _ => false)).
    intros arg. apply appends_strcat.
  - reflexivity.
  - rewrite existsb_false. reflexivity.
Qed.

Lemma appends_add_signal (signal : NihDBusSignal) :
  appends (add_signal signal) (signal_xml signal) false.
Proof.
  eapply appends_eq.
  - apply appends_seq; [apply appends_strcat|].
    apply appends_seq; [|apply appends_strcat].
    apply (appends_for_each _ signal_arg_xml (fun _ => false)).
    intros arg. apply appends_strcat.
  - reflexivity.
  - rewrite existsb_false. reflexivity.
Qed.

Lemma appends_add_property (property : NihDBusProperty) :
  appends (add_property property) (property_xml property) true.
Proof.
  eapply appends_eq.
  - apply appends_seq; [apply appends_mark | apply appends_strcat].
  - reflexivity.
  - reflexivity.
Qed.

(** An interface sets [have_props] exactly when it declares a property. *)
Lemma appends_add_interface (interface : NihDBusInterface) :
  appends (add_interface interface) (interface_xml interface)
          match properties interface with [] => false | _ :: _ => true end.
Proof.
  eapply appends_eq.
  - apply appends_seq; [apply appends_strcat|].
    apply appends_seq; [apply (appends_for_each _ _ _ _ appends_add_method)|].
    apply appends_seq; [apply (appends_for_each _ _ _ _ appends_add_signal)|].
    apply appends_seq; [apply (appends_for_each _ _ _ _ appends_add_property)|].
    apply appends_strcat.
  - reflexivity.
  - rewrite !existsb_false, existsb_true. simpl. apply orb_false_r.
Qed.

Lemma seq_run {B : Type} (m : M unit) (k : M B) (s : locals * world) :
  seq m k s = match m s with
              | (Some _, s') => k s'
              | (None, s') => (None, s')
              end.
Proof. reflexivity. Qed.

Lemma seq_assoc {B : Type} (a b : M unit) (c : M B) (s : locals * world) :
  seq a (seq b c) s = seq (seq a b) c s.
Proof.
  rewrite !seq_run. destruct (a s) as [[[]|] s1]; [|reflexivity].
  rewrite seq_run. reflexivity.
Qed.

(** What [add_head] appends when it starts with [have_props] false. *)
Definition head_xml (object : NihDBusObject) : string :=
  node_open (object_path object)
  +:+ introspectable_xml
  +:+ cat (map interface_xml (interfaces object))
  +:+ (if has_property (interfaces object) then properties_xml else "").

Lemma add_head_spec (object : NihDBusObject) (l : locals) (w : world) (x : string) :
  xml l = Some x -> have_props l = false ->
  exists k : nat,
    (forall i, (i < k)%nat -> mem w (allocs w + i) = true)
    /\ (add_head object (l, w)
        = (Some tt, (appended x (head_xml object) (has_property (interfaces object)) l,
                     bump k w))
        \/ (mem w (allocs w + k) = false
            /\ exists x' hp', add_head object (l, w)
                              = (None, (aborted x' hp' l, bump (S k) w)))).
Proof.
  intros Hx Hp. unfold add_head. rewrite !seq_assoc.
  pose proof (appends_seq _ _ _ _ _ _
                (appends_seq _ _ _ _ _ _ (appends_strcat (node_open (object_path object)))
                                         (appends_strcat introspectable_xml))
                (appends_for_each _ _ _ (interfaces object) appends_add_interface)) as H.
  rewrite seq_run.
  destruct (H l w x Hx) as (k1 & Hk1 & [E1|(Hf1 & x' & hp' & E1)]); rewrite E1.
  - fold (has_property (interfaces object)). unfold add_properties_interface.
    cbn [fst appended have_props]. rewrite Hp. cbn [orb].
    set (l1 := appended x _ _ l).
    assert (Hl1 : xml l1 = Some (x +:+ ((node_open (object_path object) +:+ introspectable_xml)
                                        +:+ cat (map interface_xml (interfaces object)))))
      by reflexivity.
    assert (Hall : forall i k2, (i < k1 + k2)%nat ->
              (forall j, (j < k2)%nat -> mem w (allocs w + k1 + j) = true) ->
              mem w (allocs w + i) = true).
    { intros i k2 Hi Hk2. destruct (decide (i < k1)%nat); [auto|].
      replace (allocs w + i)%nat with (allocs w + k1 + (i - k1))%nat by lia.
      apply Hk2. lia. }
    destruct (has_property (interfaces object)) eqn:Ehp.
    + destruct (appends_strcat properties_xml l1 (bump k1 w) _ Hl1)
        as (k2 & Hk2 & [E2|(Hf2 & x' & hp' & E2)]); rewrite E2; simpl in Hk2.
      * exists (k1 + k2)%nat. split; [intros i Hi; eapply Hall; eauto|].
        left. rewrite bump_bump. unfold appended, head_xml. simpl.
        rewrite Hp, Ehp, !append_assoc. reflexivity.
      * exists (k1 + k2)%nat. split; [intros i Hi; eapply Hall; eauto|].
        right. simpl in Hf2. rewrite Nat.add_assoc. split; [exact Hf2|].
        exists x', hp'. rewrite bump_bump.
        replace (k1 + S k2)%nat with (S (k1 + k2)) by lia. reflexivity.
    + exists k1. split; [exact Hk1|]. left. unfold ret, l1, appended, head_xml. simpl.
      rewrite Hp, Ehp, !append_assoc, append_nil_r. reflexivity.
  - exists k1. split; [exact Hk1|]. right. split; [exact Hf1|]. eauto.
Qed.

Lemma appends_add_children (kids : list string) :
  appends (add_children kids) (document_tail kids) false.
Proof.
  eapply appends_eq.
  - apply appends_seq; [|apply appends_strcat].
    apply (appends_for_each _ child_xml (fun _ => false)).
    intros child. apply appends_strcat.
  - reflexivity.
  - rewrite existsb_false. reflexivity.
Qed.

Lemma document_eq (object : NihDBusObject) (registered : list string) :
  (DBUS_INTROSPECT_1_0_XML_DOCTYPE_DECL_NODE +:+ head_xml object) +:+ document_tail registered
  = document object registered.
Proof.
  unfold document, document_head, head_xml. rewrite !append_assoc. reflexivity.
Qed.

(** Reduces the world and the locals without touching the text. *)
Ltac wsimpl :=
  unfold aborted, appended, bump, set_nih_blocks, set_dbus_blocks,
    set_message_refs, queue, set_xml, set_children, set_reply, no_locals;
  cbn [mem allocs nih_blocks dbus_blocks message_refs outgoing calls
       xml children reply have_props fst snd pred default].

Ltac wsimpl_in H :=
  unfold aborted, appended, bump, set_nih_blocks, set_dbus_blocks,
    set_message_refs, queue, set_xml, set_children, set_reply, no_locals in H;
  cbn [mem allocs nih_blocks dbus_blocks message_refs outgoing calls
       xml children reply have_props fst snd pred default] in H.

Lemma world_ext (w1 w2 : world) :
  mem w1 = mem w2 -> allocs w1 = allocs w2 -> nih_blocks w1 = nih_blocks w2 ->
  dbus_blocks w1 = dbus_blocks w2 -> message_refs w1 = message_refs w2 ->
  outgoing w1 = outgoing w2 -> calls w1 = calls w2 -> w1 = w2.
Proof. destruct w1, w2. cbn. intros. subst. reflexivity. Qed.

(** What the code after [error] gives back, by what the locals hold. *)
Lemma introspect_error_fields (l : locals) (w : world) :
  mem (introspect_error (l, w)) = mem w
  /\ allocs (introspect_error (l, w)) = allocs w
  /\ nih_blocks (introspect_error (l, w))
     = (nih_blocks w - match xml l with Some _ => 1 | None => 0 end)%nat
  /\ dbus_blocks (introspect_error (l, w))
     = (dbus_blocks w - match reply l with Some _ => 1 | None => 0 end
        - match children l with Some _ => 1 | None => 0 end)%nat
  /\ message_refs (introspect_error (l, w)) = message_refs w
  /\ outgoing (introspect_error (l, w)) = outgoing w
  /\ calls (introspect_error (l, w)) = calls w.
Proof.
  destruct l as [[x|] [c|] [r|] hp], w; cbn; repeat split; lia.
Qed.

Ltac world_eq :=
  apply world_ext;
  match goal with
  | |- context [introspect_error (?l, ?w)] =>
      let H1 := fresh in let H2 := fresh in let H3 := fresh in let H4 := fresh in
      let H5 := fresh in let H6 := fresh in let H7 := fresh in
      destruct (introspect_error_fields l w) as (H1 & H2 & H3 & H4 & H5 & H6 & H7);
      rewrite ?H1, ?H2, ?H3, ?H4, ?H5, ?H6, ?H7; clear H1 H2 H3 H4 H5 H6 H7
  | _ => idtac
  end;
  wsimpl; first [reflexivity | lia].

(** Closes [mem w n = true] from the facts at hand about the outcomes of
    the allocations. *)
Ltac oracle :=
  repeat match goal with
  | H : mem _ ?e = true |- mem _ ?g = true =>
      destruct (decide (g = e)) as [Heq|?]; [rewrite Heq; exact H | clear H]
  | H : forall i, (i < ?k)%nat -> mem _ (?b + i)%nat = true |- mem _ ?g = true =>
      destruct (decide (b <= g < b + k)%nat) as [?|?];
      [replace g with (b + (g - b))%nat by lia; apply H; lia | clear H]
  end; lia.

Ltac oracle_false H := wsimpl_in H; rewrite <- H; f_equal; lia.

Lemma nih_strdup_run (s : string) (l : locals) (w : world) :
  nih_strdup s (l, w)
  = if mem w (allocs w)
    then (Some tt, (set_xml (Some s) l, set_nih_blocks (S (nih_blocks w)) (bump 1 w)))
    else (None, (l, bump 1 w)).
Proof. unfold nih_strdup. rewrite alloc_bump. destruct (mem w (allocs w)); reflexivity. Qed.

Lemma list_registered_run (registered : list string) (l : locals) (w : world) :
  list_registered registered (l, w)
  = if mem w (allocs w)
    then (Some registered, (set_children (Some registered) l,
                            set_dbus_blocks (S (dbus_blocks w)) (bump 1 w)))
    else (None, (l, bump 1 w)).
Proof. unfold list_registered. rewrite alloc_bump. destruct (mem w (allocs w)); reflexivity. Qed.

Lemma new_method_return_run (l : locals) (w : world) :
  new_method_return (l, w)
  = if mem w (allocs w)
    then (Some tt, (set_reply (Some EmptyString) l,
                    set_dbus_blocks (S (dbus_blocks w)) (bump 1 w)))
    else (None, (l, bump 1 w)).
Proof. unfold new_method_return. rewrite alloc_bump. destruct (mem w (allocs w)); reflexivity. Qed.

Lemma append_xml_run (l : locals) (w : world) :
  append_xml (l, w)
  = if mem w (allocs w)
    then (Some tt, (set_reply (Some (default EmptyString (xml l))) l, bump 1 w))
    else (None, (l, bump 1 w)).
Proof. unfold append_xml. rewrite alloc_bump. destruct (mem w (allocs w)); reflexivity. Qed.

Lemma send_reply_run (l : locals) (w : world) :
  send_reply (l, w)
  = if mem w (allocs w)
    then (Some tt, (l, queue (default EmptyString (reply l)) (bump 1 w)))
    else (None, (l, bump 1 w)).
Proof. unfold send_reply. rewrite alloc_bump. destruct (mem w (allocs w)); reflexivity. Qed.

Lemma free_children_run (l : locals) (w : world) :
  free_children (l, w)
  = (Some tt, (set_children None l, set_dbus_blocks (pred (dbus_blocks w)) w)).
Proof. reflexivity. Qed.

Lemma bind_run {A B : Type} (m : M A) (k : A -> M B) (s : locals * world) :
  bind m k s = match m s with
               | (Some a, s') => k a s'
               | (None, s') => (None, s')
               end.
Proof. reflexivity. Qed.

Lemma introspect_spec (object : NihDBusObject) (registered : list string) (w : world) :
  exists k : nat,
    (forall i, (i < k)%nat -> mem w (allocs w + i) = true)
    /\ (nih_dbus_object_introspect object registered w
        = (DBUS_HANDLER_RESULT_HANDLED, queue (document object registered) (bump k w))
        \/ (mem w (allocs w + k) = false
            /\ nih_dbus_object_introspect object registered w
               = (DBUS_HANDLER_RESULT_NEED_MEMORY, bump (S k) w))).
Proof.
  unfold nih_dbus_object_introspect, introspect_body.
  rewrite seq_run, nih_strdup_run.
  destruct (mem w (allocs w)) eqn:E0.
  2:{ exists 0%nat. split; [intros i Hi; lia|]. right. rewrite Nat.add_0_r.
      split; [exact E0 | reflexivity]. }
  rewrite seq_run.
  destruct (add_head_spec object
              (set_xml (Some DBUS_INTROSPECT_1_0_XML_DOCTYPE_DECL_NODE) no_locals)
              (set_nih_blocks (S (nih_blocks w)) (bump 1 w)) _ eq_refl eq_refl)
    as (k1 & Hk1 & [E1|(Hf1 & x' & hp' & E1)]); rewrite E1; wsimpl_in Hk1.
  2:{ exists (1 + k1)%nat. split; [intros i Hi; oracle|]. right.
      split; [oracle_false Hf1 | cbv beta iota; apply f_equal; world_eq]. }
  rewrite bind_run, list_registered_run.
  match goal with |- context [if mem ?a ?b then _ else _] => destruct (mem a b) eqn:E2 end; wsimpl_in E2.
  2:{ exists (1 + k1)%nat. split; [intros i Hi; oracle|]. right.
      split; [oracle_false E2 | cbv beta iota; apply f_equal; world_eq]. }
  rewrite seq_run. wsimpl.
  match goal with |- context [add_children registered (?l, ?w')] =>
    pose proof (appends_add_children registered l w') as H3
  end.
  wsimpl_in H3. specialize (H3 _ eq_refl).
  destruct H3 as (k3 & Hk3 & [E3|(Hf3 & x' & hp' & E3)]); rewrite E3.
  2:{ exists (2 + k1 + k3)%nat. split; [intros i Hi; oracle|]. right.
      split; [oracle_false Hf3 | cbv beta iota; apply f_equal; world_eq]. }
  rewrite seq_run, free_children_run. cbv beta iota. wsimpl. unfold send_document.
  rewrite seq_run, new_method_return_run.
  match goal with |- context [if mem ?a ?b then _ else _] => destruct (mem a b) eqn:E4 end; wsimpl_in E4; wsimpl.
  2:{ exists (2 + k1 + k3)%nat. split; [intros i Hi; oracle|]. right.
      split; [oracle_false E4 | cbv beta iota; apply f_equal; world_eq]. }
  rewrite seq_run, append_xml_run.
  match goal with |- context [if mem ?a ?b then _ else _] => destruct (mem a b) eqn:E5 end; wsimpl_in E5; wsimpl.
  2:{ exists (3 + k1 + k3)%nat. split; [intros i Hi; oracle|]. right.
      split; [oracle_false E5 | cbv beta iota; apply f_equal; world_eq]. }
  rewrite seq_run, send_reply_run.
  match goal with |- context [if mem ?a ?b then _ else _] => destruct (mem a b) eqn:E6 end; wsimpl_in E6; wsimpl.
  2:{ exists (4 + k1 + k3)%nat. split; [intros i Hi; oracle|]. right.
      split; [oracle_false E6 | cbv beta iota; apply f_equal; world_eq]. }
  exists (5 + k1 + k3)%nat. split; [intros i Hi; oracle|]. left.
  rewrite seq_run. unfold unref_reply, free_xml. cbv beta iota. wsimpl. apply f_equal.
  apply world_ext; wsimpl; try reflexivity; try lia.
  rewrite document_eq. reflexivity.
Qed.


(** C9: the handler either queues the whole document after [k] successful
    allocations, or stops at the first allocation that fails, with
    everything it had allocated released and nothing queued. *)
Theorem introspect_out_of_memory
  (object : NihDBusObject) (registered : list string) (w : world) :
  let r := nih_dbus_object_introspect object registered w in
  nih_blocks r.2 = nih_blocks w
  /\ dbus_blocks r.2 = dbus_blocks w
  /\ message_refs r.2 = message_refs w
  /\ (r.1 = DBUS_HANDLER_RESULT_HANDLED
      /\ outgoing r.2 = outgoing w ++ [document object registered]
      /\ (forall n, (allocs w <= n < allocs r.2)%nat -> mem w n = true)
      \/ r.1 = DBUS_HANDLER_RESULT_NEED_MEMORY
         /\ outgoing r.2 = outgoing w
         /\ (exists n, (allocs w <= n < allocs r.2)%nat /\ mem w n = false))
  /\ ((exists n, (allocs w <= n < allocs r.2)%nat /\ mem w n = false) ->
      r.1 = DBUS_HANDLER_RESULT_NEED_MEMORY /\ outgoing r.2 = outgoing w).
Proof.
  intros r. subst r.
  destruct (introspect_spec object registered w) as (k & Hk & [E|[Hf E]]);
    rewrite E; simpl.
  - repeat split; try reflexivity.
    + left. repeat split. intros n Hn.
      replace n with (allocs w + (n - allocs w))%nat by lia. apply Hk. lia.
    + exfalso. destruct H as (n & Hn & Hm).
      replace n with (allocs w + (n - allocs w))%nat in Hm by lia.
      rewrite Hk in Hm by lia. discriminate.
    + exfalso. destruct H as (n & Hn & Hm).
      replace n with (allocs w + (n - allocs w))%nat in Hm by lia.
      rewrite Hk in Hm by lia. discriminate.
  - repeat split; try reflexivity.
    right. repeat split. exists (allocs w + k)%nat. split; [lia | exact Hf].
Qed.



(** With the fourth allocation failing, the handler reports the failure,
    queues nothing and holds nothing. *)
Lemma introspect_out_of_memory_witness :
  mem (failing_at 3) 3 = false
  /\ (nih_dbus_object_introspect job_object ["child"] (failing_at 3)).1
     = DBUS_HANDLER_RESULT_NEED_MEMORY
  /\ outgoing (nih_dbus_object_introspect job_object ["child"] (failing_at 3)).2 = []
  /\ nih_blocks (nih_dbus_object_introspect job_object ["child"] (failing_at 3)).2 = 0%nat
  /\ dbus_blocks (nih_dbus_object_introspect job_object ["child"] (failing_at 3)).2 = 0%nat.
Proof.
  split; [reflexivity|].
  destruct (introspect_out_of_memory job_object ["child"] (failing_at 3))
    as (Hn & Hd & _ & _ & Hfail).
  destruct Hfail as [Hr Ho]; [exists 3%nat; split; [vm_compute; lia | reflexivity]|].
  repeat split; assumption.
Defined.


(** The document of an object without property names the Properties
    interface nowhere; the document of an object with one holds the
    whole Properties block. *)
Example properties_block_examples :
  outgoing (nih_dbus_object_introspect bare_object [] plenty).2
  = [document bare_object []]
  /\ index 0 DBUS_INTERFACE_PROPERTIES (document bare_object []) = None
  /\ index 0 DBUS_INTERFACE_INTROSPECTABLE (document bare_object []) <> None
  /\ index 0 DBUS_INTERFACE_PROPERTIES (document job_object []) = None
  /\ index 0 properties_xml (document state_object []) <> None.
Proof. vm_compute. repeat split; discriminate. Qed.

Lemma find_method_first (iface : string) (message : DBusMessage)
  (pre : list NihDBusMethod) (method : NihDBusMethod) (post : list NihDBusMethod) :
  Forall (fun m => dbus_message_is_method_call message iface (method_name m) = false) pre ->
  dbus_message_is_method_call message iface (method_name method) = true ->
  find_method iface (pre ++ method :: post) message = Some method.
Proof.
  intros Hpre Hm. induction Hpre as [|m pre Hn _ IH]; simpl.
  - rewrite Hm. reflexivity.
  - rewrite Hn. exact IH.
Qed.

Lemma find_method_none (iface : string) (message : DBusMessage) (ms : list NihDBusMethod) :
  Forall (fun m => dbus_message_is_method_call message iface (method_name m) = false) ms ->
  find_method iface ms message = None.
Proof. induction 1 as [|m ms Hn _ IH]; simpl; [reflexivity|]. rewrite Hn. exact IH. Qed.

Lemma find_handler_first (message : DBusMessage)
  (ipre : list NihDBusInterface) (interface : NihDBusInterface)
  (ipost : list NihDBusInterface)
  (mpre : list NihDBusMethod) (method : NihDBusMethod) (mpost : list NihDBusMethod) :
  Forall (fun i => Forall (fun m => matches message i m = false) (methods i)) ipre ->
  methods interface = mpre ++ method :: mpost ->
  Forall (fun m => matches message interface m = false) mpre ->
  matches message interface method = true ->
  find_handler (ipre ++ interface :: ipost) message = Some method.
Proof.
  intros Hipre Hms Hmpre Hm. induction Hipre as [|i ipre Hn _ IH]; simpl.
  - rewrite Hms, (find_method_first _ _ _ _ _ Hmpre Hm). reflexivity.
  - rewrite (find_method_none _ _ _ Hn). exact IH.
Qed.

Lemma find_handler_none (message : DBusMessage) (ifaces : list NihDBusInterface) :
  Forall (fun i => Forall (fun m => matches message i m = false) (methods i)) ifaces ->
  find_handler ifaces message = None.
Proof.
  induction 1 as [|i ifaces Hn _ IH]; simpl; [reflexivity|].
  rewrite (find_method_none _ _ _ Hn). exact IH.
Qed.

Lemma handle_method_run
  (run_marshaller : nat -> NihDBusObject -> DBusMessage -> world -> DBusHandlerResult * world)
  (method : NihDBusMethod) (object : NihDBusObject) (message : DBusMessage) (w : world) :
  handle_method run_marshaller method object message w
  = if mem w (allocs w)
    then ((run_marshaller (marshaller method) object message
             (during (marshaller method) w)).1,
          after (run_marshaller (marshaller method) object message
                   (during (marshaller method) w)).2)
    else (DBUS_HANDLER_RESULT_NEED_MEMORY, bump 1 w).
Proof.
  unfold handle_method. rewrite alloc_bump.
  destruct (mem w (allocs w)); [|reflexivity].
  unfold call_marshaller, set_message_refs, set_nih_blocks, bump, during. simpl.
  rewrite Nat.add_1_r.
  destruct (run_marshaller _ _ _ _) as [result w']. reflexivity.
Qed.

(** C3, as amended: a call of Introspect on the Introspectable interface
    gets the result of the introspection handler, which is "handled" with
    the reply queued when no allocation fails; a call of Get, Set or
    GetAll on the Properties interface gets "not yet handled"; otherwise
    the first method of the table, interfaces in order and methods in
    order within each, that the message matches is taken: when the
    allocation of the wrapper fails "need memory" is returned and the
    marshaller is not called, and otherwise the marshaller runs with the
    wrapper allocated and one more reference on the message, both are
    given back afterwards, and its result is returned; when no method
    matches the result is "not yet handled". *)
Theorem object_message_dispatch
  (run_marshaller : nat -> NihDBusObject -> DBusMessage -> world -> DBusHandlerResult * world)
  (message : DBusMessage) (object : NihDBusObject) (registered : list string) (w : world) :
  let r := nih_dbus_object_message run_marshaller message object registered w in
  let introspect :=
    dbus_message_is_method_call message DBUS_INTERFACE_INTROSPECTABLE "Introspect" in
  (introspect = true ->
     r = nih_dbus_object_introspect object registered w
     /\ ((forall n, mem w n = true) ->
         r.1 = DBUS_HANDLER_RESULT_HANDLED
         /\ outgoing r.2 = outgoing w ++ [document object registered]))
  /\ (introspect = false -> is_properties_call message = true ->
      r = (DBUS_HANDLER_RESULT_NOT_YET_HANDLED, w))
  /\ (introspect = false -> is_properties_call message = false ->
      forall ipre interface ipost mpre method mpost,
        interfaces object = ipre ++ interface :: ipost ->
        methods interface = mpre ++ method :: mpost ->
        Forall (fun i => Forall (fun m => matches message i m = false) (methods i)) ipre ->
        Forall (fun m => matches message interface m = false) mpre ->
        matches message interface method = true ->
        r = if mem w (allocs w)
            then ((run_marshaller (marshaller method) object message
                     (during (marshaller method) w)).1,
                  after (run_marshaller (marshaller method) object message
                           (during (marshaller method) w)).2)
            else (DBUS_HANDLER_RESULT_NEED_MEMORY, bump 1 w))
  /\ (introspect = false -> is_properties_call message = false ->
      Forall (fun i => Forall (fun m => matches message i m = false) (methods i))
             (interfaces object) ->
      r = (DBUS_HANDLER_RESULT_NOT_YET_HANDLED, w)).
Proof.
  intros r introspect. subst r introspect. unfold nih_dbus_object_message, is_properties_call.
  destruct (dbus_message_is_method_call message DBUS_INTERFACE_INTROSPECTABLE "Introspect").
  - split; [|repeat split; discriminate].
    intros _. split; [reflexivity|]. intros Hmem.
    destruct (introspect_spec object registered w) as (k & Hk & [E|[Hf E]]).
    + rewrite E. simpl. split; reflexivity.
    + rewrite Hmem in Hf. discriminate.
  - split; [discriminate|].
    destruct (dbus_message_is_method_call message DBUS_INTERFACE_PROPERTIES "Get");
      [repeat split; try reflexivity; discriminate|].
    destruct (dbus_message_is_method_call message DBUS_INTERFACE_PROPERTIES "Set");
      [repeat split; try reflexivity; discriminate|].
    destruct (dbus_message_is_method_call message DBUS_INTERFACE_PROPERTIES "GetAll");
      [repeat split; try reflexivity; discriminate|].
    split; [discriminate|]. split.
    + intros _ _ ipre interface ipost mpre method mpost Hi Hm Hipre Hmpre Hmatch.
      rewrite Hi, (find_handler_first _ _ _ _ _ _ _ Hipre Hm Hmpre Hmatch).
      apply handle_method_run.
    + intros _ _ Hnone. rewrite (find_handler_none _ _ Hnone). reflexivity.
Qed.


(** A call of Stop with every allocation succeeding: the second method of
    the table is the first that matches, its marshaller is the one
    called, and the wrapper and the reference are given back. *)
Lemma object_message_dispatch_witness :
  matches (method_call "com.example.Job" "Stop") job_interface start_method = false
  /\ matches (method_call "com.example.Job" "Stop") job_interface stop_method = true
  /\ nih_dbus_object_message handled_marshaller
       (method_call "com.example.Job" "Stop") job_object [] plenty
     = (DBUS_HANDLER_RESULT_HANDLED,
        {| mem := mem plenty; allocs := 1; nih_blocks := 0; dbus_blocks := 0;
           message_refs := 1; outgoing := []; calls := [1%nat] |}).
Proof.
  split; [reflexivity|]. split; [reflexivity|].
  destruct (object_message_dispatch handled_marshaller
              (method_call "com.example.Job" "Stop") job_object [] plenty)
    as (_ & _ & H & _).
  apply (H eq_refl eq_refl [] job_interface [] [start_method] stop_method []);
    try reflexivity; repeat constructor.
Defined.

(** With no memory left a call of a method of the table is answered
    "need memory" although its marshaller would have answered "handled",
    and the marshaller is not called; a call of Introspect is answered
    "need memory" as well, with no reply queued. *)
Lemma object_message_need_memory :
  matches (method_call "com.example.Job" "Stop") job_interface stop_method = true
  /\ (handled_marshaller (marshaller stop_method) job_object
        (method_call "com.example.Job" "Stop") (during (marshaller stop_method) exhausted)).1
     = DBUS_HANDLER_RESULT_HANDLED
  /\ nih_dbus_object_message handled_marshaller
       (method_call "com.example.Job" "Stop") job_object [] exhausted
     = (DBUS_HANDLER_RESULT_NEED_MEMORY, bump 1 exhausted)
  /\ calls (nih_dbus_object_message handled_marshaller
              (method_call "com.example.Job" "Stop") job_object [] exhausted).2 = []
  /\ (nih_dbus_object_message handled_marshaller
        (method_call DBUS_INTERFACE_INTROSPECTABLE "Introspect") job_object [] exhausted).1
     = DBUS_HANDLER_RESULT_NEED_MEMORY
  /\ outgoing (nih_dbus_object_message handled_marshaller
                 (method_call DBUS_INTERFACE_INTROSPECTABLE "Introspect")
                 job_object [] exhausted).2 = [].
Proof. repeat split. Qed.

End DispatchProps.

(** ** The host loop's lists: one more fact *)
Module ListMore.
Import ListProps.

(** Putting in an entry that was not there and taking it out again gives
    the list back. *)
Lemma nih_list_remove_add_absent (e : nat) (l : list nat) :
  e ∉ l -> nih_list_remove e (nih_list_add e l) = l.
Proof.
  intros He. unfold nih_list_add. rewrite (nih_list_remove_absent e l He).
  unfold nih_list_remove. rewrite filter_app, filter_cons_False, filter_nil by tauto.
  rewrite app_nil_r. apply (nih_list_remove_absent e l He).
Qed.

End ListMore.

(** ** Path encoding: further properties *)
Module PathMore.
Import Path PathProps PathAux.

Lemma hex_digit_inj (d1 d2 : Z) :
  0 <= d1 < 16 -> 0 <= d2 < 16 -> hex_digit d1 = hex_digit d2 -> d1 = d2.
Proof.
  unfold hex_digit. intros H1 H2.
  destruct (Z.ltb_spec d1 10), (Z.ltb_spec d2 10); lia.
Qed.

Lemma is_alnum_word (b : Z) : is_alnum b = true -> is_word b = true.
Proof. unfold is_word. intros ->. reflexivity. Qed.

Lemma is_alnum_95 : is_alnum 95 = false.
Proof. reflexivity. Qed.

(** The escapes form a prefix code: what follows the escape of a byte
    tells the byte. *)
Lemma escape_byte_prefix (b1 b2 : Z) (r1 r2 : list Z) :
  c_byte b1 -> c_byte b2 ->
  escape_byte b1 ++ r1 = escape_byte b2 ++ r2 -> b1 = b2 /\ r1 = r2.
Proof.
  unfold c_byte, escape_byte. intros H1 H2.
  destruct (is_alnum b1) eqn:E1, (is_alnum b2) eqn:E2; simpl; intros H.
  - injection H as -> ->. auto.
  - injection H as -> _. rewrite is_alnum_95 in E1. discriminate.
  - injection H as <- _. rewrite is_alnum_95 in E2. discriminate.
  - injection H as Hh Hl Hr.
    apply hex_digit_inj in Hh;
      [|split; [apply Z.div_pos; lia | apply Z.div_lt_upper_bound; lia]..].
    apply hex_digit_inj in Hl; [|apply Z.mod_pos_bound; lia..].
    split; [|exact Hr].
    rewrite (Z.div_mod b1 16), (Z.div_mod b2 16) by lia. congruence.
Qed.

Lemma escape_byte_head (b : Z) (r t : list Z) :
  c_byte b -> escape_byte b ++ r <> 47 :: t.
Proof.
  unfold escape_byte. intros Hb. destruct (is_alnum b) eqn:E; simpl; intros [= H].
  subst b. discriminate.
Qed.

Lemma escape_unique (x : list Z) : forall (y r1 r2 : list Z),
  Forall c_byte x -> Forall c_byte y -> at_boundary r1 -> at_boundary r2 ->
  escape x ++ r1 = escape y ++ r2 -> x = y /\ r1 = r2.
Proof.
  induction x as [|b x IH]; intros y r1 r2 Hx Hy B1 B2 H.
  - destruct y as [|c y]; [auto|]. exfalso.
    inversion Hy as [|? ? Hc _]; subst. simpl in H. rewrite <- app_assoc in H.
    destruct r1 as [|a r1]; simpl in B1.
    + destruct (escape_byte_nonempty c). symmetry in H.
      apply app_eq_nil in H. tauto.
    + subst a. symmetry in H. exact (escape_byte_head _ _ _ Hc H).
  - inversion Hx as [|? ? Hb Hx']; subst.
    destruct y as [|c y].
    + exfalso. simpl in H. rewrite <- app_assoc in H.
      destruct r2 as [|a r2]; simpl in B2.
      * destruct (escape_byte_nonempty b). apply app_eq_nil in H. tauto.
      * subst a. exact (escape_byte_head _ _ _ Hb H).
    + inversion Hy as [|? ? Hc Hy']; subst. simpl in H. rewrite <- !app_assoc in H.
      apply escape_byte_prefix in H as [-> H]; [|assumption..].
      destruct (IH _ _ _ Hx' Hy' B1 B2 H) as [-> ->]. auto.
Qed.

Lemma joined_boundary (args : list (list Z)) : at_boundary (joined args).
Proof. destruct args; simpl; auto. Qed.

Lemma joined_unique (a1 : list (list Z)) : forall a2,
  Forall (Forall c_byte) a1 -> Forall (Forall c_byte) a2 ->
  joined a1 = joined a2 -> a1 = a2.
Proof.
  induction a1 as [|x a1 IH]; intros a2 H1 H2 H.
  - destruct a2; [reflexivity | discriminate].
  - destruct a2 as [|y a2]; [discriminate|].
    inversion H1 as [|? ? Hx H1']; inversion H2 as [|? ? Hy H2']; subst.
    simpl in H. injection H as H.
    apply escape_unique in H as [-> H]; auto using joined_boundary.
    rewrite (IH _ H1' H2' H). reflexivity.
Qed.

Lemma joined_app (a1 a2 : list (list Z)) : joined (a1 ++ a2) = joined a1 ++ joined a2.
Proof. unfold joined. apply flat_map_app. Qed.

Lemma plain_args_c_byte (char_signed : bool) (args : list (list Z)) :
  Forall (Forall (plain char_signed)) args -> Forall (Forall c_byte) args.
Proof.
  intros H. eapply Forall_impl; [exact H|]. intros x Hx.
  eapply Forall_impl; [exact Hx|]. apply plain_c_byte.
Qed.

Lemma hex_digit_c_byte (d : Z) : 0 <= d < 16 -> c_byte (hex_digit d).
Proof. unfold c_byte, hex_digit. intros Hd. destruct (Z.ltb_spec d 10); lia. Qed.

Lemma escape_byte_c_byte (b : Z) : c_byte b -> Forall c_byte (escape_byte b).
Proof.
  intros Hb. unfold escape_byte. destruct (is_alnum b).
  - apply List.Forall_cons; [exact Hb | apply List.Forall_nil].
  - unfold c_byte in Hb.
    apply List.Forall_cons; [unfold c_byte; lia|].
    apply List.Forall_cons.
    { apply hex_digit_c_byte.
      split; [apply Z.div_pos; lia | apply Z.div_lt_upper_bound; lia]. }
    apply List.Forall_cons; [|apply List.Forall_nil].
    apply hex_digit_c_byte. apply Z.mod_pos_bound. lia.
Qed.

Lemma joined_c_byte (args : list (list Z)) :
  Forall (Forall c_byte) args -> Forall c_byte (joined args).
Proof.
  induction 1 as [|x args Hx _ IH]; simpl; [constructor|].
  constructor; [unfold c_byte; lia|]. apply Forall_app. split; [|exact IH].
  clear IH. induction Hx as [|b x Hb _ IHx]; simpl; [constructor|].
  apply Forall_app. split; [|exact IHx]. apply escape_byte_c_byte, Hb.
Qed.

Section more.

Variable char_signed : bool.
Variable nih_alloc : nat -> option (list Z).
Hypothesis nih_alloc_size : forall n b, nih_alloc n = Some b -> length b = n.

Lemma path_len_plain (root : list Z) (args : list (list Z)) :
  Forall (Forall (plain char_signed)) args ->
  path_len char_signed root args = (length root + length (joined args))%nat.
Proof. intros H. unfold path_len. apply path_len_from. exact H. Qed.

End more.

(** X1: two lists of components that give the same path under the same
    root are the same list: the encoding loses nothing. *)
Theorem nih_dbus_path_injective
  (char_signed : bool) (nih_alloc : nat -> option (list Z))
  (root : list Z) (args1 args2 : list (list Z)) (path : list Z) :
  (forall n b, nih_alloc n = Some b -> length b = n) ->
  Forall c_byte root ->
  Forall (Forall (plain char_signed)) args1 ->
  Forall (Forall (plain char_signed)) args2 ->
  nih_dbus_path char_signed nih_alloc root args1 = PathOk path ->
  nih_dbus_path char_signed nih_alloc root args2 = PathOk path ->
  args1 = args2.
Proof.
  intros Hsize Hroot H1 H2.
  rewrite !(nih_dbus_path_plain char_signed nih_alloc Hsize) by assumption.
  destruct (nih_alloc _); [|discriminate]. intros [= <-].
  destruct (nih_alloc _); [|discriminate]. intros [= H].
  apply app_inv_head in H. symmetry.
  apply joined_unique; eauto using plain_args_c_byte.
Qed.

(** The theorem at a call whose component holds an underscore. *)
Lemma nih_dbus_path_injective_witness :
  nih_dbus_path true alloc_filled (bytes "/com/ubuntu") [bytes "a_b"; bytes "c"]
  = PathOk (bytes "/com/ubuntu/a_5fb/c")
  /\ [bytes "a_b"; bytes "c"] = [bytes "a_b"; bytes "c"].
Proof.
  split; [reflexivity|].
  apply (nih_dbus_path_injective true alloc_filled (bytes "/com/ubuntu") _ _
           (bytes "/com/ubuntu/a_5fb/c")).
  - intros n b [= <-]. apply length_replicate.
  - bytes_ok.
  - repeat (constructor; [bytes_ok|]); constructor.
  - repeat (constructor; [bytes_ok|]); constructor.
  - reflexivity.
  - reflexivity.
Defined.


(** X2: with components whose bytes have no negative [char] value, the
    block asked of [nih_alloc] is one byte longer than the string
    returned, the result is [NULL] exactly when that allocation fails,
    and no write falls outside the block. *)
Theorem nih_dbus_path_block_size
  (char_signed : bool) (nih_alloc : nat -> option (list Z))
  (root : list Z) (args : list (list Z)) :
  (forall n b, nih_alloc n = Some b -> length b = n) ->
  Forall c_byte root -> Forall (Forall (plain char_signed)) args ->
  path_len char_signed root args = length (root ++ joined args)
  /\ nih_dbus_path char_signed nih_alloc root args
     = match nih_alloc (length (root ++ joined args) + 1)%nat with
       | Some _ => PathOk (root ++ joined args)
       | None => PathNull
       end.
Proof.
  intros Hsize Hroot Hargs.
  assert (E : path_len char_signed root args = length (root ++ joined args)).
  { rewrite length_app. apply path_len_plain, Hargs. }
  split; [exact E|].
  rewrite (nih_dbus_path_plain char_signed nih_alloc Hsize) by assumption.
  rewrite E. reflexivity.
Qed.

Lemma nih_dbus_path_block_size_witness :
  nih_dbus_path false (alloc_up_to 9) (bytes "/x") [bytes "a.b"] = PathOk (bytes "/x/a_2eb")
  /\ nih_dbus_path false (alloc_up_to 8) (bytes "/x") [bytes "a.b"] = PathNull.
Proof.
  assert (Hsize : forall limit n b, alloc_up_to limit n = Some b -> length b = n).
  { intros limit n b. unfold alloc_up_to. destruct (decide _); [|discriminate].
    intros [= <-]. apply length_replicate. }
  split.
  - destruct (nih_dbus_path_block_size false (alloc_up_to 9) (bytes "/x") [bytes "a.b"])
      as [_ E]; [apply Hsize | bytes_ok | constructor; [bytes_ok | constructor] |].
    rewrite E. reflexivity.
  - destruct (nih_dbus_path_block_size false (alloc_up_to 8) (bytes "/x") [bytes "a.b"])
      as [_ E]; [apply Hsize | bytes_ok | constructor; [bytes_ok | constructor] |].
    rewrite E. reflexivity.
Defined.











Lemma escape_alphabet (x : list Z) :
  Forall c_byte x ->
  Forall (fun c => c = 47 \/ is_word c = true) (escape x)
  /\ filter (fun c => c = 47) (escape x) = [].
Proof.
  intros Hx. pose proof (escape_word x Hx) as Hw.
  induction (escape x) as [|c r IH]; [split; constructor|].
  simpl in Hw. apply andb_true_iff in Hw as [Hc Hr].
  destruct (IH Hr) as [IH1 IH2]. split.
  - constructor; [right; exact Hc | exact IH1].
  - rewrite filter_cons_False; [exact IH2|].
    intros ->. discriminate.
Qed.

Lemma joined_alphabet (args : list (list Z)) :
  Forall (Forall c_byte) args ->
  Forall (fun c => c = 47 \/ is_word c = true) (joined args)
  /\ length (filter (fun c => c = 47) (joined args)) = length args.
Proof.
  induction 1 as [|x args Hx _ [IH1 IH2]]; [split; [constructor | reflexivity]|].
  change (joined (x :: args)) with (47 :: escape x ++ joined args).
  destruct (escape_alphabet x Hx) as [E1 E2]. split.
  - constructor; [left; reflexivity|]. apply Forall_app. split; assumption.
  - rewrite filter_cons_True by reflexivity.
    rewrite filter_app, E2. simpl. rewrite IH2. reflexivity.
Qed.

(** X4: what is appended to the root holds one ['/'] for each component,
    empty ones included, and between them only bytes of [A-Za-z0-9_]: a
    component never adds a path element and never hides one. *)
Theorem nih_dbus_path_one_element_each
  (char_signed : bool) (nih_alloc : nat -> option (list Z))
  (root : list Z) (args : list (list Z)) (path : list Z) :
  (forall n b, nih_alloc n = Some b -> length b = n) ->
  Forall c_byte root -> Forall (Forall (plain char_signed)) args ->
  nih_dbus_path char_signed nih_alloc root args = PathOk path ->
  exists rest,
    path = root ++ rest
    /\ Forall (fun c => c = 47 \/ is_word c = true) rest
    /\ length (filter (fun c => c = 47) rest) = length args
    /\ length path = (length root + length args
                      + length (concat args)
                      + 2 * length (filter (fun b => negb (is_alnum b)) (concat args)))%nat.
Proof.
  intros Hsize Hroot Hargs.
  rewrite (nih_dbus_path_plain char_signed nih_alloc Hsize) by assumption.
  destruct (nih_alloc _); [|discriminate]. intros [= <-].
  exists (joined args).
  destruct (joined_alphabet args (plain_args_c_byte _ _ Hargs)) as [H1 H2].
  repeat split; [exact H1 | exact H2 |].
  rewrite length_app. clear. induction args as [|x args IH]; simpl; [lia|].
  rewrite !length_app, filter_app, length_app.
  assert (E : length (escape x)
              = (length x + 2 * length (filter (fun b => negb (is_alnum b)) x))%nat).
  { clear. induction x as [|b x IH]; simpl; [reflexivity|].
    rewrite length_app, IH. unfold escape_byte.
    destruct (is_alnum b) eqn:E.
    - rewrite filter_cons_False by (rewrite E; simpl; auto). simpl. lia.
    - rewrite filter_cons_True by (rewrite E; reflexivity). simpl. lia. }
  lia.
Qed.

(** The theorem at a call with an empty component in the middle. *)
Lemma nih_dbus_path_one_element_each_witness :
  nih_dbus_path true alloc_filled (bytes "/x") [bytes "a-b"; []; bytes "c"]
  = PathOk (bytes "/x/a_2db//c")
  /\ exists rest,
       bytes "/x/a_2db//c" = bytes "/x" ++ rest
       /\ Forall (fun c => c = 47 \/ is_word c = true) rest
       /\ length (filter (fun c => c = 47) rest) = 3%nat
       /\ length (bytes "/x/a_2db//c") = 11%nat.
Proof.
  split; [reflexivity|].
  destruct (nih_dbus_path_one_element_each true alloc_filled (bytes "/x")
              [bytes "a-b"; []; bytes "c"] (bytes "/x/a_2db//c"))
    as (rest & E & Hw & Hn & Hl).
  - intros n b [= <-]. apply length_replicate.
  - bytes_ok.
  - repeat (constructor; [bytes_ok|]); constructor.
  - reflexivity.
  - exists rest. repeat split; assumption.
Defined.

(** X5: a path built in two calls, the second rooted at the result of the
    first, is the path built in one call from all the components. *)
Theorem nih_dbus_path_compose
  (char_signed : bool) (nih_alloc : nat -> option (list Z))
  (root : list Z) (args1 args2 : list (list Z)) (mid : list Z) :
  (forall n b, nih_alloc n = Some b -> length b = n) ->
  (forall n, nih_alloc n <> None) ->
  Forall c_byte root ->
  Forall (Forall (plain char_signed)) args1 ->
  Forall (Forall (plain char_signed)) args2 ->
  nih_dbus_path char_signed nih_alloc root args1 = PathOk mid ->
  nih_dbus_path char_signed nih_alloc mid args2
  = nih_dbus_path char_signed nih_alloc root (args1 ++ args2).
Proof.
  intros Hsize Hmem Hroot H1 H2.
  rewrite (nih_dbus_path_plain char_signed nih_alloc Hsize root args1) by assumption.
  destruct (nih_alloc _); [|discriminate]. intros [= <-].
  rewrite !(nih_dbus_path_plain char_signed nih_alloc Hsize);
    [| assumption | apply Forall_app; split; assumption
     | apply Forall_app; split; [assumption|];
       apply joined_c_byte; eapply plain_args_c_byte; eassumption
     | assumption].
  rewrite joined_app, app_assoc.
  destruct (nih_alloc _) eqn:E1; [|exfalso; exact (Hmem _ E1)].
  destruct (nih_alloc (path_len char_signed root (args1 ++ args2) + 1)%nat) eqn:E2;
    [reflexivity | exfalso; exact (Hmem _ E2)].
Qed.

(** The theorem at a job path extended by an instance name. *)
Lemma nih_dbus_path_compose_witness :
  nih_dbus_path true alloc_filled (bytes "/com/ubuntu/Upstart/jobs/tty") [bytes "tty-1"]
  = nih_dbus_path true alloc_filled (bytes "/com/ubuntu/Upstart")
      ([bytes "jobs"; bytes "tty"] ++ [bytes "tty-1"]).
Proof.
  apply (nih_dbus_path_compose true alloc_filled (bytes "/com/ubuntu/Upstart")).
  - intros n b [= <-]. apply length_replicate.
  - intros n. discriminate.
  - bytes_ok.
  - repeat (constructor; [bytes_ok|]); constructor.
  - repeat (constructor; [bytes_ok|]); constructor.
  - reflexivity.
Defined.

End PathMore.

(** ** Watches: further properties *)
Module WatchMore.
Import Watch Watcher ListProps ListMore WatchProps.

Lemma land_through (e m k : Z) : Z.land m k = k -> Z.land e k = Z.land (Z.land e m) k.
Proof. intros H. rewrite <- Z.land_assoc, H. reflexivity. Qed.

Lemma land_7_range (e : Z) : 0 <= Z.land e 7 < 8.
Proof. change 7 with (Z.ones 3). rewrite Z.land_ones by lia. apply Z.mod_pos_bound. lia. Qed.

Lemma land_3_range (e : Z) : 0 <= Z.land e 3 < 4.
Proof. change 3 with (Z.ones 2). rewrite Z.land_ones by lia. apply Z.mod_pos_bound. lia. Qed.

(** The three conditions sit on the same bits on both sides. *)
Lemma flags_of_events_land (events : Z) : flags_of_events events = Z.land events 7.
Proof.
  unfold flags_of_events, NIH_IO_READ, NIH_IO_WRITE, NIH_IO_EXCEPT,
    DBUS_WATCH_READABLE, DBUS_WATCH_WRITABLE, DBUS_WATCH_ERROR.
  rewrite (land_through events 7 1), (land_through events 7 2), (land_through events 7 4)
    by reflexivity.
  pose proof (land_7_range events) as Hr.
  set (r := Z.land events 7) in *.
  assert (H : r = 0 \/ r = 1 \/ r = 2 \/ r = 3 \/ r = 4 \/ r = 5 \/ r = 6 \/ r = 7) by lia.
  destruct H as [->|[->|[->|[->|[->|[->|[->| ->]]]]]]]; reflexivity.
Qed.

Lemma events_of_flags_lor (flags : Z) :
  events_of_flags flags = Z.lor NIH_IO_EXCEPT (Z.land flags 3).
Proof.
  unfold events_of_flags, NIH_IO_READ, NIH_IO_WRITE, NIH_IO_EXCEPT,
    DBUS_WATCH_READABLE, DBUS_WATCH_WRITABLE.
  rewrite (land_through flags 3 1), (land_through flags 3 2) by reflexivity.
  pose proof (land_3_range flags) as Hr.
  set (r := Z.land flags 3) in *.
  assert (H : r = 0 \/ r = 1 \/ r = 2 \/ r = 3) by lia.
  destruct H as [->|[->|[->| ->]]]; reflexivity.
Qed.

(** X6: the watcher hands the library the read, write and error
    conditions of the host loop bit for bit and nothing else (never a
    hangup); the add callback asks the host loop for errors always and
    for reading and writing as the watch's flags say; so whatever the
    host loop reports within what was asked reaches the library as a
    condition the watch asked for, or as an error. *)
Theorem nih_dbus_watcher_flags (watch io_watch : nat) (events flags : Z) (calls : list call) :
  nih_dbus_watcher watch io_watch events calls
  = calls ++ [WatchHandle watch (Z.land events 7)]
  /\ Z.land (flags_of_events events) DBUS_WATCH_HANGUP = 0
  /\ events_of_flags flags = Z.lor NIH_IO_EXCEPT (Z.land flags 3)
  /\ flags_of_events (events_of_flags flags)
     = Z.lor DBUS_WATCH_ERROR (Z.land flags (Z.lor DBUS_WATCH_READABLE DBUS_WATCH_WRITABLE))
  /\ (Z.land events (events_of_flags flags) = events ->
      flags_of_events events = events
      /\ Z.land events (Z.lor flags DBUS_WATCH_ERROR) = events).
Proof.
  unfold nih_dbus_watcher. rewrite !flags_of_events_land, events_of_flags_lor.
  unfold DBUS_WATCH_HANGUP, NIH_IO_EXCEPT, DBUS_WATCH_ERROR, DBUS_WATCH_READABLE,
    DBUS_WATCH_WRITABLE.
  split; [reflexivity|]. split.
  { rewrite <- Z.land_assoc. apply Z.land_0_r. }
  split; [reflexivity|]. split.
  { apply Z.bits_inj'. intros n Hn.
    rewrite !Z.land_spec, !Z.lor_spec, !Z.land_spec.
    change (Z.lor 1 2) with 3.
    destruct (Z.eq_dec n 0) as [->|]; [destruct (Z.testbit flags 0); reflexivity|].
    destruct (Z.eq_dec n 1) as [->|]; [destruct (Z.testbit flags 1); reflexivity|].
    destruct (Z.eq_dec n 2) as [->|]; [destruct (Z.testbit flags 2); reflexivity|].
    assert (H3 : Z.testbit 3 n = false).
    { change 3 with (Z.ones 2). apply Z.ones_spec_high. lia. }
    assert (H4 : Z.testbit 4 n = false).
    { change 4 with (2 ^ 2). apply Z.pow2_bits_false. lia. }
    assert (H7 : Z.testbit 7 n = false).
    { change 7 with (Z.ones 3). apply Z.ones_spec_high. lia. }
    rewrite H3, H4, H7. destruct (Z.testbit flags n); reflexivity. }
  intros Hin. split.
  - rewrite <- Hin at 1. rewrite <- Z.land_assoc.
    replace (Z.land (Z.lor 4 (Z.land flags 3)) 7) with (Z.lor 4 (Z.land flags 3)); [exact Hin|].
    apply Z.bits_inj'. intros n Hn.
    rewrite !Z.land_spec, !Z.lor_spec, !Z.land_spec.
    destruct (Z.eq_dec n 0) as [->|]; [destruct (Z.testbit flags 0); reflexivity|].
    destruct (Z.eq_dec n 1) as [->|]; [destruct (Z.testbit flags 1); reflexivity|].
    destruct (Z.eq_dec n 2) as [->|]; [destruct (Z.testbit flags 2); reflexivity|].
    assert (H3 : Z.testbit 3 n = false).
    { change 3 with (Z.ones 2). apply Z.ones_spec_high. lia. }
    assert (H4 : Z.testbit 4 n = false).
    { change 4 with (2 ^ 2). apply Z.pow2_bits_false. lia. }
    rewrite H3, H4. destruct (Z.testbit flags n); reflexivity.
  - rewrite <- Hin at 1. rewrite <- Z.land_assoc.
    replace (Z.land (Z.lor 4 (Z.land flags 3)) (Z.lor flags 4))
      with (Z.lor 4 (Z.land flags 3)); [exact Hin|].
    apply Z.bits_inj'. intros n Hn.
    rewrite !Z.land_spec, !Z.lor_spec, !Z.land_spec.
    destruct (Z.testbit flags n), (Z.testbit 4 n), (Z.testbit 3 n); reflexivity.
Qed.

(** The theorem for a watch that asked for reading, when the host loop
    reports that the descriptor is readable and in error. *)
Lemma nih_dbus_watcher_flags_witness :
  Z.land 5 (events_of_flags DBUS_WATCH_READABLE) = 5
  /\ nih_dbus_watcher 1 0 5 [] = [WatchHandle 1 5]
  /\ Z.land 5 (Z.lor DBUS_WATCH_READABLE DBUS_WATCH_ERROR) = 5.
Proof.
  destruct (nih_dbus_watcher_flags 1 0 5 DBUS_WATCH_READABLE []) as (E & _ & _ & _ & H).
  split; [reflexivity|]. split; [exact E|]. apply H. reflexivity.
Defined.


Lemma loop_ext (lp1 lp2 : loop) :
  watches lp1 = watches lp2 -> io_watches lp1 = io_watches lp2 ->
  nih_io_watches lp1 = nih_io_watches lp2 -> lp1 = lp2.
Proof. destruct lp1, lp2. simpl. intros -> -> ->. reflexivity. Qed.

(** X7: a watch that is added and then removed leaves the host loop as it
    was, with no I/O watch allocated and none in the active list that was
    not there before; an add that runs out of memory leaves it as it was
    too. *)
Theorem watch_add_remove_restores (lp : loop) (w : nat) (fd flags : Z) (en : bool) :
  consistent lp -> watches lp !! w = None -> 0 <= fd ->
  run [LibAdd w fd flags en true; LibRemove w] lp = Some lp
  /\ run [LibAdd w fd flags en false] lp = Some lp.
Proof.
  intros [Hnd Hal Hda Hact Hown] Ew Hfd.
  assert (Hfresh : io_watches lp !! fresh (dom (io_watches lp)) = None).
  { apply not_elem_of_dom. apply is_fresh. }
  assert (Hnotin : fresh (dom (io_watches lp)) ∉ nih_io_watches lp).
  { intros Hin. apply Hal in Hin as [x Hx]. congruence. }
  assert (Hneg : (fd <? 0) = false) by (apply Z.ltb_ge; exact Hfd).
  split.
  - unfold run. cbn [fold_opt step]. rewrite Ew.
    unfold nih_dbus_add_watch. cbn [watches]. rewrite lookup_insert_eq.
    cbn [watch_data watch_fd watch_flags watch_enabled]. rewrite Hneg.
    unfold nih_io_add_watch. cbn [io_watches nih_io_watches watches].
    set (io := fresh (dom (io_watches lp))) in *.
    assert (Hrm : forall lp1 : loop,
              watches lp1 !! w = Some {| watch_fd := fd; watch_flags := flags;
                                         watch_enabled := en; watch_data := Some io |} ->
              (forall j, j <> w -> watches lp1 !! j = watches lp !! j) ->
              io_watches lp1 = <[io:={| io_fd := fd; io_events := events_of_flags flags;
                                        io_data := w |}]> (io_watches lp) ->
              nih_list_remove io (nih_io_watches lp1) = nih_io_watches lp ->
              match nih_dbus_remove_watch w lp1 with
              | Some lp2 => Some (drop_watch w lp2)
              | None => None
              end = Some lp).
    { intros lp1 E1 Eo Eio El. unfold nih_dbus_remove_watch. rewrite E1.
      cbn [watch_data]. f_equal. apply loop_ext; simpl.
      - apply map_eq. intros j. destruct (decide (w = j)) as [<-|Hne].
        + rewrite lookup_delete_eq, Ew. reflexivity.
        + rewrite lookup_delete_ne, lookup_alter_ne by exact Hne. apply Eo. congruence.
      - rewrite Eio. apply delete_insert_id. exact Hfresh.
      - exact El. }
    destruct en; (rewrite Hrm; [reflexivity | simpl..]).
    + rewrite lookup_alter_eq, lookup_insert_eq. reflexivity.
    + intros j Hj. rewrite lookup_alter_ne, lookup_insert_ne by congruence. reflexivity.
    + reflexivity.
    + apply nih_list_remove_add_absent, Hnotin.
    + rewrite lookup_alter_eq, lookup_insert_eq. reflexivity.
    + intros j Hj. rewrite lookup_alter_ne, lookup_insert_ne by congruence. reflexivity.
    + reflexivity.
    + rewrite nih_list_remove_add_absent by exact Hnotin.
      apply nih_list_remove_absent, Hnotin.
  - unfold run. cbn [fold_opt step]. rewrite Ew.
    unfold nih_dbus_add_watch. cbn [watches]. rewrite lookup_insert_eq.
    cbn [watch_data watch_fd watch_flags watch_enabled]. rewrite Hneg.
    unfold nih_io_add_watch. f_equal. apply loop_ext; simpl; try reflexivity.
    apply delete_insert_id. exact Ew.
Qed.

(** The theorem on the empty host loop. *)
Lemma watch_add_remove_restores_witness :
  run [LibAdd 1 3 DBUS_WATCH_READABLE false true; LibRemove 1] empty_loop = Some empty_loop
  /\ run [LibAdd 1 3 DBUS_WATCH_READABLE false false] empty_loop = Some empty_loop.
Proof.
  apply (watch_add_remove_restores empty_loop 1 3 DBUS_WATCH_READABLE false).
  - exact empty_loop_consistent.
  - reflexivity.
  - lia.
Defined.

Lemma step_all_added (lp lp' : loop) (ev : event) :
  all_added lp -> step lp ev = Some lp' -> all_added lp'.
Proof.
  intros Ha H. destruct ev as [w fd flags en ok|w en|w]; simpl in H.
  - destruct (watches lp !! w) eqn:Ew; [discriminate|].
    unfold nih_dbus_add_watch in H. simpl in H. rewrite lookup_insert_eq in H. simpl in H.
    destruct (fd <? 0); [discriminate|].
    unfold nih_io_add_watch in H. destruct ok; simpl in H.
    + assert (Hw : forall l io, all_added
                {| watches := alter (fun dw0 => {| watch_fd := watch_fd dw0;
                                                   watch_flags := watch_flags dw0;
                                                   watch_enabled := watch_enabled dw0;
                                                   watch_data := Some io |}) w
                                (<[w:={| watch_fd := fd; watch_flags := flags;
                                         watch_enabled := en; watch_data := None |}]>
                                   (watches lp));
                   io_watches := <[io:={| io_fd := fd; io_events := events_of_flags flags;
                                          io_data := w |}]> (io_watches lp);
                   nih_io_watches := l |}).
      { intros l io w1 dw1. simpl. rewrite lookup_alter.
        destruct (decide (w = w1)) as [<-|Hne].
        - rewrite lookup_insert_eq. simpl. intros [= <-]. simpl. eauto.
        - rewrite lookup_insert_ne by exact Hne. apply Ha. }
      destruct en; injection H as <-; apply Hw.
    + injection H as <-. intros w1 dw1. unfold drop_watch. simpl.
      rewrite delete_insert_id by exact Ew. apply Ha.
  - unfold nih_dbus_watch_toggled in H.
    destruct (watches (set_enabled w en lp) !! w) as [dw|] eqn:Ew; [|discriminate].
    destruct (watch_data dw); [|discriminate].
    assert (Hs : all_added (set_enabled w en lp)).
    { intros w1 dw1 E1. destruct (lookup_set_enabled _ _ _ _ _ E1) as (dw0 & E0 & Hd & _).
      rewrite Hd. eapply Ha, E0. }
    destruct (watch_enabled dw); injection H as <-; exact Hs.
  - unfold nih_dbus_remove_watch in H.
    destruct (watches lp !! w) as [dw|] eqn:Ew; [|discriminate].
    destruct (watch_data dw); [|discriminate].
    injection H as <-. intros w1 dw1. unfold drop_watch. simpl.
    rewrite lookup_delete. destruct (decide (w = w1)); [discriminate|].
    rewrite lookup_alter_ne by assumption. apply Ha.
Qed.

Lemma run_all_added (evs : list event) : forall lp lp',
  all_added lp -> run evs lp = Some lp' -> all_added lp'.
Proof.
  unfold run. induction evs as [|ev evs IH]; intros lp lp' Ha H; simpl in H.
  - injection H as <-. exact Ha.
  - destruct (step lp ev) as [lp1|] eqn:E; [|discriminate].
    eapply IH; [|exact H]. eapply step_all_added; eauto.
Qed.

Lemma step_protocol (lp : loop) (ev : event) :
  all_added lp -> (is_Some (step lp ev) <-> protocol_ok lp ev = true).
Proof.
  intros Ha. destruct ev as [w fd flags en ok|w en|w]; simpl.
  - rewrite andb_true_iff, bool_decide_eq_true, Z.leb_le.
    destruct (watches lp !! w) eqn:Ew.
    { split; [intros [x [=]] | intros [[=] _]]. }
    unfold nih_dbus_add_watch. simpl. rewrite lookup_insert_eq. simpl.
    destruct (Z.ltb_spec fd 0).
    { split; [intros [x [=]] | intros [_ ?]; lia]. }
    unfold nih_io_add_watch. destruct ok; simpl.
    + split; [intros _; split; [reflexivity | lia] | intros _].
      destruct en; eauto.
    + split; [intros _; split; [reflexivity | lia] | eauto].
  - rewrite bool_decide_eq_true. unfold nih_dbus_watch_toggled. simpl.
    rewrite lookup_alter_eq.
    destruct (watches lp !! w) as [dw|] eqn:Ew; simpl.
    + destruct (Ha _ _ Ew) as [io ->]. destruct en; split; eauto.
    + split; [intros [x [=]] | intros [x [=]]].
  - rewrite bool_decide_eq_true. unfold nih_dbus_remove_watch.
    destruct (watches lp !! w) as [dw|] eqn:Ew; simpl.
    + destruct (Ha _ _ Ew) as [io ->]. split; eauto.
    + split; [intros [x [=]] | intros [x [=]]].
Qed.

(** X8: whatever the library has done so far, none of the assertions of
    the three callbacks fails on the next call as long as the library
    keeps to its protocol: add for a watch that is not added and has a
    file descriptor, toggle and remove for one that is. *)
Theorem watch_assertions_hold (evs : list event) (lp : loop) (ev : event) :
  run evs empty_loop = Some lp ->
  (is_Some (step lp ev) <-> protocol_ok lp ev = true).
Proof.
  intros Hrun. apply step_protocol.
  eapply run_all_added; [|exact Hrun].
  intros w dw H. simpl in H. rewrite lookup_empty in H. discriminate.
Qed.

(** The theorem after a failed and a successful add. *)
Lemma watch_assertions_hold_witness :
  is_Some (run [LibAdd 1 3 1 true false; LibAdd 1 3 1 false true; LibToggle 1 true]
             empty_loop)
  /\ protocol_ok {| watches := {[ 1%nat := {| watch_fd := 3; watch_flags := 1;
                                            watch_enabled := false;
                                            watch_data := Some 0%nat |} ]};
                    io_watches := {[ 0%nat := {| io_fd := 3; io_events := 5;
                                                 io_data := 1 |} ]};
                    nih_io_watches := [] |} (LibToggle 1 true) = true.
Proof.
  split; [vm_compute; eauto|].
  apply (watch_assertions_hold [LibAdd 1 3 1 true false; LibAdd 1 3 1 false true]).
  - vm_compute. reflexivity.
  - vm_compute. eauto.
Defined.

End WatchMore.

(** ** Timeouts: the state the bridge keeps *)
Module TimeoutMore.
Import Timeout TimeoutState ListProps ListMore.

Lemma empty_loop_consistent_timers : consistent empty_loop.
Proof.
  constructor; simpl.
  - constructor.
  - intros timer H. apply elem_of_nil in H. contradiction.
  - intros t dt timer H. rewrite lookup_empty in H. discriminate.
  - intros t dt timer H. rewrite lookup_empty in H. discriminate.
  - intros t1 t2 dt1 dt2 timer H. rewrite lookup_empty in H. discriminate.
Qed.

Lemma add_timeout_consistent (now : Z) (lp lp' : loop) (t : nat) (ms : Z) (en ok : bool) :
  consistent lp -> step now lp (LibAdd t ms en ok) = Some lp' -> consistent lp'.
Proof.
  intros Hc H. pose proof Hc as [Hnd Hal Hda Hact Hown]. simpl in H.
  destruct (timeouts lp !! t) eqn:Et; [discriminate|].
  unfold nih_dbus_add_timeout in H. simpl in H. rewrite lookup_insert_eq in H. simpl in H.
  unfold nih_timer_add_periodic in H. destruct ok; simpl in H.
  - set (timer := fresh (dom (timers lp))) in *.
    assert (Hfresh : timers lp !! timer = None).
    { apply not_elem_of_dom. apply is_fresh. }
    assert (Hnotin : timer ∉ nih_timers lp).
    { intros Hin. apply Hal in Hin as [x Hx]. congruence. }
    set (dt := {| interval := ms; timeout_enabled := en; timeout_data := None |}) in *.
    assert (Hsplit : forall t1 dt1 timer1,
              alter (fun dt0 => {| interval := interval dt0;
                                   timeout_enabled := timeout_enabled dt0;
                                   timeout_data := Some timer |}) t (<[t:=dt]> (timeouts lp)) !! t1
              = Some dt1 ->
              timeout_data dt1 = Some timer1 ->
              (t1 = t /\ timer1 = timer /\ timeout_enabled dt1 = en /\ interval dt1 = ms)
              \/ (t1 <> t /\ timer1 <> timer /\ timeouts lp !! t1 = Some dt1)).
    { intros t1 dt1 timer1 E1 D1. rewrite lookup_alter in E1.
      destruct (decide (t = t1)) as [<-|Hne].
      - rewrite lookup_insert_eq in E1. simpl in E1. injection E1 as <-.
        simpl in D1. left. split; [reflexivity|]. split; [congruence|].
        split; reflexivity.
      - rewrite lookup_insert_ne in E1 by exact Hne. right.
        split; [congruence|]. split; [|exact E1].
        intros ->. destruct (Hda _ _ _ E1 D1) as (x & Hx & _). congruence. }
    assert (Hc' : forall l, NoDup l ->
              (forall x, x ∈ l <-> (x = timer /\ en = true) \/ x ∈ nih_timers lp) ->
              consistent
                {| timeouts := alter (fun dt0 => {| interval := interval dt0;
                                                    timeout_enabled := timeout_enabled dt0;
                                                    timeout_data := Some timer |}) t
                                 (<[t:=dt]> (timeouts lp));
                   timers := <[timer:={| period := timer_period ms;
                                         due := now + timer_period ms;
                                         timer_data := t |}]> (timers lp);
                   nih_timers := l |}).
    { intros l Hl Hmem. constructor; simpl.
      - exact Hl.
      - intros x Hx. rewrite lookup_insert. destruct (decide (timer = x)); [eauto|].
        apply Hmem in Hx as [[-> _]|Hx]; [congruence | auto].
      - intros t1 dt1 timer1 E1 D1.
        destruct (Hsplit _ _ _ E1 D1) as [(-> & -> & _ & ->)|(_ & Hne & E)].
        + rewrite lookup_insert_eq. eexists. split; [reflexivity|]. split; reflexivity.
        + rewrite lookup_insert_ne by congruence. eauto.
      - intros t1 dt1 timer1 E1 D1. rewrite Hmem.
        destruct (Hsplit _ _ _ E1 D1) as [(_ & -> & -> & _)|(_ & Hne & E)].
        + tauto.
        + rewrite <- (Hact _ _ _ E D1). tauto.
      - intros t1 t2 dt1 dt2 timer1 E1 D1 E2 D2.
        destruct (Hsplit _ _ _ E1 D1) as [(-> & -> & _)|(_ & Hn1 & E1')];
          destruct (Hsplit _ _ _ E2 D2) as [(-> & Hn2 & _)|(_ & Hn2 & E2')];
          try congruence.
        eauto. }
    destruct en; injection H as <-; apply Hc'; simpl.
    + apply NoDup_nih_list_add, Hnd.
    + intros x. rewrite elem_of_nih_list_add. tauto.
    + apply NoDup_nih_list_remove, NoDup_nih_list_add, Hnd.
    + intros x. rewrite elem_of_nih_list_remove, elem_of_nih_list_add.
      split; [intros [[->|Hx] Hne]; [congruence | tauto]|].
      intros [[_ [=]]|Hx]. split; [tauto | congruence].
  - injection H as <-. simpl.
    rewrite delete_insert_id by exact Et. destruct lp. exact Hc.
Qed.

Lemma toggled_timeout_consistent (now : Z) (lp lp' : loop) (t : nat) (ms : Z) (en : bool) :
  consistent lp -> step now lp (LibToggle t ms en) = Some lp' -> consistent lp'.
Proof.
  intros [Hnd Hal Hda Hact Hown] H. simpl in H.
  destruct (timeouts lp !! t) as [dt|] eqn:Et; [|discriminate].
  unfold nih_dbus_timeout_toggled in H. simpl in H. rewrite lookup_insert_eq in H.
  simpl in H. destruct (timeout_data dt) as [timer|] eqn:Ed; [|discriminate].
  destruct (timers lp !! timer) as [tm|] eqn:Etm; [|discriminate].
  destruct (Hda _ _ _ Et Ed) as (tm' & Etm' & _ & Htd).
  rewrite Etm in Etm'. injection Etm' as <-.
  assert (Hsplit : forall t1 dt1 timer1,
            <[t:={| interval := ms; timeout_enabled := en; timeout_data := Some timer |}]>
              (timeouts lp) !! t1 = Some dt1 ->
            timeout_data dt1 = Some timer1 ->
            (t1 = t /\ timer1 = timer /\ timeout_enabled dt1 = en /\ interval dt1 = ms)
            \/ (t1 <> t /\ timer1 <> timer /\ timeouts lp !! t1 = Some dt1)).
  { intros t1 dt1 timer1 E1 D1. destruct (decide (t = t1)) as [<-|Hne].
    - rewrite lookup_insert_eq in E1. injection E1 as <-. simpl in D1.
      left. split; [reflexivity|]. split; [congruence|]. split; reflexivity.
    - rewrite lookup_insert_ne in E1 by exact Hne. right.
      split; [congruence|]. split; [|exact E1].
      intros ->. apply Hne. eapply Hown; eauto. }
  assert (Hc' : forall l, NoDup l ->
            (forall x, x ∈ l <-> (x = timer /\ en = true) \/ (x <> timer /\ x ∈ nih_timers lp)) ->
            consistent
              {| timeouts := <[t:={| interval := ms; timeout_enabled := en;
                                     timeout_data := Some timer |}]> (timeouts lp);
                 timers := <[timer:={| period := timer_period ms;
                                       due := now + timer_period ms;
                                       timer_data := timer_data tm |}]> (timers lp);
                 nih_timers := l |}).
  { intros l Hl Hmem. constructor; simpl.
    - exact Hl.
    - intros x Hx. rewrite lookup_insert. destruct (decide (timer = x)); [eauto|].
      apply Hmem in Hx as [[-> _]|[_ Hx]]; [congruence | auto].
    - intros t1 dt1 timer1 E1 D1.
      destruct (Hsplit _ _ _ E1 D1) as [(-> & -> & _ & ->)|(_ & Hne & E)].
      + rewrite lookup_insert_eq. eexists. split; [reflexivity|]. split; [reflexivity|].
        exact Htd.
      + rewrite lookup_insert_ne by congruence. eauto.
    - intros t1 dt1 timer1 E1 D1. rewrite Hmem.
      destruct (Hsplit _ _ _ E1 D1) as [(_ & -> & -> & _)|(_ & Hne & E)].
      + tauto.
      + rewrite <- (Hact _ _ _ E D1). tauto.
    - intros t1 t2 dt1 dt2 timer1 E1 D1 E2 D2.
      destruct (Hsplit _ _ _ E1 D1) as [(-> & -> & _)|(_ & Hn1 & E1')];
        destruct (Hsplit _ _ _ E2 D2) as [(-> & Hn2 & _)|(_ & Hn2 & E2')];
        try congruence.
      eauto. }
  injection H as <-. apply Hc'; destruct en.
  - apply NoDup_nih_list_add, Hnd.
  - apply NoDup_nih_list_remove, Hnd.
  - intros x. rewrite elem_of_nih_list_add. destruct (decide (x = timer)); tauto.
  - intros x. rewrite elem_of_nih_list_remove.
    split; [tauto|]. intros [[_ [=]]|[? ?]]. tauto.
Qed.

Lemma remove_timeout_consistent (now : Z) (lp lp' : loop) (t : nat) :
  consistent lp -> step now lp (LibRemove t) = Some lp' -> consistent lp'.
Proof.
  intros [Hnd Hal Hda Hact Hown] H. simpl in H. unfold nih_dbus_remove_timeout in H.
  destruct (timeouts lp !! t) as [dt|] eqn:Et; [|discriminate].
  destruct (timeout_data dt) as [timer|] eqn:Ed; [|discriminate].
  injection H as <-. simpl.
  assert (Hsplit : forall t1 dt1 timer1,
            delete t (alter (fun dt0 => {| interval := interval dt0;
                                           timeout_enabled := timeout_enabled dt0;
                                           timeout_data := None |}) t (timeouts lp)) !! t1
            = Some dt1 ->
            timeout_data dt1 = Some timer1 ->
            t1 <> t /\ timer1 <> timer /\ timeouts lp !! t1 = Some dt1).
  { intros t1 dt1 timer1 E1 D1. rewrite lookup_delete in E1.
    destruct (decide (t = t1)) as [|Hne]; [discriminate|].
    rewrite lookup_alter_ne in E1 by exact Hne.
    split; [congruence|]. split; [|exact E1].
    intros ->. apply Hne. eapply Hown; eauto. }
  constructor; simpl.
  - apply NoDup_nih_list_remove, Hnd.
  - intros x Hx. apply elem_of_nih_list_remove in Hx as [Hx Hne].
    rewrite lookup_delete_ne by congruence. auto.
  - intros t1 dt1 timer1 E1 D1. destruct (Hsplit _ _ _ E1 D1) as (_ & Hne & E).
    rewrite lookup_delete_ne by congruence. eauto.
  - intros t1 dt1 timer1 E1 D1. destruct (Hsplit _ _ _ E1 D1) as (_ & Hne & E).
    rewrite elem_of_nih_list_remove, <- (Hact _ _ _ E D1). tauto.
  - intros t1 t2 dt1 dt2 timer1 E1 D1 E2 D2.
    destruct (Hsplit _ _ _ E1 D1) as (_ & _ & E1').
    destruct (Hsplit _ _ _ E2 D2) as (_ & _ & E2'). eauto.
Qed.

Lemma step_timeout_consistent (now : Z) (lp lp' : loop) (ev : event) :
  consistent lp -> step now lp ev = Some lp' -> consistent lp'.
Proof.
  destruct ev.
  - apply add_timeout_consistent.
  - apply toggled_timeout_consistent.
  - apply remove_timeout_consistent.
Qed.

Lemma run_timeout_consistent (evs : list (Z * event)) : forall lp lp',
  consistent lp -> run evs lp = Some lp' -> consistent lp'.
Proof.
  unfold run. induction evs as [|[now ev] evs IH]; intros lp lp' Hc H; simpl in H.
  - injection H as <-. exact Hc.
  - destruct (step now lp ev) as [lp1|] eqn:E; [|discriminate].
    eapply IH; [|exact H]. eapply step_timeout_consistent; eauto.
Qed.


Lemma step_in_range (now : Z) (lp lp' : loop) (ev : event) :
  intervals_in_range lp -> event_in_range ev -> step now lp ev = Some lp' ->
  intervals_in_range lp'.
Proof.
  intros Hr Hev H. destruct ev as [t ms en ok|t ms en|t]; simpl in H, Hev.
  - destruct (timeouts lp !! t) eqn:Et; [discriminate|].
    unfold nih_dbus_add_timeout in H. simpl in H. rewrite lookup_insert_eq in H. simpl in H.
    unfold nih_timer_add_periodic in H. destruct ok; simpl in H.
    + assert (Hgoal : forall timer t1 dt1,
                alter (fun dt0 => {| interval := interval dt0;
                                     timeout_enabled := timeout_enabled dt0;
                                     timeout_data := Some timer |}) t
                  (<[t:={| interval := ms; timeout_enabled := en;
                           timeout_data := None |}]> (timeouts lp)) !! t1 = Some dt1 ->
                in_range (interval dt1)).
      { intros timer t1 dt1 E1. rewrite lookup_alter in E1.
        destruct (decide (t = t1)) as [<-|Hne].
        - rewrite lookup_insert_eq in E1. simpl in E1. injection E1 as <-. exact Hev.
        - rewrite lookup_insert_ne in E1 by exact Hne. apply (Hr _ _ E1). }
      destruct en; injection H as <-; intros t1 dt1; apply Hgoal.
    + injection H as <-. intros t1 dt1. simpl.
      rewrite delete_insert_id by exact Et. apply Hr.
  - destruct (timeouts lp !! t) as [dt|] eqn:Et; [|discriminate].
    unfold nih_dbus_timeout_toggled in H. simpl in H. rewrite lookup_insert_eq in H.
    simpl in H. destruct (timeout_data dt) as [timer|]; [|discriminate].
    destruct (timers lp !! timer); [|discriminate].
    injection H as <-. intros t1 dt1. simpl.
    destruct (decide (t = t1)) as [<-|Hne].
    + rewrite lookup_insert_eq. intros [= <-]. exact Hev.
    + rewrite lookup_insert_ne by exact Hne. apply Hr.
  - unfold nih_dbus_remove_timeout in H.
    destruct (timeouts lp !! t) as [dt|] eqn:Et; [|discriminate].
    destruct (timeout_data dt); [|discriminate].
    injection H as <-. intros t1 dt1. simpl. rewrite lookup_delete.
    destruct (decide (t = t1)); [discriminate|].
    rewrite lookup_alter_ne by assumption. apply Hr.
Qed.

Lemma run_in_range (evs : list (Z * event)) : forall lp lp',
  intervals_in_range lp -> Forall (fun e => event_in_range e.2) evs ->
  run evs lp = Some lp' -> intervals_in_range lp'.
Proof.
  unfold run. induction evs as [|[now ev] evs IH]; intros lp lp' Hr Hevs H; simpl in H.
  - injection H as <-. exact Hr.
  - inversion Hevs as [|? ? Hev Hevs']; subst.
    destruct (step now lp ev) as [lp1|] eqn:E; [|discriminate].
    eapply IH; [|exact Hevs'|exact H]. eapply step_in_range; eauto.
Qed.

(** On the intervals of the library the period is a positive [int]. *)
Lemma timer_period_in_int (ms : Z) : in_range ms -> 1 <= timer_period ms <= INT_MAX.
Proof.
  unfold in_range, timer_period, INT_MAX. intros Hms.
  destruct (Z.eq_dec ms 0) as [->|Hne].
  { replace ((0 - 1) `quot` 1000) with 0 by reflexivity. lia. }
  rewrite Z.quot_div_nonneg by lia.
  pose proof (Z.div_pos (ms - 1) 1000 ltac:(lia) ltac:(lia)).
  assert ((ms - 1) `div` 1000 < 2147484) by (apply Z.div_lt_upper_bound; lia).
  lia.
Qed.

(** X9: after any sequence of add, toggle and remove callbacks, at any
    times and with intervals from 0 to [INT_MAX] milliseconds as the
    library gives them, the timer of a timeout is allocated, carries the
    timeout as its callback data and the period computed from the
    timeout's current interval, a positive [int], and stands in the timer
    list once when the timeout is enabled and not at all when it is
    disabled. *)
Theorem timer_listed_iff_enabled (evs : list (Z * event)) (lp0 lp : loop) :
  consistent lp0 -> intervals_in_range lp0 ->
  Forall (fun e => event_in_range e.2) evs ->
  run evs lp0 = Some lp ->
  forall t dt timer,
    timeouts lp !! t = Some dt -> timeout_data dt = Some timer ->
    0 <= interval dt <= INT_MAX
    /\ exists tm, timers lp !! timer = Some tm
         /\ period tm = timer_period (interval dt)
         /\ 1 <= period tm <= INT_MAX
         /\ timer_data tm = t
         /\ occurrences timer (nih_timers lp) = (if timeout_enabled dt then 1 else 0)%nat.
Proof.
  intros Hc0 Hr0 Hevs Hrun t dt timer Et Ed.
  pose proof (run_timeout_consistent _ _ _ Hc0 Hrun) as [Hnd Hal Hda Hact Hown].
  pose proof (run_in_range _ _ _ Hr0 Hevs Hrun _ _ Et) as Hms.
  split; [exact Hms|].
  destruct (Hda _ _ _ Et Ed) as (tm & Etm & Hp & Hd).
  exists tm. split; [exact Etm|]. split; [exact Hp|].
  split; [rewrite Hp; apply timer_period_in_int, Hms|]. split; [exact Hd|].
  rewrite occurrences_NoDup by exact Hnd.
  pose proof (Hact _ _ _ Et Ed) as Hiff.
  destruct (decide (timer ∈ nih_timers lp)) as [Hin|Hin];
    destruct (timeout_enabled dt); try reflexivity.
  - apply Hiff in Hin. discriminate.
  - exfalso. apply Hin, Hiff. reflexivity.
Qed.

(** The theorem after a timeout of 1500 ms is added at time 10 and
    disabled with an interval of 2500 ms at time 12. *)
Lemma timer_listed_iff_enabled_witness :
  exists lp,
    run [(10, LibAdd 7 1500 true true); (12, LibToggle 7 2500 false)] empty_loop = Some lp
    /\ nih_timers lp = []
    /\ forall t dt timer,
         timeouts lp !! t = Some dt -> timeout_data dt = Some timer ->
         0 <= interval dt <= INT_MAX
         /\ exists tm, timers lp !! timer = Some tm
              /\ period tm = timer_period (interval dt)
              /\ 1 <= period tm <= INT_MAX
              /\ timer_data tm = t
              /\ occurrences timer (nih_timers lp)
                 = (if timeout_enabled dt then 1 else 0)%nat.
Proof.
  eexists. split; [vm_compute; reflexivity|]. split; [reflexivity|].
  eapply (timer_listed_iff_enabled
            [(10, LibAdd 7 1500 true true); (12, LibToggle 7 2500 false)] empty_loop).
  - exact empty_loop_consistent_timers.
  - intros t dt H. simpl in H. rewrite lookup_empty in H. discriminate.
  - repeat (apply List.Forall_cons; [simpl; unfold in_range, INT_MAX; lia|]).
    apply List.Forall_nil.
  - vm_compute. reflexivity.
Defined.

Lemma timeout_loop_ext (lp1 lp2 : loop) :
  timeouts lp1 = timeouts lp2 -> timers lp1 = timers lp2 ->
  nih_timers lp1 = nih_timers lp2 -> lp1 = lp2.
Proof. destruct lp1, lp2. simpl. intros -> -> ->. reflexivity. Qed.

(** X10: a timeout that is added and then removed leaves the host loop as
    it was, with no timer allocated and none in the timer list that was
    not there before; an add that runs out of memory leaves it as it was
    too. *)
Theorem timeout_add_remove_restores
  (lp : loop) (t : nat) (ms now later : Z) (en : bool) :
  consistent lp -> timeouts lp !! t = None ->
  run [(now, LibAdd t ms en true); (later, LibRemove t)] lp = Some lp
  /\ run [(now, LibAdd t ms en false)] lp = Some lp.
Proof.
  intros [Hnd Hal Hda Hact Hown] Et.
  assert (Hfresh : timers lp !! fresh (dom (timers lp)) = None).
  { apply not_elem_of_dom. apply is_fresh. }
  assert (Hnotin : fresh (dom (timers lp)) ∉ nih_timers lp).
  { intros Hin. apply Hal in Hin as [x Hx]. congruence. }
  split.
  - unfold run. cbn [fold_opt step]. rewrite Et.
    unfold nih_dbus_add_timeout. cbn [timeouts]. rewrite lookup_insert_eq.
    cbn [timeout_data interval timeout_enabled].
    unfold nih_timer_add_periodic. cbn [timers nih_timers timeouts].
    set (timer := fresh (dom (timers lp))) in *.
    assert (Hrm : forall lp1 : loop,
              timeouts lp1 !! t = Some {| interval := ms; timeout_enabled := en;
                                          timeout_data := Some timer |} ->
              (forall j, j <> t -> timeouts lp1 !! j = timeouts lp !! j) ->
              timers lp1 = <[timer:={| period := timer_period ms;
                                       due := now + timer_period ms;
                                       timer_data := t |}]> (timers lp) ->
              nih_list_remove timer (nih_timers lp1) = nih_timers lp ->
              match nih_dbus_remove_timeout t lp1 with
              | Some lp2 => Some {| timeouts := delete t (timeouts lp2);
                                    timers := timers lp2; nih_timers := nih_timers lp2 |}
              | None => None
              end = Some lp).
    { intros lp1 E1 Eo Etm El. unfold nih_dbus_remove_timeout. rewrite E1.
      cbn [timeout_data]. f_equal. apply timeout_loop_ext; simpl.
      - apply map_eq. intros j. destruct (decide (t = j)) as [<-|Hne].
        + rewrite lookup_delete_eq, Et. reflexivity.
        + rewrite lookup_delete_ne, lookup_alter_ne by exact Hne. apply Eo. congruence.
      - rewrite Etm. apply delete_insert_id. exact Hfresh.
      - exact El. }
    destruct en; (rewrite Hrm; [reflexivity | simpl..]).
    + rewrite lookup_alter_eq, lookup_insert_eq. reflexivity.
    + intros j Hj. rewrite lookup_alter_ne, lookup_insert_ne by congruence. reflexivity.
    + reflexivity.
    + apply nih_list_remove_add_absent, Hnotin.
    + rewrite lookup_alter_eq, lookup_insert_eq. reflexivity.
    + intros j Hj. rewrite lookup_alter_ne, lookup_insert_ne by congruence. reflexivity.
    + reflexivity.
    + rewrite nih_list_remove_add_absent by exact Hnotin.
      apply nih_list_remove_absent, Hnotin.
  - unfold run. cbn [fold_opt step]. rewrite Et.
    unfold nih_dbus_add_timeout. cbn [timeouts]. rewrite lookup_insert_eq.
    cbn [timeout_data interval timeout_enabled].
    unfold nih_timer_add_periodic. f_equal. apply timeout_loop_ext; simpl; try reflexivity.
    apply delete_insert_id. exact Et.
Qed.

(** The theorem on the empty host loop. *)
Lemma timeout_add_remove_restores_witness :
  run [(10, LibAdd 7 250 true true); (11, LibRemove 7)] empty_loop = Some empty_loop
  /\ run [(10, LibAdd 7 250 true false)] empty_loop = Some empty_loop.
Proof.
  apply (timeout_add_remove_restores empty_loop 7 250 10 11 true).
  - exact empty_loop_consistent_timers.
  - reflexivity.
Defined.

End TimeoutMore.

(** ** Connection setup: what a failed call leaves behind *)
Module ConnMore.
Import DBus Conn ConnProps.

Lemma fresh_not_in (l : list nat) : fresh l ∉ l.
Proof. apply infinite_is_fresh. Qed.

Lemma free_added_func (w : world) :
  free_main_loop_func (nih_main_loop_add_func w).1 (nih_main_loop_add_func w).2 = w.
Proof.
  unfold free_main_loop_func, nih_main_loop_add_func. simpl.
  rewrite filter_app, filter_cons_False, filter_nil, app_nil_r by tauto.
  assert (E : filter (fun f => f <> fresh (main_loop_funcs w)) (main_loop_funcs w)
              = main_loop_funcs w).
  { apply (ListProps.nih_list_remove_absent (fresh (main_loop_funcs w))), fresh_not_in. }
  rewrite E. destruct w. reflexivity.
Qed.

(** X11: whatever runs out of memory, a call of [nih_dbus_setup] returns 0
    or -1, takes and drops no reference, calls no handler, and adds the
    filter of its handler, after the filters that were there, exactly
    when it returns 0; it takes one reference on the data slot unless the
    slot itself could not be had. *)
Theorem setup_adds_filter_iff_zero (mem : setup_mem) (handler : option nat) (w : world) :
  let r := nih_dbus_setup mem handler w in
  (r.1 = 0 \/ r.1 = -1)
  /\ refcount (conn r.2) = refcount (conn w)
  /\ trace r.2 = trace w
  /\ filters (conn r.2) = filters (conn w) ++ (if r.1 =? 0 then [handler] else [])
  /\ slot_refs r.2 = (slot_refs w + (if slot_ok mem then 1 else 0))%nat
  /\ (r.1 = 0 -> is_Some (main_loop_data (conn r.2))).
Proof.
  unfold nih_dbus_setup, setup_first, setup_shared. simpl.
  destruct (main_loop_data (conn w)) eqn:E;
    destruct mem as [[] [] [] [] [] []]; simpl; rewrite ?E, ?app_nil_r;
    repeat split; auto; try lia; try discriminate; eauto.
Qed.

(** X12: where a failed first call stops decides what it leaves behind.
    Without the slot, the main-loop function or the slot's data, nothing
    is left but the reference on the slot: the main-loop function that
    could not be stored is freed again.  Once the function is stored, a
    later failure leaves it stored and registered with the main loop, and
    leaves the watch functions installed if the failure came after
    them. *)
Theorem setup_failure_leftovers (mem : setup_mem) (handler : option nat) (w : world) :
  main_loop_data (conn w) = None ->
  (slot_ok mem = false -> nih_dbus_setup mem handler w = (-1, w))
  /\ (slot_ok mem = true -> loop_ok mem && data_ok mem = false ->
      nih_dbus_setup mem handler w = (-1, allocate_data_slot w))
  /\ (slot_ok mem = true -> loop_ok mem && data_ok mem = true ->
      watch_ok mem && timeout_ok mem && filter_ok mem = false ->
      (nih_dbus_setup mem handler w).1 = -1
      /\ main_loop_data (conn (nih_dbus_setup mem handler w).2)
         = Some (fresh (main_loop_funcs w))
      /\ main_loop_funcs (nih_dbus_setup mem handler w).2
         = main_loop_funcs w ++ [fresh (main_loop_funcs w)]
      /\ watch_functions (conn (nih_dbus_setup mem handler w).2)
         = (watch_functions (conn w) + (if watch_ok mem then 1 else 0))%nat
      /\ timeout_functions (conn (nih_dbus_setup mem handler w).2)
         = (timeout_functions (conn w)
            + (if watch_ok mem && timeout_ok mem then 1 else 0))%nat
      /\ wakeup_main_function (conn (nih_dbus_setup mem handler w).2)
         = (wakeup_main_function (conn w)
            + (if watch_ok mem && timeout_ok mem then 1 else 0))%nat).
Proof.
  intros Hnone. split; [|split].
  - intros Hs. unfold nih_dbus_setup. rewrite Hs. reflexivity.
  - intros Hs Hld. unfold nih_dbus_setup, setup_first. rewrite Hs. simpl. rewrite Hnone.
    destruct (loop_ok mem); simpl; [|reflexivity].
    simpl in Hld. rewrite Hld. simpl. f_equal.
    apply (free_added_func (allocate_data_slot w)).
  - intros Hs Hld Hrest. apply andb_true_iff in Hld as [Hl Hd].
    unfold nih_dbus_setup, setup_first, setup_shared. rewrite Hs, Hl, Hd. simpl.
    rewrite Hnone.
    destruct (watch_ok mem), (timeout_ok mem), (filter_ok mem); simpl in *;
      try discriminate; repeat split; lia.
Qed.

(** The theorem when the watch functions cannot be installed. *)
Lemma setup_failure_leftovers_witness :
  (nih_dbus_setup {| slot_ok := true; loop_ok := true; data_ok := true; watch_ok := false;
                     timeout_ok := true; filter_ok := true |} (Some 1%nat) (fresh_world 1)).1
  = -1
  /\ main_loop_data
       (conn (nih_dbus_setup {| slot_ok := true; loop_ok := true; data_ok := true;
                                watch_ok := false; timeout_ok := true; filter_ok := true |}
                (Some 1%nat) (fresh_world 1)).2) = Some 0%nat
  /\ nih_dbus_setup {| slot_ok := true; loop_ok := true; data_ok := false; watch_ok := true;
                       timeout_ok := true; filter_ok := true |} (Some 1%nat) (fresh_world 1)
     = (-1, allocate_data_slot (fresh_world 1)).
Proof.
  destruct (setup_failure_leftovers
              {| slot_ok := true; loop_ok := true; data_ok := true; watch_ok := false;
                 timeout_ok := true; filter_ok := true |} (Some 1%nat) (fresh_world 1) eq_refl)
    as (_ & _ & H).
  destruct (H eq_refl eq_refl eq_refl) as (H1 & H2 & _).
  split; [exact H1|]. split; [exact H2|]. reflexivity.
Defined.

(** X13: after a first call that stored the main-loop function and then
    failed, every later call takes the connection for one that is set
    up: it can return 0, and the functions the first call did not get to
    install are never installed. *)
Theorem setup_retry_skips_functions
  (mem mem' : setup_mem) (handler handler' : option nat) (w : world) :
  main_loop_data (conn w) = None ->
  slot_ok mem = true -> loop_ok mem = true -> data_ok mem = true ->
  watch_ok mem && timeout_ok mem && filter_ok mem = false ->
  slot_ok mem' = true -> filter_ok mem' = true ->
  let w1 := (nih_dbus_setup mem handler w).2 in
  let r := nih_dbus_setup mem' handler' w1 in
  (nih_dbus_setup mem handler w).1 = -1
  /\ r.1 = 0
  /\ filters (conn r.2) = filters (conn w) ++ [handler']
  /\ watch_functions (conn r.2)
     = (watch_functions (conn w) + (if watch_ok mem then 1 else 0))%nat
  /\ timeout_functions (conn r.2)
     = (timeout_functions (conn w) + (if watch_ok mem && timeout_ok mem then 1 else 0))%nat
  /\ wakeup_main_function (conn r.2)
     = (wakeup_main_function (conn w)
        + (if watch_ok mem && timeout_ok mem then 1 else 0))%nat.
Proof.
  intros Hnone Hs Hl Hd Hrest Hs' Hf'. simpl.
  unfold nih_dbus_setup, setup_first, setup_shared.
  rewrite Hs, Hl, Hd, Hs', Hf'. simpl. rewrite Hnone.
  destruct (watch_ok mem), (timeout_ok mem), (filter_ok mem); simpl in *;
    try discriminate; rewrite ?app_nil_r; repeat split; lia.
Qed.

(** The theorem when the watch functions could not be installed the
    first time and memory is there the second time. *)
Lemma setup_retry_skips_functions_witness :
  (nih_dbus_setup all_ok (Some 1%nat)
     (nih_dbus_setup {| slot_ok := true; loop_ok := true; data_ok := true;
                        watch_ok := false; timeout_ok := true; filter_ok := true |}
        (Some 1%nat) (fresh_world 1)).2).1 = 0
  /\ watch_functions
       (conn (nih_dbus_setup all_ok (Some 1%nat)
                (nih_dbus_setup {| slot_ok := true; loop_ok := true; data_ok := true;
                                   watch_ok := false; timeout_ok := true;
                                   filter_ok := true |}
                   (Some 1%nat) (fresh_world 1)).2).2) = 0%nat.
Proof.
  destruct (setup_retry_skips_functions
              {| slot_ok := true; loop_ok := true; data_ok := true; watch_ok := false;
                 timeout_ok := true; filter_ok := true |} all_ok (Some 1%nat) (Some 1%nat)
              (fresh_world 1) eq_refl eq_refl eq_refl eq_refl eq_refl eq_refl eq_refl)
    as (_ & H1 & _ & H2 & _).
  split; [exact H1 | exact H2].
Defined.

End ConnMore.

(** ** Opening connections and servers *)
Module ServerProps.
Import DBus Conn ConnProps Server.

Lemma setup_outcome (mem : setup_mem) (handler : option nat) (w : world) :
  ((nih_dbus_setup mem handler w).1 = 0 \/ (nih_dbus_setup mem handler w).1 = -1)
  /\ refcount (conn (nih_dbus_setup mem handler w).2) = refcount (conn w)
  /\ trace (nih_dbus_setup mem handler w).2 = trace w
  /\ filters (conn (nih_dbus_setup mem handler w).2)
     = filters (conn w) ++ (if (nih_dbus_setup mem handler w).1 =? 0 then [handler] else []).
Proof.
  unfold nih_dbus_setup, setup_first, setup_shared. simpl.
  destruct (main_loop_data (conn w)) eqn:E;
    destruct mem as [[] [] [] [] [] []]; simpl; rewrite ?E, ?app_nil_r;
    repeat split; auto.
Qed.

Lemma setup_all_ok (handler : option nat) (w : world) :
  (nih_dbus_setup all_ok handler w).1 = 0.
Proof.
  unfold nih_dbus_setup, setup_first, setup_shared. simpl.
  destruct (main_loop_data (conn w)); reflexivity.
Qed.

(** X14: [nih_dbus_connect] and [nih_dbus_bus] hand the library's error on
    under its own name when no connection is had; with a connection,
    they return it with the filter of the handler added and the
    reference untouched, or, when the setup fails, raise [ENOMEM], add no
    filter and give the reference back; [nih_dbus_bus] has turned
    exit-on-disconnect off in both cases. *)
Theorem connect_keeps_or_returns_reference
  (l : link) (mem : setup_mem) (handler : option nat) (error : DBusError) :
  nih_dbus_connect (inl error) mem handler
  = ConnectFailed (NihDBusError (error_name error) (error_message error)) None
  /\ nih_dbus_bus (inl error) mem handler
     = ConnectFailed (NihDBusError (error_name error) (error_message error)) None
  /\ (exists w',
        refcount (conn w') = refcount (conn (link_world l))
        /\ trace w' = trace (link_world l)
        /\ ((nih_dbus_connect (inr l) mem handler
             = Connected {| link_world := w'; exit_on_disconnect := exit_on_disconnect l |}
             /\ nih_dbus_bus (inr l) mem handler
                = Connected {| link_world := w'; exit_on_disconnect := false |}
             /\ filters (conn w') = filters (conn (link_world l)) ++ [handler])
            \/ (nih_dbus_connect (inr l) mem handler
                = ConnectFailed (NihSystemError ENOMEM)
                    (Some {| link_world := dbus_connection_unref w';
                             exit_on_disconnect := exit_on_disconnect l |})
                /\ nih_dbus_bus (inr l) mem handler
                   = ConnectFailed (NihSystemError ENOMEM)
                       (Some {| link_world := dbus_connection_unref w';
                                exit_on_disconnect := false |})
                /\ filters (conn w') = filters (conn (link_world l))))).
Proof.
  split; [reflexivity|]. split; [reflexivity|].
  unfold nih_dbus_connect, nih_dbus_bus. cbn [link_world exit_on_disconnect].
  destruct (setup_outcome mem handler (link_world l)) as (Hr & Hc & Ht & Hf).
  destruct (nih_dbus_setup mem handler (link_world l)) as [r w'] eqn:E. simpl in *.
  exists w'. split; [exact Hc|]. split; [exact Ht|].
  destruct Hr as [-> | ->]; simpl in *.
  - left. auto.
  - right. rewrite app_nil_r in Hf. auto.
Qed.

Lemma setup_until_zero_spec (mems : list setup_mem) (handler : option nat) :
  forall w w',
    setup_until_zero mems handler w = Some w' ->
    refcount (conn w') = refcount (conn w)
    /\ trace w' = trace w
    /\ filters (conn w') = filters (conn w) ++ [handler].
Proof.
  induction mems as [|mem mems IH]; intros w w' H; simpl in H; [discriminate|].
  destruct (setup_outcome mem handler w) as (Hr & Hc & Ht & Hf).
  destruct (nih_dbus_setup mem handler w) as [r w1] eqn:E. simpl in *.
  destruct Hr as [-> | ->]; simpl in *.
  - injection H as <-. auto.
  - rewrite app_nil_r in Hf. destruct (IH _ _ H) as (H1 & H2 & H3).
    rewrite H1, H2, H3, Hc, Ht, Hf. auto.
Qed.

Lemma setup_until_zero_total (mems : list setup_mem) (handler : option nat) :
  all_ok ∈ mems -> forall w, is_Some (setup_until_zero mems handler w).
Proof.
  induction mems as [|mem mems IH]; intros Hin w; [apply elem_of_nil in Hin; contradiction|].
  simpl. destruct (nih_dbus_setup mem handler w) as [r w1] eqn:E.
  destruct (Z.eqb_spec r 0) as [->|Hne]; [eauto|].
  apply elem_of_cons in Hin as [<-|Hin]; [|apply IH, Hin].
  exfalso. apply Hne. pose proof (setup_all_ok handler w) as H0.
  rewrite E in H0. exact H0.
Qed.

(** X15: a connection the connect handler turns down is left as it came:
    no reference is taken and nothing is set up.  A connection that is
    kept gets one reference and, however many attempts the setup takes,
    one filter, that of the server's disconnect handler; when it
    disconnects that handler is called once and the reference is given
    back.  The call returns as soon as one attempt finds all the memory
    it needs. *)
Theorem new_connection_kept_or_untouched
  (s : DBusServer) (accepts : nat -> bool) (mems : list setup_mem) (w : world) :
  (turned_down s accepts = true ->
     exists h, connect_handler_data s = Some h
       /\ nih_dbus_new_connection s accepts mems w = Some ([h], w))
  /\ (forall calls w',
        turned_down s accepts = false ->
        nih_dbus_new_connection s accepts mems w = Some (calls, w') ->
        calls = match connect_handler_data s with Some h => [h] | None => [] end
        /\ refcount (conn w') = refcount (conn w) + 1
        /\ trace w' = trace w
        /\ filters (conn w') = filters (conn w) ++ [disconnect_handler_data s]
        /\ (filters (conn w) = [] ->
            forall message, is_disconnected message = true ->
              refcount (conn (dispatch message w').2) = refcount (conn w)
              /\ trace (dispatch message w').2
                 = trace w ++ filter_effects [disconnect_handler_data s]))
  /\ (all_ok ∈ mems -> is_Some (nih_dbus_new_connection s accepts mems w)).
Proof.
  assert (Hkept : forall w',
            setup_until_zero mems (disconnect_handler_data s) (dbus_connection_ref w)
            = Some w' ->
            refcount (conn w') = refcount (conn w) + 1
            /\ trace w' = trace w
            /\ filters (conn w') = filters (conn w) ++ [disconnect_handler_data s]
            /\ (filters (conn w) = [] ->
                forall message, is_disconnected message = true ->
                  refcount (conn (dispatch message w').2) = refcount (conn w)
                  /\ trace (dispatch message w').2
                     = trace w ++ filter_effects [disconnect_handler_data s])).
  { intros w' H. apply setup_until_zero_spec in H as (H1 & H2 & H3). simpl in *.
    split; [exact H1|]. split; [exact H2|]. split; [exact H3|].
    intros Hnil message Hm. unfold dispatch.
    destruct (run_filters_disconnected message (filters (conn w')) Hm w')
      as (_ & -> & ->).
    rewrite H1, H2, H3, Hnil. simpl. split; [lia | reflexivity]. }
  unfold nih_dbus_new_connection, turned_down. split; [|split].
  - destruct (connect_handler_data s) as [h|]; [|discriminate].
    intros ->. eauto.
  - intros calls w'. destruct (connect_handler_data s) as [h|].
    + intros ->. simpl.
      destruct (setup_until_zero _ _ _) as [w1|] eqn:E; [|discriminate].
      intros [= <- <-]. split; [reflexivity|]. apply Hkept. reflexivity.
    + intros _.
      destruct (setup_until_zero _ _ _) as [w1|] eqn:E; [|discriminate].
      intros [= <- <-]. split; [reflexivity|]. apply Hkept. reflexivity.
  - intros Hin.
    destruct (setup_until_zero_total mems (disconnect_handler_data s) Hin
                (dbus_connection_ref w)) as [w1 E].
    rewrite E. destruct (connect_handler_data s) as [h|]; [|eauto].
    destruct (accepts h); simpl; eauto.
Qed.

(** A connection is kept at the second attempt of the setup, the first
    having failed once the main-loop function was stored; its disconnect
    then gives the reference back. *)
Lemma new_connection_kept_or_untouched_witness :
  exists w',
    nih_dbus_new_connection
      {| server_refs := 1; connect_handler_data := Some 5%nat;
         disconnect_handler_data := Some 6%nat; server_watch_functions := 1;
         server_timeout_functions := 1; new_connection_function := 1 |}
      (fun _ => true)
      [{| slot_ok := true; loop_ok := true; data_ok := true; watch_ok := true;
          timeout_ok := true; filter_ok := false |}; all_ok]
      (fresh_world 1) = Some ([5%nat], w')
    /\ refcount (conn w') = 2
    /\ filters (conn w') = [Some 6%nat]
    /\ refcount (conn (dispatch disconnected_signal w').2) = 1
    /\ trace (dispatch disconnected_signal w').2 = [Handler 6; Unref].
Proof.
  eexists. split; [vm_compute; reflexivity|].
  destruct (new_connection_kept_or_untouched
              {| server_refs := 1; connect_handler_data := Some 5%nat;
                 disconnect_handler_data := Some 6%nat; server_watch_functions := 1;
                 server_timeout_functions := 1; new_connection_function := 1 |}
              (fun _ => true)
              [{| slot_ok := true; loop_ok := true; data_ok := true; watch_ok := true;
                  timeout_ok := true; filter_ok := false |}; all_ok]
              (fresh_world 1)) as (_ & H & _).
  destruct (H _ _ eq_refl eq_refl) as (_ & H1 & _ & H3 & H4).
  split; [exact H1|]. split; [exact H3|].
  destruct (H4 eq_refl disconnected_signal eq_refl) as [H5 H6].
  split; [exact H5 | exact H6].
Defined.

Lemma nih_dbus_server_spec (sw : server_world) (mem : server_mem)
  (connect_handler disconnect_handler : option nat) :
  (exists sw',
     nih_dbus_server (inr sw) mem connect_handler disconnect_handler = Listening sw'
     /\ mem = server_all_ok
     /\ server sw'
        = {| server_refs := server_refs (server sw);
             connect_handler_data := connect_handler;
             disconnect_handler_data := disconnect_handler;
             server_watch_functions := S (server_watch_functions (server sw));
             server_timeout_functions := S (server_timeout_functions (server sw));
             new_connection_function := S (new_connection_function (server sw)) |})
  \/ (exists sw',
        nih_dbus_server (inr sw) mem connect_handler disconnect_handler
        = ServerFailed (NihSystemError ENOMEM) (Some sw')
        /\ mem <> server_all_ok
        /\ server_refs (server sw') = server_refs (server sw) - 1
        /\ new_connection_function (server sw') = new_connection_function (server sw)).
Proof.
  unfold nih_dbus_server, server_error.
  destruct mem as [[] [] [] [] [] []]; simpl;
    first [ left; eexists; split; [reflexivity|]; split; reflexivity
          | right; eexists; split; [reflexivity|]; split; [discriminate|];
            split; reflexivity ].
Qed.

(** X16: [nih_dbus_server] returns the server only when every step found
    memory, and then the server holds the two handlers as given, so that
    each connection that comes in is shown to the connect handler and,
    when kept, gets the disconnect handler's filter; when a step fails
    the call raises [ENOMEM], releases the server once and does not set
    the new-connection function; when the library cannot listen its own
    error is raised under its own name. *)
Theorem server_hands_handlers_on
  (sw : server_world) (mem : server_mem) (connect_handler disconnect_handler : option nat)
  (error : DBusError) :
  nih_dbus_server (inl error) mem connect_handler disconnect_handler
  = ServerFailed (NihDBusError (error_name error) (error_message error)) None
  /\ ((exists sw',
         nih_dbus_server (inr sw) mem connect_handler disconnect_handler = Listening sw'
         /\ mem = server_all_ok
         /\ server_refs (server sw') = server_refs (server sw)
         /\ new_connection_function (server sw') = S (new_connection_function (server sw))
         /\ forall accepts mems w calls w',
              nih_dbus_new_connection (server sw') accepts mems w = Some (calls, w') ->
              calls = match connect_handler with Some h => [h] | None => [] end
              /\ filters (conn w')
                 = filters (conn w)
                   ++ (if match connect_handler with
                          | Some h => accepts h
                          | None => true
                          end
                       then [disconnect_handler] else []))
      \/ (exists sw',
            nih_dbus_server (inr sw) mem connect_handler disconnect_handler
            = ServerFailed (NihSystemError ENOMEM) (Some sw')
            /\ mem <> server_all_ok
            /\ server_refs (server sw') = server_refs (server sw) - 1
            /\ new_connection_function (server sw')
               = new_connection_function (server sw))).
Proof.
  split; [reflexivity|].
  destruct (nih_dbus_server_spec sw mem connect_handler disconnect_handler)
    as [(sw' & E & Hm & Hs)|H]; [left | right; exact H].
  exists sw'. split; [exact E|]. split; [exact Hm|]. rewrite Hs. simpl.
  split; [reflexivity|]. split; [reflexivity|].
  intros accepts mems w calls w' H. unfold nih_dbus_new_connection in H. simpl in H.
  destruct connect_handler as [h|].
  - destruct (accepts h); simpl in H.
    + destruct (setup_until_zero _ _ _) as [w1|] eqn:E1; [|discriminate].
      injection H as <- <-. split; [reflexivity|].
      apply setup_until_zero_spec in E1 as (_ & _ & E1). exact E1.
    + injection H as <- <-. rewrite app_nil_r. auto.
  - destruct (setup_until_zero _ _ _) as [w1|] eqn:E1; [|discriminate].
    injection H as <- <-. split; [reflexivity|].
    apply setup_until_zero_spec in E1 as (_ & _ & E1). exact E1.
Qed.

(** A server with both handlers, and one that could not store the
    disconnect handler. *)
Example server_hands_handlers_on_examples :
  (exists sw', nih_dbus_server (inr new_server) server_all_ok (Some 5%nat) (Some 6%nat)
               = Listening sw'
     /\ connect_handler_data (server sw') = Some 5%nat
     /\ disconnect_handler_data (server sw') = Some 6%nat)
  /\ (exists sw', nih_dbus_server (inr new_server)
                    {| connect_slot_ok := true; connect_data_ok := true;
                       disconnect_slot_ok := true; disconnect_data_ok := false;
                       server_watch_ok := true; server_timeout_ok := true |}
                    (Some 5%nat) (Some 6%nat)
                  = ServerFailed (NihSystemError ENOMEM) (Some sw')
        /\ server_refs (server sw') = 0).
Proof. split; eexists; (split; [reflexivity|]); repeat split. Qed.







End ServerProps.

(** ** Object creation *)
Module RegistryProps.
Import Object ObjectProps Registry.

Lemma new_object_fresh (w : world) : objects w !! fresh (dom (objects w)) = None.
Proof. apply not_elem_of_dom. apply is_fresh. Qed.

Lemma object_new_success (mem : new_mem) (conn : nat) (path : string) (w w' : world)
  (o : nat) :
  nih_dbus_object_new mem conn path w = (Some o, w') ->
  mem = new_all_ok
  /\ paths w !! (conn, path) = None
  /\ objects w !! o = None
  /\ w' = {| objects := <[o := {| obj_conn := conn; obj_path := path;
                                  registered := true |}]> (objects w);
             paths := <[(conn, path) := o]> (paths w);
             trace := trace w |}.
Proof.
  unfold nih_dbus_object_new, dbus_connection_register_object_path.
  destruct mem as [[] [] []]; simpl; try discriminate.
  destruct (paths w !! (conn, path)) eqn:Ep; [discriminate|].
  intros [= <- <-]. split; [reflexivity|]. split; [reflexivity|].
  split; [apply new_object_fresh|].
  unfold set_registered. simpl. f_equal.
  apply map_eq. intros j. rewrite lookup_alter.
  destruct (decide (fresh (dom (objects w)) = j)) as [<-|Hne].
  - rewrite !lookup_insert_eq. reflexivity.
  - rewrite !lookup_insert_ne by exact Hne. reflexivity.
Qed.

(** X18: [nih_dbus_object_new] does all or nothing.  It returns an object
    exactly when the three allocations succeed and the path has no
    handler on the connection yet; the object is then new, carries the
    connection and the path with its flag set, and is what the library
    has under the path.  Otherwise it returns [NULL] with the objects and
    the paths as they were: a path that is taken keeps the object it
    had. *)
Theorem object_new_all_or_nothing
  (mem : new_mem) (conn : nat) (path : string) (w : world) :
  let r := nih_dbus_object_new mem conn path w in
  match r.1 with
  | Some o =>
      mem = new_all_ok
      /\ paths w !! (conn, path) = None
      /\ objects w !! o = None
      /\ objects r.2 = <[o := {| obj_conn := conn; obj_path := path;
                                 registered := true |}]> (objects w)
      /\ paths r.2 = <[(conn, path) := o]> (paths w)
      /\ trace r.2 = trace w
  | None =>
      (mem <> new_all_ok \/ is_Some (paths w !! (conn, path)))
      /\ objects r.2 = objects w
      /\ paths r.2 = paths w
  end.
Proof.
  simpl. destruct (nih_dbus_object_new mem conn path w) as [[o|] w'] eqn:E; simpl.
  - apply object_new_success in E as (-> & Hp & Ho & ->). simpl.
    repeat split; assumption.
  - unfold nih_dbus_object_new, dbus_connection_register_object_path in E.
    destruct mem as [[] [] []]; simpl in E;
      try (injection E as <-; simpl;
           rewrite ?delete_insert_id by apply new_object_fresh;
           split; [left; discriminate | split; reflexivity]).
    destruct (paths w !! (conn, path)) eqn:Ep; [|discriminate].
    injection E as <-. simpl. rewrite delete_insert_id by apply new_object_fresh.
    split; [right; eauto | split; reflexivity].
Qed.

(** X19: an object that is created and then released by its owner is
    freed once after the library has been asked once to unregister its
    path, and the objects are as they were before it was created; so are
    the paths when the library's call goes through, while a call that
    runs out of memory, whose result the destructor does not look at,
    leaves the path registered to the object that has been freed.  An
    object the library drops of its own accord is freed once, the library
    is asked nothing, and objects and paths are as they were. *)
Theorem object_new_release_restores
  (fuel : nat) (mem : new_mem) (mem_ok : bool) (conn : nat) (path : string)
  (w w' : world) (o : nat) :
  (2 <= fuel)%nat ->
  nih_dbus_object_new mem conn path w = (Some o, w') ->
  release fuel mem_ok o w'
  = Some {| objects := objects w;
            paths := if mem_ok then paths w else <[(conn, path) := o]> (paths w);
            trace := trace w ++ [UnregisterPath conn path; Free o] |}
  /\ library_drops fuel conn path w'
     = Some {| objects := objects w; paths := paths w; trace := trace w ++ [Free o] |}.
Proof.
  intros Hfuel E. destruct fuel as [|[|fuel]]; try lia.
  apply object_new_success in E as (_ & Hp & Ho & ->).
  set (obj := {| obj_conn := conn; obj_path := path; registered := true |}).
  split.
  - rewrite (release_registered fuel mem_ok o obj); simpl;
      [|apply lookup_insert_eq | reflexivity | apply lookup_insert_eq].
    rewrite !delete_insert_id by assumption. reflexivity.
  - unfold library_drops. cbn [paths objects trace]. rewrite lookup_insert_eq.
    pose proof (unregister_registered fuel true o obj
                  {| objects := <[o:=obj]> (objects w);
                     paths := delete (conn, path) (<[(conn, path):=o]> (paths w));
                     trace := trace w |} (lookup_insert_eq _ _ _) eq_refl) as H.
    cbn [obj_conn obj] in H. rewrite H. simpl.
    rewrite !delete_insert_id by assumption. reflexivity.
Qed.

(** The theorem for an object at [/com/example] on connection 0,
    released when the library has memory and when it has not. *)
Lemma object_new_release_restores_witness :
  nih_dbus_object_new new_all_ok 0 "/com/example" empty_world
  = (Some 0%nat,
     {| objects := <[0%nat := {| obj_conn := 0; obj_path := "/com/example";
                                 registered := true |}]> ∅;
        paths := <[(0%nat, "/com/example") := 0%nat]> ∅;
        trace := [] |})
  /\ release 2 true 0
       {| objects := <[0%nat := {| obj_conn := 0; obj_path := "/com/example";
                                   registered := true |}]> ∅;
          paths := <[(0%nat, "/com/example") := 0%nat]> ∅;
          trace := [] |}
     = Some {| objects := ∅; paths := ∅;
               trace := [UnregisterPath 0 "/com/example"; Free 0] |}
  /\ release 2 false 0
       {| objects := <[0%nat := {| obj_conn := 0; obj_path := "/com/example";
                                   registered := true |}]> ∅;
          paths := <[(0%nat, "/com/example") := 0%nat]> ∅;
          trace := [] |}
     = Some {| objects := ∅; paths := <[(0%nat, "/com/example") := 0%nat]> ∅;
               trace := [UnregisterPath 0 "/com/example"; Free 0] |}.
Proof.
  assert (E : nih_dbus_object_new new_all_ok 0 "/com/example" empty_world
              = (Some 0%nat,
                 {| objects := <[0%nat := {| obj_conn := 0; obj_path := "/com/example";
                                             registered := true |}]> ∅;
                    paths := <[(0%nat, "/com/example") := 0%nat]> ∅;
                    trace := [] |})).
  { vm_compute. reflexivity. }
  split; [exact E|]. split.
  - destruct (object_new_release_restores 2 new_all_ok true 0 "/com/example" empty_world
                _ 0 ltac:(lia) E) as [H _].
    exact H.
  - destruct (object_new_release_restores 2 new_all_ok false 0 "/com/example" empty_world
                _ 0 ltac:(lia) E) as [H _].
    exact H.
Defined.

End RegistryProps.

(** ** Dispatch: what never reaches a marshaller, and what is given back *)
Module DispatchMore.
Import DBus Dispatch DispatchProps DispatchExamples.

Lemma not_method_call (message : DBusMessage) (iface member : string) :
  msg_type message <> DBUS_MESSAGE_TYPE_METHOD_CALL ->
  dbus_message_is_method_call message iface member = false.
Proof.
  intros Ht. unfold dbus_message_is_method_call, has_type_interface_member.
  destruct (msg_type message); try reflexivity. contradiction.
Qed.

Lemma bare_method_call (message : DBusMessage) (iface member : string) :
  msg_type message = DBUS_MESSAGE_TYPE_METHOD_CALL ->
  msg_interface message = None -> msg_member message = Some member ->
  dbus_message_is_method_call message iface member = true.
Proof.
  intros Ht Hi Hm. unfold dbus_message_is_method_call, has_type_interface_member.
  rewrite Ht, Hi, Hm, String.eqb_refl. reflexivity.
Qed.

Lemma find_handler_not_call (message : DBusMessage) (ifaces : list NihDBusInterface) :
  msg_type message <> DBUS_MESSAGE_TYPE_METHOD_CALL ->
  find_handler ifaces message = None.
Proof.
  intros Ht. apply find_handler_none.
  apply Forall_forall. intros i _. apply Forall_forall. intros m _.
  apply not_method_call, Ht.
Qed.

Lemma introspect_calls (object : NihDBusObject) (registered : list string) (w : world) :
  calls (nih_dbus_object_introspect object registered w).2 = calls w
  /\ mem (nih_dbus_object_introspect object registered w).2 = mem w.
Proof.
  destruct (introspect_spec object registered w) as (k & _ & [E|[_ E]]);
    rewrite E; split; reflexivity.
Qed.

(** X20: the callback keeps three things from the marshallers whatever the
    table says.  A message that is not a method call is left to others.
    A method call that names no interface, as the protocol allows, and
    whose member is [Get], [Set] or [GetAll] is taken for a call of the
    Properties interface and left unanswered, even when an interface of
    the table has a method of that name; one whose member is
    [Introspect] is answered by the introspection.  In all three cases no
    marshaller is called. *)
Theorem object_message_builtin_first
  (run_marshaller : nat -> NihDBusObject -> DBusMessage -> world -> DBusHandlerResult * world)
  (message : DBusMessage) (object : NihDBusObject) (registered : list string) (w : world) :
  let r := nih_dbus_object_message run_marshaller message object registered w in
  (msg_type message <> DBUS_MESSAGE_TYPE_METHOD_CALL ->
     r = (DBUS_HANDLER_RESULT_NOT_YET_HANDLED, w))
  /\ (msg_type message = DBUS_MESSAGE_TYPE_METHOD_CALL ->
      msg_interface message = None ->
      (msg_member message = Some "Get" \/ msg_member message = Some "Set"
       \/ msg_member message = Some "GetAll")%string ->
      r = (DBUS_HANDLER_RESULT_NOT_YET_HANDLED, w))
  /\ (msg_type message = DBUS_MESSAGE_TYPE_METHOD_CALL ->
      msg_interface message = None ->
      msg_member message = Some "Introspect"%string ->
      r = nih_dbus_object_introspect object registered w /\ calls r.2 = calls w).
Proof.
  simpl. unfold nih_dbus_object_message. split; [|split].
  - intros Ht. rewrite !not_method_call by exact Ht.
    rewrite find_handler_not_call by exact Ht. reflexivity.
  - intros Ht Hi Hm.
    assert (Hnot : dbus_message_is_method_call message DBUS_INTERFACE_INTROSPECTABLE
                     "Introspect" = false).
    { unfold dbus_message_is_method_call, has_type_interface_member.
      rewrite Ht, Hi. destruct Hm as [->|[->| ->]]; reflexivity. }
    rewrite Hnot.
    destruct Hm as [Hm|[Hm|Hm]].
    + rewrite (bare_method_call _ _ _ Ht Hi Hm). reflexivity.
    + rewrite (bare_method_call message DBUS_INTERFACE_PROPERTIES "Set" Ht Hi Hm).
      destruct (dbus_message_is_method_call message DBUS_INTERFACE_PROPERTIES "Get"); reflexivity.
    + rewrite (bare_method_call message DBUS_INTERFACE_PROPERTIES "GetAll" Ht Hi Hm).
      destruct (dbus_message_is_method_call message DBUS_INTERFACE_PROPERTIES "Get");
        destruct (dbus_message_is_method_call message DBUS_INTERFACE_PROPERTIES "Set"); reflexivity.
  - intros Ht Hi Hm. rewrite (bare_method_call _ _ _ Ht Hi Hm).
    split; [reflexivity | apply introspect_calls].
Qed.

(** A call of [Get] without interface on an object whose own interface
    has a method [Get]: the method is not called. *)
Lemma object_message_builtin_first_witness :
  matches (bare_call "Get") config_interface get_method = true
  /\ nih_dbus_object_message handled_marshaller (bare_call "Get") config_object [] plenty
     = (DBUS_HANDLER_RESULT_NOT_YET_HANDLED, plenty)
  /\ nih_dbus_object_message handled_marshaller
       (method_call "com.example.Config" "Get") config_object [] plenty
     = (DBUS_HANDLER_RESULT_HANDLED, after (during 2 plenty)).
Proof.
  split; [reflexivity|]. split; [|reflexivity].
  destruct (object_message_builtin_first handled_marshaller (bare_call "Get")
              config_object [] plenty) as (_ & H & _).
  apply H; [reflexivity | reflexivity | left; reflexivity].
Defined.

(** X21: when the marshallers give back the blocks and references they
    take, so does the callback, on every message and whatever allocation
    fails: the wrapper and the reference on the message are released
    after the marshaller, and the introspection releases its string, its
    reply and the list of children on both of its ways out. *)
Theorem object_message_balanced
  (run_marshaller : nat -> NihDBusObject -> DBusMessage -> world -> DBusHandlerResult * world)
  (message : DBusMessage) (object : NihDBusObject) (registered : list string) (w : world) :
  (forall m obj msg w0,
     nih_blocks (run_marshaller m obj msg w0).2 = nih_blocks w0
     /\ dbus_blocks (run_marshaller m obj msg w0).2 = dbus_blocks w0
     /\ message_refs (run_marshaller m obj msg w0).2 = message_refs w0) ->
  let r := nih_dbus_object_message run_marshaller message object registered w in
  nih_blocks r.2 = nih_blocks w
  /\ dbus_blocks r.2 = dbus_blocks w
  /\ message_refs r.2 = message_refs w.
Proof.
  intros Hm. simpl. unfold nih_dbus_object_message.
  destruct (dbus_message_is_method_call message DBUS_INTERFACE_INTROSPECTABLE "Introspect").
  { destruct (introspect_spec object registered w) as (k & _ & [E|[_ E]]);
      rewrite E; repeat split. }
  destruct (dbus_message_is_method_call message DBUS_INTERFACE_PROPERTIES "Get"); [repeat split|].
  destruct (dbus_message_is_method_call message DBUS_INTERFACE_PROPERTIES "Set"); [repeat split|].
  destruct (dbus_message_is_method_call message DBUS_INTERFACE_PROPERTIES "GetAll"); [repeat split|].
  destruct (find_handler (interfaces object) message) as [method|]; [|repeat split].
  rewrite handle_method_run. destruct (mem w (allocs w)); [|repeat split].
  destruct (Hm (marshaller method) object message (during (marshaller method) w))
    as (H1 & H2 & H3).
  cbn [snd after nih_blocks dbus_blocks message_refs].
  rewrite H1, H2, H3. simpl. repeat split. lia.
Qed.

(** The theorem with marshallers that do nothing, on a call of Stop. *)
Lemma object_message_balanced_witness :
  nih_blocks (nih_dbus_object_message handled_marshaller
                (method_call "com.example.Job" "Stop") job_object [] plenty).2 = 0%nat
  /\ dbus_blocks (nih_dbus_object_message handled_marshaller
                    (method_call "com.example.Job" "Stop") job_object [] plenty).2 = 0%nat
  /\ message_refs (nih_dbus_object_message handled_marshaller
                     (method_call "com.example.Job" "Stop") job_object [] plenty).2 = 1.
Proof.
  apply (object_message_balanced handled_marshaller
           (method_call "com.example.Job" "Stop") job_object [] plenty).
  intros m obj msg w0. repeat split.
Defined.

(** X22: a failed introspection leaves nothing behind that changes the
    next attempt: when the library calls again and memory is there, the
    whole document is queued, once, and nothing is held afterwards. *)
Theorem introspect_retry_succeeds
  (object : NihDBusObject) (registered : list string) (w : world) :
  let r1 := nih_dbus_object_introspect object registered w in
  r1.1 = DBUS_HANDLER_RESULT_NEED_MEMORY ->
  (forall n, (allocs r1.2 <= n)%nat -> mem w n = true) ->
  let r2 := nih_dbus_object_introspect object registered r1.2 in
  r2.1 = DBUS_HANDLER_RESULT_HANDLED
  /\ outgoing r2.2 = outgoing w ++ [document object registered]
  /\ nih_blocks r2.2 = nih_blocks w
  /\ dbus_blocks r2.2 = dbus_blocks w
  /\ message_refs r2.2 = message_refs w.
Proof.
  simpl. intros Hneed Hmem.
  destruct (introspect_spec object registered w) as (k & _ & [E|[_ E]]);
    rewrite E in *; [discriminate|]. clear Hneed. cbn [fst snd] in *.
  simpl in Hmem.
  destruct (introspect_spec object registered (bump (S k) w)) as (k2 & _ & [E2|[Hf E2]]).
  - rewrite E2. repeat split.
  - exfalso. simpl in Hf. rewrite Hmem in Hf by lia. discriminate.
Qed.

(** The theorem when the fourth allocation of the first attempt fails. *)
Lemma introspect_retry_succeeds_witness :
  (nih_dbus_object_introspect job_object ["child"] (failing_at 3)).1
  = DBUS_HANDLER_RESULT_NEED_MEMORY
  /\ outgoing (nih_dbus_object_introspect job_object ["child"]
                 (nih_dbus_object_introspect job_object ["child"] (failing_at 3)).2).2
     = [document job_object ["child"]].
Proof.
  assert (E : (nih_dbus_object_introspect job_object ["child"] (failing_at 3)).1
              = DBUS_HANDLER_RESULT_NEED_MEMORY) by reflexivity.
  split; [exact E|].
  destruct (introspect_retry_succeeds job_object ["child"] (failing_at 3) E)
    as (_ & H & _).
  - intros n Hn. vm_compute in Hn. unfold failing_at. simpl.
    destruct (Nat.eqb_spec n 3); [lia | reflexivity].
  - exact H.
Defined.

End DispatchMore.
